(** * AutoNetLab: topology manager and template rendering

    A shallow embedding of [autonetlab/core/topology.py] (class
    [TopologyManager]) and of [ConfigManager.render_template] from
    [autonetlab/core/config_manager.py], with the properties of the
    specification that concern them.

    The topology held by a manager is whatever [yaml.safe_load] or
    [json.load] returned, so the embedding works on dynamically typed values:
    every operator the source applies ([in], subscripting, [.get], iteration,
    truthiness) is defined on all values and raises the interpreter's error
    where Python does. *)

From Stdlib Require Import List String Ascii ZArith Bool Arith Lia Permutation.
From Stdlib Require Import DecimalString.
Import ListNotations.
Local Open Scope list_scope.
Local Open Scope string_scope.
Set Warnings "-register-all".

(** ** Values *)

(** Hashable scalars: what can be a dictionary key or a set element.
    Floating-point numbers, dates and binary blobs of YAML are not
    represented. *)
Inductive pykey : Type :=
| KNone
| KBool (b : bool)
| KInt (z : Z)
| KStr (s : string).

(** Parsed documents. A dictionary keeps its items in insertion order, as
    Python's [dict] does. *)
Inductive pyval : Type :=
| PNone
| PBool (b : bool)
| PInt (z : Z)
| PStr (s : string)
| PList (l : list pyval)
| PDict (d : list (pykey * pyval)).

Definition of_key (k : pykey) : pyval :=
  match k with
  | KNone => PNone
  | KBool b => PBool b
  | KInt z => PInt z
  | KStr s => PStr s
  end.

(** [hash(v)]: defined on scalars, [TypeError: unhashable type] on lists and
    dictionaries. *)
Definition to_key (v : pyval) : option pykey :=
  match v with
  | PNone => Some KNone
  | PBool b => Some (KBool b)
  | PInt z => Some (KInt z)
  | PStr s => Some (KStr s)
  | PList _ | PDict _ => None
  end.

(** Python identifies [True] with [1] and [False] with [0], for [==] as for
    hashing; [norm] picks the integer as representative. *)
Definition norm (k : pykey) : pykey :=
  match k with
  | KBool b => KInt (if b then 1 else 0)
  | _ => k
  end.

Definition pykey_eq_dec (a b : pykey) : {a = b} + {a <> b}.
Proof.
  decide equality.
  - apply Bool.bool_dec.
  - apply Z.eq_dec.
  - apply string_dec.
Defined.

(** [a == b] on scalars. *)
Definition key_eqb (a b : pykey) : bool :=
  if pykey_eq_dec (norm a) (norm b) then true else false.

(** [bool(v)]. *)
Definition truthy (v : pyval) : bool :=
  match v with
  | PNone => false
  | PBool b => b
  | PInt z => negb (Z.eqb z 0)
  | PStr s => negb (String.eqb s "")
  | PList l => match l with [] => false | _ => true end
  | PDict d => match d with [] => false | _ => true end
  end.

Definition key_truthy (k : pykey) : bool := truthy (of_key k).

(** [str(k)] for a scalar. *)
Definition py_str (k : pykey) : string :=
  match k with
  | KNone => "None"
  | KBool true => "True"
  | KBool false => "False"
  | KInt z => NilZero.string_of_int (Z.to_int z)
  | KStr s => s
  end.

(** ** Errors *)

(** Errors raised by the interpreter itself. *)
Inductive builtin_error : Type :=
| TypeError
| AttributeError
| KeyError.

(** The violations [validate_topology] reports, one constructor per
    [error_msg] of the source; [Unexpected] is the wrapper that the final
    [except] clause puts around any other error. *)
Inductive validation_msg : Type :=
| MissingKeys (missing_keys : list string)
| DevicesNotDict
| DeviceMissingProps (device_name : pykey) (missing_props : list string)
| ConnectionsNotList
| ConnectionNotDict (i : nat)
| ConnectionMissingEndpoints (i : nat)
| EndpointMissingDevice (i : nat)
| NonExistentDevice (i : nat) (device : pykey)
| Unexpected (e : exn)
with exn : Type :=
| Builtin (e : builtin_error)
| ValueError (msg : string)
| FileNotFoundError (msg : string)
| ParseError (msg : string)
| TopologyValidationError (msg : validation_msg).

Inductive result (A : Type) : Type :=
| Ok (a : A)
| Raise (e : exn).
Arguments Ok {A} a.
Arguments Raise {A} e.

Definition bind {A B : Type} (r : result A) (f : A -> result B) : result B :=
  match r with
  | Ok a => f a
  | Raise e => Raise e
  end.

Notation "x <- c ;; k" := (bind c (fun x => k))
  (at level 61, c at next level, right associativity).
Notation "c ;;; k" := (bind c (fun _ => k))
  (at level 61, right associativity).

(** ** Text of the messages *)

Definition nat_str (n : nat) : string := NilZero.string_of_uint (Nat.to_uint n).

(** [repr] of a list of quote-free strings: ['a', 'b']. *)
Fixpoint repr_items (l : list string) : string :=
  match l with
  | [] => ""
  | [s] => "'" ++ s ++ "'"
  | s :: rest => "'" ++ s ++ "', " ++ repr_items rest
  end.

Definition repr_list (l : list string) : string := "[" ++ repr_items l ++ "]".

(** The text the source builds for each violation. The text of an
    [Unexpected] error is the interpreter's own and is not modelled. *)
Definition message_text (m : validation_msg) : option string :=
  match m with
  | MissingKeys ks =>
      Some ("Missing required topology keys: " ++ repr_list ks)
  | DevicesNotDict =>
      Some "'devices' must be a dictionary mapping device names to configurations"
  | DeviceMissingProps n ps =>
      Some ("Device '" ++ py_str n ++ "' is missing required properties: "
            ++ repr_list ps)
  | ConnectionsNotList =>
      Some "'connections' must be a list of connection definitions"
  | ConnectionNotDict i =>
      Some ("Connection #" ++ nat_str i ++ " must be a dictionary")
  | ConnectionMissingEndpoints i =>
      Some ("Connection #" ++ nat_str i ++ " is missing 'endpoints'")
  | EndpointMissingDevice i =>
      Some ("Endpoint in connection #" ++ nat_str i ++ " is missing 'device'")
  | NonExistentDevice i d =>
      Some ("Connection #" ++ nat_str i ++ " references non-existent device: "
            ++ py_str d)
  | Unexpected _ => None
  end.

Definition no_topology_loaded : string :=
  "No topology loaded. Call load_topology() first.".

(** ** Built-in operators *)

(** [needle in haystack] on strings. *)
Fixpoint is_substring (needle hay : string) : bool :=
  if String.prefix needle hay then true
  else match hay with
       | EmptyString => false
       | String _ rest => is_substring needle rest
       end.

Fixpoint dict_lookup (k : pykey) (d : list (pykey * pyval)) : option pyval :=
  match d with
  | [] => None
  | (k', v) :: rest => if key_eqb k k' then Some v else dict_lookup k rest
  end.

Definition dict_keys (d : list (pykey * pyval)) : list pykey := map fst d.

(** Membership in a set or among the keys of a dictionary. *)
Definition key_mem (k : pykey) (ks : list pykey) : bool :=
  existsb (key_eqb k) ks.

(** [v == k] where one side is a scalar: other values never equal one. *)
Definition val_eq_key (v : pyval) (k : pykey) : bool :=
  match to_key v with
  | Some k' => key_eqb k' k
  | None => false
  end.

(** [k in c]. *)
Definition py_in (k : pykey) (c : pyval) : result bool :=
  match c with
  | PDict d => Ok (key_mem k (dict_keys d))
  | PList l => Ok (existsb (fun v => val_eq_key v k) l)
  | PStr s =>
      match k with
      | KStr n => Ok (is_substring n s)
      | _ => Raise (Builtin TypeError)
      end
  | PNone | PBool _ | PInt _ => Raise (Builtin TypeError)
  end.

(** [c[k]] for a string [k]: only a dictionary can be subscripted by one. *)
Definition py_getitem (c : pyval) (k : string) : result pyval :=
  match c with
  | PDict d =>
      match dict_lookup (KStr k) d with
      | Some v => Ok v
      | None => Raise (Builtin KeyError)
      end
  | _ => Raise (Builtin TypeError)
  end.

(** [c.get(k, default)]: a method of dictionaries only. *)
Definition py_get (c : pyval) (k : string) (default : pyval) : result pyval :=
  match c with
  | PDict d =>
      match dict_lookup (KStr k) d with
      | Some v => Ok v
      | None => Ok default
      end
  | _ => Raise (Builtin AttributeError)
  end.

Fixpoint chars (s : string) : list pyval :=
  match s with
  | EmptyString => []
  | String c rest => PStr (String c EmptyString) :: chars rest
  end.

(** The items [for x in c] goes through. *)
Definition py_iter (c : pyval) : result (list pyval) :=
  match c with
  | PList l => Ok l
  | PDict d => Ok (map of_key (dict_keys d))
  | PStr s => Ok (chars s)
  | PNone | PBool _ | PInt _ => Raise (Builtin TypeError)
  end.

Definition is_dict (v : pyval) : bool :=
  match v with PDict _ => true | _ => false end.

(** [[x for x in xs if x not in c]]. *)
Fixpoint missing_from (xs : list string) (c : pyval) : result (list string) :=
  match xs with
  | [] => Ok []
  | x :: rest =>
      b <- py_in (KStr x) c ;;
      ms <- missing_from rest c ;;
      Ok (if b then ms else x :: ms)
  end.

(** A [for] loop whose body may raise: the first error ends it. *)
Fixpoint for_each {A : Type} (body : A -> result unit) (xs : list A)
  : result unit :=
  match xs with
  | [] => Ok tt
  | x :: rest => body x ;;; for_each body rest
  end.

Fixpoint enumerate_from {A : Type} (i : nat) (xs : list A) : list (nat * A) :=
  match xs with
  | [] => []
  | x :: rest => (i, x) :: enumerate_from (S i) rest
  end.

Definition enumerate {A : Type} (xs : list A) : list (nat * A) :=
  enumerate_from 0 xs.

(** ** [TopologyManager.validate_topology] *)

Definition required_keys : list string := ["name"; "devices"; "connections"].
Definition required_device_props : list string := ["type"; "management"].

Definition invalid {A : Type} (m : validation_msg) : result A :=
  Raise (TopologyValidationError m).

Definition check_device (item : pykey * pyval) : result unit :=
  let (device_name, device_config) := item in
  missing_props <- missing_from required_device_props device_config ;;
  match missing_props with
  | [] => Ok tt
  | _ => invalid (DeviceMissingProps device_name missing_props)
  end.

Definition check_endpoint (device_names : list pykey) (i : nat)
    (endpoint : pyval) : result unit :=
  has_device <- py_in (KStr "device") endpoint ;;
  if negb has_device then invalid (EndpointMissingDevice i)
  else
    device <- py_getitem endpoint "device" ;;
    match to_key device with
    | None => Raise (Builtin TypeError)
    | Some k =>
        if negb (key_mem k device_names) then invalid (NonExistentDevice i k)
        else Ok tt
    end.

Definition check_connection (device_names : list pykey)
    (item : nat * pyval) : result unit :=
  let (i, connection) := item in
  if negb (is_dict connection) then invalid (ConnectionNotDict i)
  else
    has_endpoints <- py_in (KStr "endpoints") connection ;;
    if negb has_endpoints then invalid (ConnectionMissingEndpoints i)
    else
      endpoints_value <- py_getitem connection "endpoints" ;;
      endpoints <- py_iter endpoints_value ;;
      for_each (check_endpoint device_names i) endpoints.

(** The body of the [try] block. *)
Definition validate_checks (topology : pyval) : result bool :=
  missing_keys <- missing_from required_keys topology ;;
  match missing_keys with
  | _ :: _ => invalid (MissingKeys missing_keys)
  | [] =>
      devices_value <- py_getitem topology "devices" ;;
      match devices_value with
      | PDict devices =>
          for_each check_device devices ;;;
          connections_value <- py_getitem topology "connections" ;;
          match connections_value with
          | PList connections =>
              let device_names := dict_keys devices in
              for_each (check_connection device_names)
                       (enumerate connections) ;;;
              Ok true
          | _ => invalid ConnectionsNotList
          end
      | _ => invalid DevicesNotDict
      end
  end.

(** [validate_topology], on the manager's [self.topology] ([PNone] before any
    load). The [except] clause wraps every error that is not already a
    [TopologyValidationError]. *)
Definition validate_topology (topology : pyval) : result bool :=
  if negb (truthy topology) then Raise (ValueError no_topology_loaded)
  else
    match validate_checks topology with
    | Ok b => Ok b
    | Raise (TopologyValidationError m) => Raise (TopologyValidationError m)
    | Raise e => Raise (TopologyValidationError (Unexpected e))
    end.

(** ** The structural invariants of the data model

    The invariants of the topology document as the specification lists them,
    as a decidable predicate on parsed documents. *)

(** [v] is an object with a field [k]. *)
Definition has_key (k : string) (v : pyval) : bool :=
  match v with
  | PDict d => key_mem (KStr k) (dict_keys d)
  | _ => false
  end.

(** The field [k] of the object [v]. *)
Definition field (k : string) (v : pyval) : option pyval :=
  match v with
  | PDict d => dict_lookup (KStr k) d
  | _ => None
  end.

(** Every device object carries [type] and [management]. *)
Definition device_spec_ok (device_config : pyval) : bool :=
  has_key "type" device_config && has_key "management" device_config.

(** An endpoint is an object whose [device] is a key of [devices]. *)
Definition endpoint_ok (device_names : list pykey) (endpoint : pyval) : bool :=
  match field "device" endpoint with
  | Some v =>
      match to_key v with
      | Some k => key_mem k device_names
      | None => false
      end
  | None => false
  end.

(** A connection is an object with an [endpoints] sequence of endpoints. *)
Definition connection_ok (device_names : list pykey) (connection : pyval)
  : bool :=
  match field "endpoints" connection with
  | Some (PList endpoints) => forallb (endpoint_ok device_names) endpoints
  | _ => false
  end.

Definition satisfies_invariants (topology : pyval) : bool :=
  has_key "name" topology &&
  match field "devices" topology, field "connections" topology with
  | Some (PDict devices), Some (PList connections) =>
      forallb (fun item => device_spec_ok (snd item)) devices &&
      forallb (connection_ok (dict_keys devices)) connections
  | _, _ => false
  end.

(** ** Sample documents *)

Definition obj (fields : list (string * pyval)) : pyval :=
  PDict (map (fun kv => (KStr (fst kv), snd kv)) fields).

Definition device_spec : pyval :=
  obj [("type", PStr "router"); ("management", obj [("ip", PStr "10.0.0.1")])].

Definition endpoint (name : string) : pyval := obj [("device", PStr name)].

Definition link (names : list string) : pyval :=
  obj [("endpoints", PList (map endpoint names))].

Definition sample (device_names : list string) (links : list (list string))
  : pyval :=
  obj [("name", PStr "lab");
       ("devices", obj (map (fun n => (n, device_spec)) device_names));
       ("connections", PList (map link links))].

(** Devices A, B, C in a chain A-B, B-C. *)
Definition chain_abc : pyval := sample ["A"; "B"; "C"] [["A"; "B"]; ["B"; "C"]].

(** ** [TopologyManager.get_device_connections] *)

Definition device_not_found (device_name : pykey) : string :=
  "Device '" ++ py_str device_name ++ "' not found in the topology".

(** [any(endpoint.get('device') == device_name for endpoint in endpoints)]:
    the generator is consumed up to the first match only. *)
Fixpoint any_endpoint_is (device_name : pykey) (endpoints : list pyval)
  : result bool :=
  match endpoints with
  | [] => Ok false
  | endpoint :: rest =>
      v <- py_get endpoint "device" PNone ;;
      if val_eq_key v device_name then Ok true
      else any_endpoint_is device_name rest
  end.

Definition connection_has (device_name : pykey) (connection : pyval)
  : result bool :=
  endpoints_value <- py_get connection "endpoints" (PList []) ;;
  endpoints <- py_iter endpoints_value ;;
  any_endpoint_is device_name endpoints.

(** The loop that collects the connections listing [device_name]. *)
Fixpoint select_connections (device_name : pykey) (connections : list pyval)
  : result (list pyval) :=
  match connections with
  | [] => Ok []
  | connection :: rest =>
      b <- connection_has device_name connection ;;
      selected <- select_connections device_name rest ;;
      Ok (if b then connection :: selected else selected)
  end.

Definition get_device_connections (topology : pyval) (device_name : pykey)
  : result (list pyval) :=
  if negb (truthy topology) then Raise (ValueError no_topology_loaded)
  else
    devices <- py_get topology "devices" (PDict []) ;;
    is_declared <- py_in device_name devices ;;
    if negb is_declared then Raise (ValueError (device_not_found device_name))
    else
      connections_value <- py_get topology "connections" (PList []) ;;
      connections <- py_iter connections_value ;;
      select_connections device_name connections.

(** ** [TopologyManager.get_connected_devices] *)

(** [s.add(k)] on a set kept in insertion order. *)
Definition set_add (k : pykey) (s : list pykey) : list pykey :=
  if key_mem k s then s else (s ++ [k])%list.

(** The inner loop, over the endpoints of one connection. *)
Fixpoint add_endpoints (device_name : pykey) (endpoints : list pyval)
    (connected_devices : list pykey) : result (list pykey) :=
  match endpoints with
  | [] => Ok connected_devices
  | endpoint :: rest =>
      endpoint_device <- py_get endpoint "device" PNone ;;
      if truthy endpoint_device && negb (val_eq_key endpoint_device device_name)
      then
        match to_key endpoint_device with
        | None => Raise (Builtin TypeError)
        | Some k => add_endpoints device_name rest (set_add k connected_devices)
        end
      else add_endpoints device_name rest connected_devices
  end.

(** The outer loop, over the connections of the device. *)
Fixpoint add_connections (device_name : pykey) (connections : list pyval)
    (connected_devices : list pykey) : result (list pykey) :=
  match connections with
  | [] => Ok connected_devices
  | connection :: rest =>
      endpoints_value <- py_get connection "endpoints" (PList []) ;;
      endpoints <- py_iter endpoints_value ;;
      connected_devices' <-
        add_endpoints device_name endpoints connected_devices ;;
      add_connections device_name rest connected_devices'
  end.

Section SetOrder.

(** [list(connected_devices)]: the order in which Python goes through a set
    is not fixed by the language; [set_order] is that order, applied to the
    set in insertion order. *)
Variable set_order : list pykey -> list pykey.

Definition get_connected_devices (topology : pyval) (device_name : pykey)
  : result (list pykey) :=
  connections <- get_device_connections topology device_name ;;
  connected_devices <- add_connections device_name connections [] ;;
  Ok (set_order connected_devices).

(** ** [TopologyManager.verify_connectivity_path] *)

Definition source_not_found (source_device : pykey) : string :=
  "Source device '" ++ py_str source_device ++ "' not found in the topology".

Definition target_not_found (target_device : pykey) : string :=
  "Target device '" ++ py_str target_device ++ "' not found in the topology".

Definition bfs_queue : Type := list (pykey * list pykey).

(** What the [for next_device in connected_devices] loop leaves: the path,
    when it returned from the function, or the updated queue and visited
    set. *)
Inductive scan_outcome : Type :=
| Found (full_path : list pykey)
| Continue (queue : bfs_queue) (visited : list pykey).

Fixpoint scan_neighbours (target_device : pykey) (path : list pykey)
    (connected_devices : list pykey) (queue : bfs_queue)
    (visited : list pykey) : scan_outcome :=
  match connected_devices with
  | [] => Continue queue visited
  | next_device :: rest =>
      if key_eqb next_device target_device
      then Found (path ++ [next_device])%list
      else if negb (key_mem next_device visited)
      then scan_neighbours target_device path rest
             (queue ++ [(next_device, (path ++ [next_device])%list)])%list
             (set_add next_device visited)
      else scan_neighbours target_device path rest queue visited
  end.

(** The [while queue] loop. [fuel] bounds the number of [queue.pop(0)];
    [None] means the bound was reached with the queue not empty. *)
Fixpoint bfs_loop (fuel : nat) (topology : pyval) (target_device : pykey)
    (queue : bfs_queue) (visited : list pykey)
  : option (result (bool * list pykey)) :=
  match queue with
  | [] => Some (Ok (false, []))
  | (current_device, path) :: queue' =>
      match fuel with
      | O => None
      | S fuel' =>
          match get_connected_devices topology current_device with
          | Raise e => Some (Raise e)
          | Ok connected_devices =>
              match scan_neighbours target_device path connected_devices
                                    queue' visited with
              | Found full_path => Some (Ok (true, full_path))
              | Continue queue'' visited' =>
                  bfs_loop fuel' topology target_device queue'' visited'
              end
          end
      end
  end.

Definition verify_connectivity_path_fuel (fuel : nat) (topology : pyval)
    (source_device target_device : pykey)
  : option (result (bool * list pykey)) :=
  if negb (truthy topology) then Some (Raise (ValueError no_topology_loaded))
  else
    match py_get topology "devices" (PDict []) with
    | Raise e => Some (Raise e)
    | Ok (PDict devices) =>
        let device_names := dict_keys devices in
        if negb (key_mem source_device device_names)
        then Some (Raise (ValueError (source_not_found source_device)))
        else if negb (key_mem target_device device_names)
        then Some (Raise (ValueError (target_not_found target_device)))
        else if key_eqb source_device target_device
        then Some (Ok (true, [source_device]))
        else bfs_loop fuel topology target_device
               [(source_device, [source_device])] [source_device]
    | Ok _ => Some (Raise (Builtin AttributeError))
    end.

(** The number of entries of the [devices] mapping. *)
Definition device_count (topology : pyval) : nat :=
  match field "devices" topology with
  | Some (PDict devices) => List.length devices
  | _ => 0
  end.

(** The method itself: the loop never pops the queue more often than
    [devices] has entries, which is the bound given here. *)
Definition verify_connectivity_path (topology : pyval)
    (source_device target_device : pykey)
  : option (result (bool * list pykey)) :=
  verify_connectivity_path_fuel (device_count topology) topology
    source_device target_device.

End SetOrder.

(** The devices declared by the loaded topology. *)
Definition declared (topology : pyval) (device_name : pykey) : bool :=
  match field "devices" topology with
  | Some (PDict devices) => key_mem device_name (dict_keys devices)
  | _ => false
  end.

(** Device names as the callers pass them. *)
Definition A : pykey := KStr "A".
Definition B : pykey := KStr "B".
Definition C : pykey := KStr "C".
Definition D : pykey := KStr "D".

(** ** [TopologyManager.load_topology] *)

(** What follows the last [sep] of [p], if [p] has one. *)
Fixpoint after_last (sep : ascii) (p : string) : option string :=
  match p with
  | EmptyString => None
  | String c rest =>
      match after_last sep rest with
      | Some tail => Some tail
      | None => if Ascii.eqb c sep then Some rest else None
      end
  end.

(** The suffix of [p] that starts at its last dot, if [p] has one. *)
Fixpoint from_last_dot (p : string) : option string :=
  match p with
  | EmptyString => None
  | String c rest =>
      match from_last_dot rest with
      | Some ext => Some ext
      | None => if Ascii.eqb c "."%char then Some p else None
      end
  end.

Fixpoint drop_leading_dots (p : string) : string :=
  match p with
  | String c rest => if Ascii.eqb c "."%char then drop_leading_dots rest else p
  | EmptyString => EmptyString
  end.

(** [os.path.splitext(p)[1]]: the extension starts at the last dot of the
    last path component, leading dots of the component not counted. *)
Definition splitext_ext (p : string) : string :=
  let component :=
    match after_last "/"%char p with Some tail => tail | None => p end in
  match from_last_dot (drop_leading_dots component) with
  | Some ext => ext
  | None => ""
  end.

Definition lower_ascii (c : ascii) : ascii :=
  let n := nat_of_ascii c in
  if Nat.leb 65 n && Nat.leb n 90 then ascii_of_nat (n + 32) else c.

(** [s.lower()], on ASCII text. *)
Fixpoint lower (s : string) : string :=
  match s with
  | EmptyString => EmptyString
  | String c rest => String (lower_ascii c) (lower rest)
  end.

(** [len(v)]. *)
Definition py_len (v : pyval) : result nat :=
  match v with
  | PStr s => Ok (String.length s)
  | PList l => Ok (List.length l)
  | PDict d => Ok (List.length d)
  | PNone | PBool _ | PInt _ => Raise (Builtin TypeError)
  end.

Definition file_not_found (topology_file : string) : string :=
  "Topology file not found: " ++ topology_file.

Definition unsupported_format (file_extension : string) : string :=
  "Unsupported file format: " ++ file_extension ++ ". Use YAML or JSON.".

Section Files.

(** The collaborators of [load_topology]: the file system
    ([os.path.isfile], and the text [open] gives for a file, which is taken
    to be readable once it exists) and the two parsers, which return the
    parsed document or raise their parse error ([yaml.YAMLError],
    [json.JSONDecodeError]; both are [ParseError] here). *)
Variable isfile : string -> bool.
Variable read_text : string -> string.
Variable yaml_safe_load : string -> result pyval.
Variable json_load : string -> result pyval.

(** [load_topology], from the manager's [self.topology] to the new one and the
    outcome of the call. The assignment to [self.topology] comes before the
    line that logs the number of devices. *)
Definition load_topology (self_topology : pyval) (topology_file : string)
  : pyval * result pyval :=
  if negb (isfile topology_file)
  then (self_topology, Raise (FileNotFoundError (file_not_found topology_file)))
  else
    let file_extension := lower (splitext_ext topology_file) in
    let parsed :=
      if String.eqb file_extension ".yaml" || String.eqb file_extension ".yml"
      then yaml_safe_load (read_text topology_file)
      else if String.eqb file_extension ".json"
      then json_load (read_text topology_file)
      else Raise (ValueError (unsupported_format file_extension)) in
    match parsed with
    | Raise e => (self_topology, Raise e)
    | Ok topology =>
        match devices <- py_get topology "devices" (PList []) ;;
              py_len devices with
        | Raise e => (topology, Raise e)
        | Ok _ => (topology, Ok topology)
        end
    end.

(** The parser the extension of [topology_file] selects returned [r]. *)
Definition parser_gives (topology_file : string) (r : result pyval) : Prop :=
  let file_extension := lower (splitext_ext topology_file) in
  ((file_extension = ".yaml" \/ file_extension = ".yml") /\
   yaml_safe_load (read_text topology_file) = r) \/
  (file_extension = ".json" /\ json_load (read_text topology_file) = r).

End Files.

(** [topology] is a loaded topology: what the manager holds after some call
    of [load_topology] that returned. *)
Definition loaded (topology : pyval) : Prop :=
  exists (isfile : string -> bool) (read_text : string -> string)
         (yaml_safe_load json_load : string -> result pyval)
         (held : pyval) (topology_file : string),
    load_topology isfile read_text yaml_safe_load json_load held topology_file
    = (topology, Ok topology).

(** ** [ConfigManager.render_template] *)

(** [s.replace(old, new)] for a non-empty [old]: the occurrences of [old] are
    taken from the left and do not overlap. [skip] counts the characters of
    an occurrence still to be dropped. *)
Fixpoint replace_from (old new : string) (skip : nat) (s : string) : string :=
  match s with
  | EmptyString => EmptyString
  | String c rest =>
      match skip with
      | S k => replace_from old new k rest
      | O =>
          if String.prefix old s
          then new ++ replace_from old new (String.length old - 1) rest
          else String c (replace_from old new 0 rest)
      end
  end.

(** [s.replace('', new)] puts [new] around every character. *)
Fixpoint intersperse (new s : string) : string :=
  match s with
  | EmptyString => new
  | String c rest => new ++ String c (intersperse new rest)
  end.

Definition py_replace (s old new : string) : string :=
  match old with
  | EmptyString => intersperse new s
  | _ => replace_from old new 0 s
  end.

(** [re.findall(r'{([^{}]+)}', s)]: the brace-free, non-empty texts enclosed
    in braces. [cur] is the text read since the last opening brace. *)
Fixpoint find_unreplaced (cur : option string) (s : string) : list string :=
  match s with
  | EmptyString => []
  | String c rest =>
      if Ascii.eqb c "{"%char then find_unreplaced (Some "") rest
      else if Ascii.eqb c "}"%char then
        match cur with
        | Some (String a b) => String a b :: find_unreplaced None rest
        | _ => find_unreplaced None rest
        end
      else
        match cur with
        | Some name => find_unreplaced (Some (name ++ String c "")) rest
        | None => find_unreplaced None rest
        end
  end.

Definition unreplaced_vars (rendered_content : string) : list string :=
  find_unreplaced None rendered_content.

Definition placeholder (key : string) : string := "{" ++ key ++ "}".

(** What [render_template] hands to [self.logger.warning]. *)
Inductive warning : Type :=
| UnreplacedVariables (unreplaced : list string).

Section Rendering.

(** [str(v)] of a list or of a dictionary is its [repr], which is not
    modelled: [repr_compound] stands for it. *)
Variable repr_compound : pyval -> string.

(** [str(v)]. *)
Definition py_str_value (v : pyval) : string :=
  match to_key v with
  | Some k => py_str k
  | None => repr_compound v
  end.

(** The [for key, value in variables.items()] loop. A key that is not a
    string makes ["{" + key] raise. *)
Fixpoint replace_variables (variables : list (pykey * pyval))
    (rendered_content : string) : result string :=
  match variables with
  | [] => Ok rendered_content
  | (KStr key, value) :: rest =>
      replace_variables rest
        (py_replace rendered_content (placeholder key) (py_str_value value))
  | _ :: _ => Raise (Builtin TypeError)
  end.

(** [render_template]: the rendered text, or the error, and the warnings
    logged on the way. *)
Definition render_template (template_content : string)
    (variables : list (pykey * pyval)) : result string * list warning :=
  match replace_variables variables template_content with
  | Raise e => (Raise e, [])
  | Ok rendered_content =>
      match unreplaced_vars rendered_content with
      | [] => (Ok rendered_content, [])
      | unreplaced => (Ok rendered_content, [UnreplacedVariables unreplaced])
      end
  end.

End Rendering.

(** ** Replacement, as the specification words it

    [Replaced old new s out]: [out] is [s] with every occurrence of [old]
    replaced by [new], the occurrences taken from the left. *)

(** [old] occurs in [s] at some position. *)
Definition occurs (old s : string) : Prop :=
  exists before after, s = before ++ old ++ after.

Inductive Replaced (old new : string) : string -> string -> Prop :=
| Replaced_none (s : string) :
    ~ occurs old s -> Replaced old new s s
| Replaced_first (before after out : string) :
    (forall b a, before ++ old = b ++ old ++ a -> a = "") ->
    Replaced old new after out ->
    Replaced old new (before ++ old ++ after) (before ++ new ++ out).

(** ** Undeclared endpoints *)

(** [v] is not a key of the mapping with keys [device_names]. *)
Definition not_a_key (device_names : list pykey) (v : pyval) : Prop :=
  match to_key v with
  | Some k => key_mem k device_names = false
  | None => True
  end.

(** Some endpoint of some connection of [topology] has the [device] value
    [v], and [v] is not a key of [devices]. *)
Definition undeclared_endpoint (topology : pyval) (v : pyval) : Prop :=
  exists devices connections connection endpoints endpoint,
    field "devices" topology = Some (PDict devices) /\
    field "connections" topology = Some (PList connections) /\
    In connection connections /\
    field "endpoints" connection = Some (PList endpoints) /\
    In endpoint endpoints /\
    field "device" endpoint = Some v /\
    not_a_key (dict_keys devices) v.

Definition has_undeclared_endpoint (topology : pyval) : Prop :=
  exists v, undeclared_endpoint topology v.

(** The text of the message contains [name]. *)
Definition message_names (m : validation_msg) (name : string) : bool :=
  match message_text m with
  | Some text => is_substring name text
  | None => false
  end.

(** The endpoint that names [k], in connection number [i], is the first
    violation in the order of the document: the top-level keys and the devices
    are as the invariants ask, so are the connections before number [i] and
    the endpoints before this one in connection [i], and [k] is not a key of
    [devices]. *)
Definition first_violation_is_endpoint (topology : pyval) (i : nat)
    (k : pykey) : Prop :=
  exists devices before connection after endpoints_before endpoint
         endpoints_after v,
    has_key "name" topology = true /\
    field "devices" topology = Some (PDict devices) /\
    forallb (fun item => device_spec_ok (snd item)) devices = true /\
    field "connections" topology
      = Some (PList (before ++ connection :: after)%list) /\
    forallb (connection_ok (dict_keys devices)) before = true /\
    i = List.length before /\
    field "endpoints" connection
      = Some (PList (endpoints_before ++ endpoint :: endpoints_after)%list) /\
    forallb (endpoint_ok (dict_keys devices)) endpoints_before = true /\
    field "device" endpoint = Some v /\
    to_key v = Some k /\
    key_mem k (dict_keys devices) = false.

(** Devices A and D; the one connection links A to Z, which is not declared. *)
Definition dangling : pyval := sample ["A"; "D"] [["A"; "Z"]].

(** The same document without its [name]. *)
Definition dangling_unnamed : pyval :=
  obj [("devices", obj [("A", device_spec); ("D", device_spec)]);
       ("connections", PList [link ["A"; "Z"]])].

(** ** The induced adjacency graph

    The graph of the specification: two distinct devices are adjacent when
    some connection lists both among its endpoints. *)

(** The device an endpoint names, if it names one. *)
Definition endpoint_device (endpoint : pyval) : list pykey :=
  match field "device" endpoint with
  | Some v => match to_key v with Some k => [k] | None => [] end
  | None => []
  end.

(** The devices a connection lists, in the order of its endpoints. *)
Definition endpoint_devices (connection : pyval) : list pykey :=
  match field "endpoints" connection with
  | Some (PList endpoints) => flat_map endpoint_device endpoints
  | _ => []
  end.

Definition connections_of (topology : pyval) : list pyval :=
  match field "connections" topology with
  | Some (PList connections) => connections
  | _ => []
  end.

(** The shape the queries rely on: an endpoint is an object whose [device]
    is a scalar, a connection an object whose [endpoints] is a sequence of
    such endpoints, and [connections], when the document has it, a sequence
    of such connections. Nothing is asked of the devices named. *)
Definition endpoint_shaped (endpoint : pyval) : bool :=
  match field "device" endpoint with
  | Some v => match to_key v with Some _ => true | None => false end
  | None => false
  end.

Definition connection_shaped (connection : pyval) : bool :=
  match field "endpoints" connection with
  | Some (PList endpoints) => forallb endpoint_shaped endpoints
  | _ => false
  end.

Definition connections_shaped (topology : pyval) : bool :=
  match field "connections" topology with
  | Some (PList connections) => forallb connection_shaped connections
  | Some _ => false
  | None => true
  end.

(** The part of the invariants that concerns the graph: [devices] is a
    mapping, and [connections], when the document has it, is a sequence of
    objects whose [endpoints] is a sequence of endpoints that each name a key
    of [devices]. *)
Definition connections_valid (topology : pyval) : bool :=
  match field "devices" topology with
  | Some (PDict devices) =>
      match field "connections" topology with
      | Some (PList connections) =>
          forallb (connection_ok (dict_keys devices)) connections
      | Some _ => false
      | None => true
      end
  | _ => false
  end.

Definition lists (device_name : pykey) (connection : pyval) : bool :=
  key_mem device_name (endpoint_devices connection).

Definition adjacent (topology : pyval) (a b : pykey) : bool :=
  negb (key_eqb a b) &&
  existsb (fun connection => lists a connection && lists b connection)
          (connections_of topology).

(** A path of the graph leads from the first device to the second. *)
Inductive connected (topology : pyval) : pykey -> pykey -> Prop :=
| connected_refl (a : pykey) : connected topology a a
| connected_step (a b c : pykey) :
    adjacent topology a b = true ->
    connected topology b c ->
    connected topology a c.

(** What the loops of [get_connected_devices] compute from the devices
    listed by the connections of [device_name]. *)
Definition add_keys (device_name : pykey) (listed : list pykey)
    (connected_devices : list pykey) : list pykey :=
  fold_left
    (fun acc k =>
       if key_truthy k && negb (key_eqb k device_name)
       then set_add k acc else acc)
    listed connected_devices.

(** Devices A, B, C, D with the single link A-B. *)
Definition split_abcd : pyval := sample ["A"; "B"; "C"; "D"] [["A"; "B"]].

(** One connection that lists A twice, with B and C. *)
Definition shared_abc : pyval := sample ["A"; "B"; "C"] [["A"; "B"; "A"; "C"]].

(** A device with the empty name, linked to A. *)
Definition empty_name : pyval := sample ["A"; ""] [["A"; ""]].

(** A stand-in for [yaml.safe_load] on the one text it is applied to here:
    an empty document parses to [None]. *)
Definition yaml_load_empty (text : string) : result pyval :=
  if String.eqb text "" then Ok PNone
  else Raise (ParseError "could not find expected ':'").

(** ** Rendering, as the specification words it

    [Rendered str_of s variables out]: [out] is [s] after the pairs of
    [variables], taken in order, have each had every occurrence of their
    placeholder replaced by the text [str_of] of their value. *)
Inductive Rendered (str_of : pyval -> string)
  : string -> list (pykey * pyval) -> string -> Prop :=
| Rendered_done (s : string) : Rendered str_of s [] s
| Rendered_pair (s mid out key : string) (value : pyval)
    (rest : list (pykey * pyval)) :
    Replaced (placeholder key) (str_of value) s mid ->
    Rendered str_of mid rest out ->
    Rendered str_of s ((KStr key, value) :: rest) out.

(** Every key of the mapping is a string. *)
Definition string_keys (variables : list (pykey * pyval)) : bool :=
  forallb (fun kv => match fst kv with KStr _ => true | _ => false end)
          variables.

(** ** The graph the search walks

    [get_connected_devices] leaves out the adjacent devices whose name is
    falsy, so the search follows these edges only. *)
Definition linked (topology : pyval) (a b : pykey) : bool :=
  key_truthy b && adjacent topology a b.

(** A sequence of devices, each linked to the next. *)
Inductive walk (topology : pyval) : list pykey -> Prop :=
| walk_single (a : pykey) : walk topology [a]
| walk_step (a b : pykey) (rest : list pykey) :
    linked topology a b = true ->
    walk topology (b :: rest) ->
    walk topology (a :: b :: rest).

Inductive reaches (topology : pyval) : pykey -> pykey -> Prop :=
| reaches_refl (a : pykey) : reaches topology a a
| reaches_step (a b c : pykey) :
    linked topology a b = true ->
    reaches topology b c ->
    reaches topology a c.

(** A queue entry of the search holds a walk from the source to its
    device, which is declared. *)
Definition good_entry (topology : pyval) (source : pykey)
    (entry : pykey * list pykey) : Prop :=
  declared topology (fst entry) = true /\
  walk topology (snd entry) /\
  hd_error (snd entry) = Some source /\
  last (snd entry) source = fst entry.

(** A set of devices the links do not leave, and from which the target is
    not linked. *)
Definition sealed (topology : pyval) (target : pykey) (inside : list pykey)
  : Prop :=
  forall x n, key_mem x inside = true -> linked topology x n = true ->
    key_eqb n target = false /\ key_mem n inside = true.

(** [dist_le topology source k y]: some walk of at most [k] links leads from
    the source to [y]. *)
Inductive dist_le (topology : pyval) (source : pykey) : nat -> pykey -> Prop :=
| dist_le_source (k : nat) (y : pykey) :
    key_eqb y source = true -> dist_le topology source k y
| dist_le_step (k : nat) (z y : pykey) :
    dist_le topology source k z ->
    linked topology z y = true ->
    dist_le topology source (S k) y.

(** ** The documents [validate_topology] accepts *)

(** [name in c] holds, and the test raises nothing. *)
Definition contains (name : string) (c : pyval) : bool :=
  match py_in (KStr name) c with
  | Ok b => b
  | Raise _ => false
  end.

(** What [validate_topology] asks of a device configuration: [type] and
    [management] are both [in] it. *)
Definition device_accepted (device_config : pyval) : bool :=
  contains "type" device_config && contains "management" device_config.

(** What it asks of a connection: a mapping whose [endpoints] can be gone
    through and yields mappings that each name a declared device. *)
Definition connection_accepted (device_names : list pykey)
    (connection : pyval) : bool :=
  match field "endpoints" connection with
  | Some endpoints_value =>
      match py_iter endpoints_value with
      | Ok endpoints => forallb (endpoint_ok device_names) endpoints
      | Raise _ => false
      end
  | None => false
  end.

Definition accepted (topology : pyval) : bool :=
  has_key "name" topology &&
  match field "devices" topology, field "connections" topology with
  | Some (PDict devices), Some (PList connections) =>
      forallb (fun item => device_accepted (snd item)) devices &&
      forallb (connection_accepted (dict_keys devices)) connections
  | _, _ => false
  end.

(** The part of it the queries rely on. *)
Definition connections_accepted (topology : pyval) : bool :=
  match field "devices" topology with
  | Some (PDict devices) =>
      match field "connections" topology with
      | Some (PList connections) =>
          forallb (connection_accepted (dict_keys devices)) connections
      | Some _ => false
      | None => true
      end
  | _ => false
  end.

(** A document [validate_topology] accepts although a device configuration
    is a list and an [endpoints] value is the empty string. *)
Definition loose_lab : pyval :=
  obj [("name", PStr "lab");
       ("devices",
        obj [("A", PList [PStr "type"; PStr "management"]);
             ("B", device_spec)]);
       ("connections",
        PList [obj [("endpoints", PStr "")]; link ["A"; "B"]])].

(** ** Documents [load_topology] returns *)

(** The line that logs the number of devices goes through: the document is a
    mapping, and its [devices] value, when it has one, has a length. *)
Definition devices_counted (document : pyval) : bool :=
  match document with
  | PDict d =>
      match dict_lookup (KStr "devices") d with
      | Some devices =>
          match py_len devices with Ok _ => true | Raise _ => false end
      | None => true
      end
  | _ => false
  end.

(** ** Texts with and without braces *)

(** The character [c] occurs in [s]. *)
Fixpoint mentions (c : ascii) (s : string) : bool :=
  match s with
  | EmptyString => false
  | String c' rest => Ascii.eqb c' c || mentions c rest
  end.

(** A variable name as the check for unreplaced variables reads one: not
    empty, and with no brace in it. *)
Definition variable_name (name : string) : Prop :=
  name <> "" /\ mentions "{"%char name = false /\
  mentions "}"%char name = false.

(** The names [render_template] warned about. *)
Definition warned (warnings : list warning) (name : string) : Prop :=
  exists unreplaced,
    In (UnreplacedVariables unreplaced) warnings /\ In name unreplaced.

(** ** Paths *)

(** [s.endswith(suffix)]. *)
Fixpoint endswith (s suffix : string) : bool :=
  if String.eqb s suffix then true
  else match s with
       | EmptyString => false
       | String _ rest => endswith rest suffix
       end.

(** [os.path.join(a, b)]. *)
Definition path_join (a b : string) : string :=
  if String.prefix "/" b then b
  else if String.eqb a "" || endswith a "/" then a ++ b
  else a ++ "/" ++ b.

(** [os.path.basename(p)]. *)
Definition basename (p : string) : string :=
  match after_last "/"%char p with
  | Some tail => tail
  | None => p
  end.

(** [os.path.splitext(p)[0]]: [p] without its extension. *)
Definition splitext_root (p : string) : string :=
  substring 0 (String.length p - String.length (splitext_ext p)) p.

(** [p[:p.rfind('/') + 1]]. *)
Fixpoint upto_last_sep (p : string) : string :=
  match p with
  | EmptyString => EmptyString
  | String c rest =>
      if mentions "/"%char rest then String c (upto_last_sep rest)
      else if Ascii.eqb c "/"%char then String c EmptyString
      else EmptyString
  end.

(** [s.rstrip('/')]. *)
Fixpoint rstrip_sep (s : string) : string :=
  match s with
  | EmptyString => EmptyString
  | String c rest =>
      match rstrip_sep rest with
      | EmptyString => if Ascii.eqb c "/"%char then EmptyString
                       else String c EmptyString
      | stripped => String c stripped
      end
  end.

(** [head == '/' * len(head)]. *)
Fixpoint all_sep (head : string) : bool :=
  match head with
  | EmptyString => true
  | String c rest => Ascii.eqb c "/"%char && all_sep rest
  end.

(** [os.path.dirname(p)]. *)
Definition dirname (p : string) : string :=
  let head := upto_last_sep p in
  if negb (String.eqb head "") && negb (all_sep head) then rstrip_sep head
  else head.

(** ** The file system, and what the file operations raise *)

(** [NoSuchFile] is [FileNotFoundError]; [OtherOSError] stands for the other
    errors of the operating system (a directory in place of a file, a
    permission that is missing). *)
Inductive os_error : Type :=
| NoSuchFile (path : string)
| OtherOSError (description : string).

Inductive raised : Type :=
| Raised (e : exn)
| RaisedOS (e : os_error).

Inductive outcome (A : Type) : Type :=
| Returned (a : A)
| Failed (e : raised).

Arguments Returned {A} a.
Arguments Failed {A} e.

(** ** [ConfigManager.validate_config] *)

Definition common_errors : list string :=
  ["Invalid input detected"; "Incomplete command"; "Ambiguous command";
   "% Invalid"].

(** What [validate_config] hands to the logger as an error or a warning, and
    the warning of [generate_config_from_template] on a rejected
    configuration. *)
Inductive config_log : Type :=
| ValidationFailed (error : string)
| MissingIpAddress
| MayContainErrors.

(** The [for error in common_errors] loop: the first error, in the order of
    the list, that occurs in the configuration. *)
Fixpoint first_error (errors : list string) (config : string)
  : option string :=
  match errors with
  | [] => None
  | error :: rest =>
      if is_substring error config then Some error
      else first_error rest config
  end.

Definition validate_config (config device_type : string)
  : bool * list config_log :=
  match first_error common_errors config with
  | Some error => (false, [ValidationFailed error])
  | None =>
      (true,
       if String.eqb device_type "cisco_ios" &&
          (is_substring "interface" config &&
           negb (is_substring "ip address" config))
       then [MissingIpAddress] else [])
  end.

Section FileSystem.

(** The state of the file system, and the operations the managers call:
    [os.makedirs(d, exist_ok=True)], [open(p, 'w')] followed by the write of
    a text, [open(p, 'r')] followed by [read()], [os.path.isfile] and the
    text of a file that exists. An operation that changes the state returns
    the new state and the error it raised, if it raised one. *)
Variable fs : Type.
Variable makedirs : string -> fs -> fs * option os_error.
Variable open_w : string -> string -> fs -> fs * option os_error.
Variable open_r : fs -> string -> os_error + string.

(** ** [TopologyManager.export_topology] *)

(** [yaml.dump(v, default_flow_style=False)] and [json.dump(v, indent=2)],
    as the text they write. *)
Variable yaml_dump json_dump : pyval -> string.

Definition unsupported_export_format (format_type : string) : string :=
  "Unsupported format: " ++ format_type ++ ". Use 'yaml' or 'json'.".

Definition export_topology (topology : pyval)
    (output_file format_type : string) (files : fs) : fs * outcome unit :=
  if negb (truthy topology)
  then (files, Failed (Raised (ValueError no_topology_loaded)))
  else
    let output_dir := dirname output_file in
    let made :=
      match output_dir with
      | EmptyString => (files, None)
      | _ => makedirs output_dir files
      end in
    match made with
    | (files', Some e) => (files', Failed (RaisedOS e))
    | (files', None) =>
        let write text :=
          match open_w output_file text files' with
          | (files'', Some e) => (files'', Failed (RaisedOS e))
          | (files'', None) => (files'', Returned tt)
          end in
        if String.eqb (lower format_type) "yaml"
        then write (yaml_dump topology)
        else if String.eqb (lower format_type) "json"
        then write (json_dump topology)
        else (files',
              Failed (Raised
                        (ValueError (unsupported_export_format format_type))))
    end.

(** ** [ConfigManager.load_template], [save_config] and
    [generate_config_from_template] *)

(** [self.template_dir] and [os.getcwd()]. *)
Variable template_dir : string.
Variable cwd : string.

(** The name of the file a template name stands for. *)
Definition template_file_name (template_name : string) : string :=
  if existsb (endswith template_name) [".txt"; ".j2"; ".jinja2"]
  then template_name
  else template_name ++ ".txt".

Definition load_template (template_name : string) (files : fs)
  : outcome string :=
  let template_path :=
    path_join template_dir (template_file_name template_name) in
  match open_r files template_path with
  | inr content => Returned content
  | inl e => Failed (RaisedOS e)
  end.

(** The name of the file a configuration is saved to. *)
Definition config_file_name (filename : string) : string :=
  if endswith filename ".txt" then filename else filename ++ ".txt".

Definition save_config (config filename : string) (output_dir : option string)
    (files : fs) : fs * outcome string :=
  let output_dir :=
    match output_dir with None => cwd | Some d => d end in
  let file_path := path_join output_dir (config_file_name filename) in
  match makedirs output_dir files with
  | (files', Some e) => (files', Failed (RaisedOS e))
  | (files', None) =>
      match open_w file_path config files' with
      | (files'', Some e) => (files'', Failed (RaisedOS e))
      | (files'', None) => (files'', Returned file_path)
      end
  end.

Variable repr_compound : pyval -> string.

(** The file name [generate_config_from_template] saves to when it is given
    none. *)
Definition rendered_file_name (template_name : string) : string :=
  splitext_root (basename template_name) ++ "_rendered.txt".

(** [generate_config_from_template]: the new state of the file system, the
    outcome, and what the validation logged. *)
Definition generate_config_from_template (template_name : string)
    (variables : list (pykey * pyval)) (save_to_file : bool)
    (filename : option string) (files : fs)
  : fs * outcome string * list config_log :=
  match load_template template_name files with
  | Failed e => (files, Failed e, [])
  | Returned template_content =>
      match fst (render_template repr_compound template_content variables)
      with
      | Raise e => (files, Failed (Raised e), [])
      | Ok rendered_config =>
          let verdict := validate_config rendered_config "cisco_ios" in
          let logged :=
            (snd verdict ++ if fst verdict then [] else [MayContainErrors])%list
          in
          if save_to_file then
            let filename :=
              match filename with
              | None => rendered_file_name template_name
              | Some name => name
              end in
            match save_config rendered_config filename None files with
            | (files', Failed e) => (files', Failed e, logged)
            | (files', Returned _) => (files', Returned rendered_config,
                                       logged)
            end
          else (files, Returned rendered_config, logged)
      end
  end.

End FileSystem.

Arguments export_topology {fs} makedirs open_w yaml_dump json_dump
  topology output_file format_type files.
Arguments load_template {fs} open_r template_dir template_name files.
Arguments save_config {fs} makedirs open_w cwd config filename output_dir
  files.
Arguments generate_config_from_template {fs} makedirs open_w open_r
  template_dir cwd repr_compound template_name variables save_to_file
  filename files.

(** A file system that holds texts by path and refuses nothing. *)
Definition texts : Type := list (string * string).

Fixpoint text_at (files : texts) (path : string) : option string :=
  match files with
  | [] => None
  | (p, text) :: rest =>
      if String.eqb p path then Some text else text_at rest path
  end.

Definition texts_makedirs (d : string) (files : texts)
  : texts * option os_error := (files, None).

Definition texts_open_w (path text : string) (files : texts)
  : texts * option os_error := ((path, text) :: files, None).

Definition texts_open_r (files : texts) (path : string) : os_error + string :=
  match text_at files path with
  | Some text => inr text
  | None => inl (NoSuchFile path)
  end.

Definition texts_isfile (files : texts) (path : string) : bool :=
  match text_at files path with Some _ => true | None => false end.

Definition texts_read (files : texts) (path : string) : string :=
  match text_at files path with Some text => text | None => "" end.
(** ** Facts on strings *)

Lemma string_app_assoc (a b c : string) : (a ++ b) ++ c = a ++ b ++ c.
Proof. induction a as [|x a IH]; simpl; [reflexivity | rewrite IH; reflexivity]. Qed.

Lemma prefix_refl (s : string) : String.prefix s s = true.
Proof.
  induction s as [|x s IH]; simpl; [reflexivity|].
  destruct (ascii_dec x x); congruence.
Qed.

Lemma is_substring_cons (name : string) (c : ascii) (hay : string) :
  is_substring name (String c hay)
  = if String.prefix name (String c hay) then true else is_substring name hay.
Proof. reflexivity. Qed.

Lemma is_substring_prefix (name hay : string) :
  String.prefix name hay = true -> is_substring name hay = true.
Proof.
  intros H. destruct hay as [|c hay].
  - destruct name; [reflexivity | discriminate H].
  - rewrite is_substring_cons, H. reflexivity.
Qed.

Lemma is_substring_suffix (before name : string) :
  is_substring name (before ++ name) = true.
Proof.
  induction before as [|c before IH].
  - apply is_substring_prefix, prefix_refl.
  - cbn [append]. rewrite is_substring_cons, IH.
    destruct (String.prefix name (String c (before ++ name))); reflexivity.
Qed.

Lemma string_app_nil (s : string) : s ++ "" = s.
Proof. induction s as [|c s IH]; simpl; [reflexivity | rewrite IH; reflexivity]. Qed.

Lemma string_length_app (a b : string) :
  String.length (a ++ b) = String.length a + String.length b.
Proof. induction a as [|c a IH]; simpl; [reflexivity | rewrite IH; reflexivity]. Qed.

Lemma string_length_zero (s : string) : String.length s = 0 -> s = "".
Proof. destruct s; simpl; [reflexivity | discriminate]. Qed.

Lemma prefix_app (old s : string) :
  String.prefix old s = true <-> exists after, s = old ++ after.
Proof.
  revert s. induction old as [|c old IH]; intros s; simpl.
  - split; [intros _; exists s; reflexivity | destruct s; reflexivity].
  - destruct s as [|c' s]; simpl.
    + split; [discriminate | intros [after H]; discriminate].
    + destruct (ascii_dec c c') as [->|Hne].
      * rewrite IH. split; intros [after H]; exists after; congruence.
      * split; [discriminate | intros [after H]; congruence].
Qed.

Lemma is_substring_occurs (name hay : string) :
  occurs name hay -> is_substring name hay = true.
Proof.
  intros (before & after & ->).
  induction before as [|c before IH].
  - apply is_substring_prefix. apply prefix_app. exists after. reflexivity.
  - cbn [append]. rewrite is_substring_cons, IH.
    destruct (String.prefix name (String c (before ++ name ++ after)));
      reflexivity.
Qed.

Lemma occurs_app_r (name before hay : string) :
  occurs name hay -> occurs name (before ++ hay).
Proof.
  intros (b & a & ->). exists (before ++ b), a.
  rewrite string_app_assoc. reflexivity.
Qed.

Lemma occurs_app_l (name hay after : string) :
  occurs name hay -> occurs name (hay ++ after).
Proof.
  intros (b & a & ->). exists b, (a ++ after).
  rewrite !string_app_assoc. reflexivity.
Qed.

Lemma occurs_repr_items (key : string) (l : list string) :
  In key l -> occurs key (repr_items l).
Proof.
  induction l as [|s l IH]; intros H; [contradiction|].
  assert (Hs : forall rest, occurs s ("'" ++ s ++ rest)).
  { intros rest. exists "'", rest. reflexivity. }
  destruct H as [->|H].
  - destruct l; apply Hs.
  - destruct l as [|s' l]; [contradiction|].
    change (repr_items (s :: s' :: l))
      with ("'" ++ s ++ "', " ++ repr_items (s' :: l)).
    apply (occurs_app_r key "'"), (occurs_app_r key s),
      (occurs_app_r key "', ").
    apply IH. assumption.
Qed.

(** ** Facts on the built-in operators *)

Lemma key_eqb_refl (k : pykey) : key_eqb k k = true.
Proof. unfold key_eqb. destruct (pykey_eq_dec (norm k) (norm k)); congruence. Qed.

Lemma key_eqb_true (a b : pykey) : key_eqb a b = true <-> norm a = norm b.
Proof.
  unfold key_eqb. destruct (pykey_eq_dec (norm a) (norm b)); split;
    congruence.
Qed.

Lemma key_eqb_sym (a b : pykey) : key_eqb a b = key_eqb b a.
Proof.
  unfold key_eqb.
  destruct (pykey_eq_dec (norm a) (norm b)), (pykey_eq_dec (norm b) (norm a));
    congruence.
Qed.

Lemma key_mem_true (k : pykey) (ks : list pykey) :
  key_mem k ks = true <-> In (norm k) (map norm ks).
Proof.
  unfold key_mem. rewrite existsb_exists, in_map_iff. split.
  - intros (x & Hin & Heq). apply key_eqb_true in Heq. eauto.
  - intros (x & Heq & Hin). exists x. split; [assumption|].
    apply key_eqb_true. congruence.
Qed.

Lemma dict_lookup_mem (k : pykey) (d : list (pykey * pyval)) :
  key_mem k (dict_keys d) = true <-> exists v, dict_lookup k d = Some v.
Proof.
  induction d as [|[k' v'] d IH]; simpl.
  - split; [discriminate | intros [v H]; discriminate].
  - destruct (key_eqb k k'); simpl.
    + split; eauto.
    + exact IH.
Qed.

Lemma field_has_key (k : string) (v w : pyval) :
  field k v = Some w -> has_key k v = true.
Proof.
  destruct v; simpl; try discriminate.
  intros H. apply dict_lookup_mem. eauto.
Qed.

Lemma field_dict (k : string) (v w : pyval) :
  field k v = Some w -> exists d, v = PDict d /\ dict_lookup (KStr k) d = Some w.
Proof. destruct v; simpl; try discriminate. eauto. Qed.

Lemma has_key_dict (k : string) (v : pyval) :
  has_key k v = true ->
  exists d, v = PDict d /\ key_mem (KStr k) (dict_keys d) = true.
Proof. destruct v; simpl; try discriminate. eauto. Qed.

Lemma for_each_ok {A : Type} (body : A -> result unit) (xs : list A) :
  (forall x, In x xs -> body x = Ok tt) -> for_each body xs = Ok tt.
Proof.
  induction xs as [|x xs IH]; intros H; simpl; [reflexivity|].
  rewrite (H x (or_introl eq_refl)). simpl. apply IH.
  intros y Hy. apply H. right. assumption.
Qed.

Lemma in_enumerate_from {A : Type} (xs : list A) (i j : nat) (x : A) :
  In (j, x) (enumerate_from i xs) -> In x xs.
Proof.
  revert i. induction xs as [|y xs IH]; simpl; intros i; [tauto|].
  intros [H|H]; [left; congruence | right; eauto].
Qed.

(** ** Valid documents are accepted *)

Lemma check_device_ok (item : pykey * pyval) :
  device_spec_ok (snd item) = true -> check_device item = Ok tt.
Proof.
  destruct item as [n cfg]. unfold device_spec_ok. simpl.
  intros H. apply andb_prop in H. destruct H as [Ht Hm].
  apply has_key_dict in Ht. destruct Ht as (d & -> & Ht).
  simpl in Hm. simpl. rewrite Ht, Hm. reflexivity.
Qed.

Lemma check_endpoint_ok (names : list pykey) (i : nat) (e : pyval) :
  endpoint_ok names e = true -> check_endpoint names i e = Ok tt.
Proof.
  unfold endpoint_ok, check_endpoint. intros H.
  destruct (field "device" e) as [v|] eqn:Hf; [|discriminate].
  pose proof (field_has_key _ _ _ Hf) as Hk.
  apply field_dict in Hf. destruct Hf as (d & -> & Hl).
  simpl in Hk. simpl. rewrite Hk, Hl. simpl.
  destruct (to_key v) as [k|]; [|discriminate].
  rewrite H. reflexivity.
Qed.

Lemma check_connection_ok (names : list pykey) (i : nat) (c : pyval) :
  connection_ok names c = true -> check_connection names (i, c) = Ok tt.
Proof.
  unfold connection_ok, check_connection. intros H.
  destruct (field "endpoints" c) as [v|] eqn:Hf; [|discriminate].
  pose proof (field_has_key _ _ _ Hf) as Hk.
  apply field_dict in Hf. destruct Hf as (d & -> & Hl).
  simpl in Hk. simpl. rewrite Hk, Hl. simpl.
  destruct v as [| | | |es|]; try discriminate. simpl.
  apply for_each_ok. intros e He. apply check_endpoint_ok.
  rewrite forallb_forall in H. auto.
Qed.

(** C2. Every loaded topology that satisfies the structural invariants of the
    data model (the three top-level keys present, [devices] a mapping of
    objects that carry [type] and [management], [connections] a sequence of
    objects each with an [endpoints] sequence, every endpoint's [device] a key
    of [devices]) is accepted: [validate_topology] returns [True] and raises
    nothing. *)
Theorem validate_accepts_valid (topology : pyval) :
  satisfies_invariants topology = true ->
  validate_topology topology = Ok true.
Proof.
  unfold satisfies_invariants. intros H.
  apply andb_prop in H. destruct H as [Hname H].
  destruct (field "devices" topology) as [dv|] eqn:Hdev; [|discriminate].
  destruct dv as [| | | | |devices]; try discriminate.
  destruct (field "connections" topology) as [cv|] eqn:Hconn; [|discriminate].
  destruct cv as [| | | |connections|]; try discriminate.
  apply andb_prop in H. destruct H as [Hds Hcs].
  pose proof (field_has_key _ _ _ Hdev) as Hkd.
  pose proof (field_has_key _ _ _ Hconn) as Hkc.
  apply field_dict in Hdev. destruct Hdev as (d & -> & Hld).
  simpl in Hname, Hkd, Hkc, Hconn.
  unfold validate_topology.
  assert (Htruthy : truthy (PDict d) = true).
  { destruct d; [discriminate | reflexivity]. }
  rewrite Htruthy. simpl.
  unfold validate_checks. simpl.
  rewrite Hname, Hkd, Hkc. simpl. rewrite Hld. simpl.
  rewrite for_each_ok.
  2:{ intros x Hx. apply check_device_ok.
      rewrite forallb_forall in Hds. auto. }
  simpl. rewrite Hconn. simpl.
  rewrite for_each_ok; [reflexivity|].
  intros [i c] Hx. apply check_connection_ok.
  rewrite forallb_forall in Hcs. apply Hcs.
  unfold enumerate in Hx. eapply in_enumerate_from; eauto.
Qed.

Lemma validate_accepts_valid_witness :
  satisfies_invariants chain_abc = true /\
  validate_topology chain_abc = Ok true.
Proof.
  split; [reflexivity | apply validate_accepts_valid; reflexivity].
Defined.

(** ** Undeclared endpoints are rejected *)

Lemma for_each_ok_inv {A : Type} (body : A -> result unit) (xs : list A) :
  for_each body xs = Ok tt -> forall x, In x xs -> body x = Ok tt.
Proof.
  induction xs as [|y xs IH]; simpl; intros H x Hx; [contradiction|].
  destruct (body y) as [[]|e] eqn:Hy; simpl in H; [|discriminate].
  destruct Hx as [<-|Hx]; auto.
Qed.

Lemma in_enumerate_from_exists {A : Type} (xs : list A) (i : nat) (x : A) :
  In x xs -> exists j, In (j, x) (enumerate_from i xs).
Proof.
  revert i. induction xs as [|y xs IH]; simpl; intros i; [tauto|].
  intros [->|H].
  - exists i. auto.
  - destruct (IH (S i) H) as [j Hj]. exists j. auto.
Qed.

Lemma enumerate_from_app {A : Type} (xs ys : list A) (i : nat) :
  enumerate_from i (xs ++ ys)
  = (enumerate_from i xs ++ enumerate_from (i + List.length xs) ys)%list.
Proof.
  revert i. induction xs as [|x xs IH]; simpl; intros i.
  - rewrite Nat.add_0_r. reflexivity.
  - rewrite IH, Nat.add_succ_r. reflexivity.
Qed.

Lemma for_each_app {A : Type} (body : A -> result unit) (xs ys : list A) :
  for_each body xs = Ok tt ->
  for_each body (xs ++ ys) = for_each body ys.
Proof.
  induction xs as [|x xs IH]; simpl; intros H; [reflexivity|].
  destruct (body x) as [[]|e]; simpl in *; [auto | discriminate].
Qed.

Lemma bind_ok {A B : Type} (r : result A) (f : A -> result B) (b : B) :
  bind r f = Ok b -> exists a, r = Ok a /\ f a = Ok b.
Proof. destruct r; simpl; [eauto | discriminate]. Qed.

Lemma check_endpoint_ok_inv (names : list pykey) (i : nat) (e v : pyval) :
  check_endpoint names i e = Ok tt ->
  field "device" e = Some v ->
  exists k, to_key v = Some k /\ key_mem k names = true.
Proof.
  intros H Hf. apply field_dict in Hf. destruct Hf as (d & -> & Hl).
  unfold check_endpoint in H. simpl in H. rewrite Hl in H.
  destruct (key_mem (KStr "device") (dict_keys d)); simpl in H;
    [|discriminate].
  destruct (to_key v) as [k|]; [|discriminate].
  exists k. split; [reflexivity|].
  destruct (key_mem k names); [reflexivity | discriminate].
Qed.

Lemma check_connection_ok_inv (names : list pykey) (i : nat) (c : pyval)
    (es : list pyval) :
  check_connection names (i, c) = Ok tt ->
  field "endpoints" c = Some (PList es) ->
  for_each (check_endpoint names i) es = Ok tt.
Proof.
  intros H Hf. apply field_dict in Hf. destruct Hf as (d & -> & Hl).
  unfold check_connection in H. simpl in H. rewrite Hl in H.
  destruct (key_mem (KStr "endpoints") (dict_keys d)); simpl in H;
    [assumption | discriminate].
Qed.

(** What an accepted document guarantees of its endpoints. *)
Lemma validate_checks_sound (topology : pyval) (b : bool) :
  validate_checks topology = Ok b ->
  has_undeclared_endpoint topology -> False.
Proof.
  intros H (v & devices & conns & c & es & e &
            Hdev & Hconn & Hc & Hes & He & Hv & Hnot).
  apply field_dict in Hdev. destruct Hdev as (d & -> & Hld).
  simpl in Hconn.
  unfold validate_checks in H.
  apply bind_ok in H. destruct H as (missing & _ & H).
  destruct missing; [|discriminate].
  simpl in H. rewrite Hld, Hconn in H. simpl in H.
  apply bind_ok in H. destruct H as ([] & _ & H).
  apply bind_ok in H. destruct H as ([] & Hloop & _).
  destruct (in_enumerate_from_exists conns 0 c Hc) as [i Hi].
  pose proof (for_each_ok_inv _ _ Hloop _ Hi) as Hcc.
  pose proof (check_connection_ok_inv _ _ _ _ Hcc Hes) as Hloop'.
  pose proof (for_each_ok_inv _ _ Hloop' _ He) as Hce.
  destruct (check_endpoint_ok_inv _ _ _ _ Hce Hv) as (k & Hk & Hmem).
  unfold not_a_key in Hnot. rewrite Hk in Hnot. congruence.
Qed.

Lemma undeclared_is_rejected (topology : pyval) :
  has_undeclared_endpoint topology ->
  exists m, validate_topology topology = Raise (TopologyValidationError m).
Proof.
  intros Hu. unfold validate_topology.
  assert (Ht : truthy topology = true).
  { destruct Hu as (v & devices & ? & ? & ? & ? & Hdev & _).
    apply field_dict in Hdev. destruct Hdev as (d & -> & Hld).
    destruct d; [discriminate | reflexivity]. }
  rewrite Ht. simpl.
  destruct (validate_checks topology) as [b|e] eqn:Hc.
  - exfalso. eapply validate_checks_sound; eauto.
  - destruct e; eauto.
Qed.

Lemma validate_names_first_undeclared (topology : pyval) (i : nat)
    (k : pykey) :
  first_violation_is_endpoint topology i k ->
  validate_topology topology
  = Raise (TopologyValidationError (NonExistentDevice i k)).
Proof.
  intros (devices & cs1 & c & cs2 & es1 & e & es2 & v &
          Hname & Hdev & Hds & Hconn & Hcs1 & -> & Hes & Hes1 & Hv & Hk & Hmem).
  pose proof (field_has_key _ _ _ Hdev) as Hkd.
  pose proof (field_has_key _ _ _ Hconn) as Hkc.
  apply field_dict in Hdev. destruct Hdev as (d & -> & Hld).
  simpl in Hname, Hkd, Hkc, Hconn.
  unfold validate_topology.
  assert (truthy (PDict d) = true) as -> by (destruct d; [discriminate | reflexivity]).
  simpl. unfold validate_checks. simpl.
  rewrite Hname, Hkd, Hkc. simpl. rewrite Hld. simpl.
  rewrite for_each_ok.
  2:{ intros x Hx. apply check_device_ok.
      rewrite forallb_forall in Hds. auto. }
  simpl. rewrite Hconn. simpl.
  unfold enumerate. rewrite enumerate_from_app, for_each_app.
  2:{ apply for_each_ok. intros [j x] Hx. apply check_connection_ok.
      rewrite forallb_forall in Hcs1. apply Hcs1.
      eapply in_enumerate_from; eauto. }
  simpl.
  pose proof (field_has_key _ _ _ Hes) as Hke.
  apply field_dict in Hes. destruct Hes as (dc & -> & Hle).
  simpl in Hke. simpl. rewrite Hke, Hle. simpl.
  rewrite for_each_app.
  2:{ apply for_each_ok. intros x Hx. apply check_endpoint_ok.
      rewrite forallb_forall in Hes1. auto. }
  simpl.
  pose proof (field_has_key _ _ _ Hv) as Hkv.
  apply field_dict in Hv. destruct Hv as (de & -> & Hlv).
  simpl in Hkv. unfold check_endpoint. simpl. rewrite Hkv, Hlv. simpl.
  rewrite Hk, Hmem. reflexivity.
Qed.

Lemma dangling_unnamed_undeclared :
  undeclared_endpoint dangling_unnamed (PStr "Z").
Proof.
  exists [(KStr "A", device_spec); (KStr "D", device_spec)],
    [link ["A"; "Z"]], (link ["A"; "Z"]), (map endpoint ["A"; "Z"]),
    (endpoint "Z").
  repeat split; simpl; auto.
Qed.

Lemma dangling_undeclared : undeclared_endpoint dangling (PStr "Z").
Proof.
  exists [(KStr "A", device_spec); (KStr "D", device_spec)],
    [link ["A"; "Z"]], (link ["A"; "Z"]), (map endpoint ["A"; "Z"]),
    (endpoint "Z").
  repeat split; simpl; auto.
Qed.

Lemma dangling_first_violation :
  first_violation_is_endpoint dangling 0 (KStr "Z").
Proof.
  exists [(KStr "A", device_spec); (KStr "D", device_spec)],
    [], (link ["A"; "Z"]), [], [endpoint "A"], (endpoint "Z"), [],
    (PStr "Z").
  repeat split.
Qed.

(** C4, as stated, fails: [validate_topology] reports the first violation it
    meets. In [dangling_unnamed] an endpoint names the undeclared Z, and the
    error is the one of the missing key [name]; its message does not name
    Z. *)
Lemma validate_names_other_violation :
  ~ (forall topology v k,
       undeclared_endpoint topology v ->
       to_key v = Some k ->
       exists m,
         validate_topology topology = Raise (TopologyValidationError m) /\
         message_names m (py_str k) = true).
Proof.
  intros H.
  destruct (H dangling_unnamed (PStr "Z") (KStr "Z")
              dangling_unnamed_undeclared eq_refl) as (m & Hv & Hn).
  assert (Hm : m = MissingKeys ["name"]).
  { vm_compute in Hv. congruence. }
  subst m. vm_compute in Hn. discriminate.
Qed.

(** C4, amended. A loaded topology in which some connection endpoint names a
    device that is not a key of [devices] is always rejected with a
    [TopologyValidationError]; the error reports the first violation met, and
    so names that device, with the number of its connection, whenever the
    endpoint is the first violation of the document. *)
Theorem validate_rejects_undeclared_endpoint (topology : pyval) :
  (has_undeclared_endpoint topology ->
   exists m, validate_topology topology = Raise (TopologyValidationError m)) /\
  (forall i k,
     first_violation_is_endpoint topology i k ->
     validate_topology topology
       = Raise (TopologyValidationError (NonExistentDevice i k)) /\
     message_names (NonExistentDevice i k) (py_str k) = true).
Proof.
  split.
  - apply undeclared_is_rejected.
  - intros i k H. split.
    + apply validate_names_first_undeclared. assumption.
    + unfold message_names, message_text.
      rewrite <- !string_app_assoc. apply is_substring_suffix.
Qed.

Lemma validate_rejects_undeclared_endpoint_witness :
  (exists m, validate_topology dangling = Raise (TopologyValidationError m)) /\
  validate_topology dangling
    = Raise (TopologyValidationError (NonExistentDevice 0 (KStr "Z"))) /\
  message_names (NonExistentDevice 0 (KStr "Z")) "Z" = true.
Proof.
  destruct (validate_rejects_undeclared_endpoint dangling) as [H1 H2].
  split.
  - apply H1. exists (PStr "Z"). apply dangling_undeclared.
  - apply (H2 0 (KStr "Z")). apply dangling_first_violation.
Defined.

(** ** Equality of keys *)

Lemma key_eqb_trans (a b c : pykey) :
  key_eqb a b = true -> key_eqb b c = key_eqb a c.
Proof.
  intros H. apply key_eqb_true in H. unfold key_eqb. rewrite H. reflexivity.
Qed.

Lemma key_mem_eqb (a b : pykey) (ks : list pykey) :
  key_eqb a b = true -> key_mem a ks = key_mem b ks.
Proof.
  intros H. apply key_eqb_true in H. unfold key_mem, key_eqb.
  rewrite H. reflexivity.
Qed.

Lemma key_mem_app (k : pykey) (xs ys : list pykey) :
  key_mem k (xs ++ ys) = key_mem k xs || key_mem k ys.
Proof. unfold key_mem. apply existsb_app. Qed.

Lemma key_mem_set_add (k k' : pykey) (s : list pykey) :
  key_mem k (set_add k' s) = key_mem k s || key_eqb k k'.
Proof.
  unfold set_add. destruct (key_mem k' s) eqn:Hm.
  - destruct (key_eqb k k') eqn:He.
    + rewrite (key_mem_eqb _ _ _ He), Hm. reflexivity.
    + rewrite orb_false_r. reflexivity.
  - rewrite key_mem_app. simpl. rewrite orb_false_r. reflexivity.
Qed.

Lemma key_mem_false_norm (k : pykey) (ks : list pykey) :
  key_mem k ks = false <-> ~ In (norm k) (map norm ks).
Proof.
  rewrite <- key_mem_true. destruct (key_mem k ks); split; intros H;
    congruence || (exfalso; auto).
Qed.

Lemma set_add_nodup (k : pykey) (s : list pykey) :
  NoDup (map norm s) -> NoDup (map norm (set_add k s)).
Proof.
  intros H. unfold set_add. destruct (key_mem k s) eqn:Hm; [assumption|].
  rewrite map_app. simpl. apply key_mem_false_norm in Hm.
  apply NoDup_app; [assumption | repeat constructor; simpl; tauto |].
  intros x Hx [<-|[]]. auto.
Qed.

Lemma set_add_fresh (k : pykey) (s : list pykey) :
  key_mem k s = false -> set_add k s = (s ++ [k])%list.
Proof. intros H. unfold set_add. rewrite H. reflexivity. Qed.

(** ** The declared devices *)

Lemma declared_inv (topology : pyval) (x : pykey) :
  declared topology x = true ->
  exists d devices,
    topology = PDict d /\
    dict_lookup (KStr "devices") d = Some (PDict devices) /\
    key_mem x (dict_keys devices) = true.
Proof.
  unfold declared. intros H.
  destruct (field "devices" topology) as [v|] eqn:Hf; [|discriminate].
  destruct v; try discriminate.
  apply field_dict in Hf. destruct Hf as (d0 & -> & Hl). eauto.
Qed.

Lemma lookup_truthy (k : pykey) (d : list (pykey * pyval)) (v : pyval) :
  dict_lookup k d = Some v -> truthy (PDict d) = true.
Proof. destruct d; [discriminate | reflexivity]. Qed.

Section Search.

Variable set_order : list pykey -> list pykey.

(** ** A device reaches itself *)

(** C5. For every device X declared in the loaded topology,
    [verify_connectivity_path(X, X)] returns [(True, [X])], whatever the
    connections are: the answer is there before the queue is popped once
    (with no fuel at all), so no connection is looked at. *)
Theorem path_to_self (topology : pyval) (x : pykey) :
  declared topology x = true ->
  verify_connectivity_path set_order topology x x = Some (Ok (true, [x])) /\
  verify_connectivity_path_fuel set_order 0 topology x x
    = Some (Ok (true, [x])).
Proof.
  intros H. apply declared_inv in H.
  destruct H as (d & devices & -> & Hl & Hm).
  assert (Hfuel : forall fuel,
    verify_connectivity_path_fuel set_order fuel (PDict d) x x
    = Some (Ok (true, [x]))).
  { intros fuel. unfold verify_connectivity_path_fuel.
    rewrite (lookup_truthy _ _ _ Hl). simpl. rewrite Hl, Hm. simpl.
    rewrite key_eqb_refl. reflexivity. }
  split; [apply Hfuel | apply Hfuel].
Qed.

(** ** The search ends *)

(** What one pass over the neighbours keeps true of the visited set. *)
Lemma scan_continue (P : pykey -> Prop) (target : pykey) (path : list pykey)
    (nbrs : list pykey) (base : list pykey) :
  forall (queue : bfs_queue) (visited : list pykey) queue' visited',
  scan_neighbours target path nbrs queue visited = Continue queue' visited' ->
  visited = (base ++ map fst queue)%list ->
  NoDup (map norm visited) ->
  (forall k, In k visited -> P k) ->
  (forall k, In k nbrs -> key_eqb k target = false -> P k) ->
  visited' = (base ++ map fst queue')%list /\
  NoDup (map norm visited') /\
  (forall k, In k visited' -> P k).
Proof.
  induction nbrs as [|n nbrs IH]; simpl; intros queue visited queue' visited'
    Hscan Hv Hnd HP Hn.
  - inversion Hscan; subst. auto.
  - destruct (key_eqb n target) eqn:Ht; [discriminate|].
    destruct (key_mem n visited) eqn:Hm; simpl in Hscan.
    + eapply IH; eauto.
    + eapply IH; eauto.
      * rewrite (set_add_fresh _ _ Hm), Hv, map_app, app_assoc. reflexivity.
      * apply set_add_nodup. assumption.
      * intros k. rewrite (set_add_fresh _ _ Hm), in_app_iff.
        intros [Hk|[<-|[]]]; auto.
Qed.

Lemma get_connected_devices_declared (topology : pyval)
    (devices : list (pykey * pyval)) (x : pykey) (nbrs : list pykey) :
  field "devices" topology = Some (PDict devices) ->
  get_connected_devices set_order topology x = Ok nbrs ->
  key_mem x (dict_keys devices) = true.
Proof.
  intros Hf H. apply field_dict in Hf. destruct Hf as (d & -> & Hl).
  unfold get_connected_devices in H.
  apply bind_ok in H. destruct H as (conns & H & _).
  unfold get_device_connections in H.
  rewrite (lookup_truthy _ _ _ Hl) in H. simpl in H. rewrite Hl in H.
  simpl in H. destruct (key_mem x (dict_keys devices)); [reflexivity|].
  discriminate.
Qed.

(** The devices popped so far are distinct declared devices other than the
    target, which is declared too: there are fewer of them than devices. *)
Lemma popped_bound (names popped : list pykey) (target : pykey) :
  NoDup (map norm popped) ->
  (forall k, In k popped ->
             key_mem k names = true /\ key_eqb k target = false) ->
  key_mem target names = true ->
  List.length popped < List.length names.
Proof.
  intros Hnd Hp Ht.
  assert (Hnd' : NoDup (norm target :: map norm popped)).
  { constructor; [|assumption]. rewrite in_map_iff.
    intros (k & Hk & Hin). destruct (Hp k Hin) as [_ He].
    apply key_eqb_true in Hk. congruence. }
  assert (Hincl : incl (norm target :: map norm popped) (map norm names)).
  { intros y [<-|Hy].
    - apply key_mem_true. assumption.
    - apply in_map_iff in Hy. destruct Hy as (k & <- & Hin).
      apply key_mem_true. apply Hp. assumption. }
  pose proof (NoDup_incl_length Hnd' Hincl) as Hlen.
  simpl in Hlen. rewrite !length_map in Hlen. lia.
Qed.

Lemma bfs_loop_terminates (topology : pyval)
    (devices : list (pykey * pyval)) (target : pykey) :
  field "devices" topology = Some (PDict devices) ->
  key_mem target (dict_keys devices) = true ->
  forall fuel popped queue visited,
    visited = (popped ++ map fst queue)%list ->
    NoDup (map norm visited) ->
    (forall k, In k visited -> key_eqb k target = false) ->
    (forall k, In k popped -> key_mem k (dict_keys devices) = true) ->
    List.length devices <= List.length popped + fuel ->
    exists r, bfs_loop set_order fuel topology target queue visited = Some r.
Proof.
  intros Hf Ht. induction fuel as [|fuel IH];
    intros popped queue visited Hv Hnd Hnt Hdecl Hlen.
  - destruct queue as [|[x path] queue]; simpl; [eauto|].
    exfalso.
    assert (Hb : List.length popped < List.length (dict_keys devices)).
    { apply popped_bound with (target := target); auto.
      - rewrite Hv, map_app in Hnd. apply NoDup_app_remove_r in Hnd.
        assumption.
      - intros k Hk. split; [auto|]. apply Hnt. rewrite Hv.
        apply in_app_iff. auto. }
    unfold dict_keys in Hb. rewrite length_map in Hb. lia.
  - destruct queue as [|[x path] queue]; simpl; [eauto|].
    destruct (get_connected_devices set_order topology x) as [nbrs|e] eqn:Hg;
      [|eauto].
    destruct (scan_neighbours target path nbrs queue visited)
      as [full|queue' visited'] eqn:Hscan; [eauto|].
    pose proof (get_connected_devices_declared _ _ _ _ Hf Hg) as Hx.
    destruct (scan_continue (fun k => key_eqb k target = false)
                target path nbrs (popped ++ [x])%list
                queue visited queue' visited' Hscan) as (Hv' & Hnd' & Hnt').
    + rewrite Hv. simpl. rewrite <- app_assoc. reflexivity.
    + assumption.
    + assumption.
    + auto.
    + apply (IH (popped ++ [x])%list); auto.
      * intros k Hk. apply in_app_iff in Hk. destruct Hk as [Hk|[<-|[]]]; auto.
      * rewrite length_app. simpl. lia.
Qed.

(** More fuel does not change an answer. *)
Lemma bfs_loop_more_fuel (topology : pyval) (target : pykey)
    (r : result (bool * list pykey)) :
  forall fuel extra queue visited,
    bfs_loop set_order fuel topology target queue visited = Some r ->
    bfs_loop set_order (fuel + extra) topology target queue visited = Some r.
Proof.
  induction fuel as [|fuel IH]; intros extra queue visited H.
  - destruct queue as [|[x path] queue]; simpl in H; [|discriminate].
    destruct (0 + extra); simpl; assumption.
  - destruct queue as [|[x path] queue]; simpl in *; [assumption|].
    destruct (get_connected_devices set_order topology x); [|assumption].
    destruct (scan_neighbours target path a queue visited); [assumption|].
    apply IH. assumption.
Qed.

(** The search returns within [device_count] pops of the queue. *)
Lemma search_returns (topology : pyval) (source target : pykey) :
  exists r,
    verify_connectivity_path set_order topology source target = Some r.
Proof.
  unfold verify_connectivity_path, verify_connectivity_path_fuel,
    device_count.
  destruct (truthy topology); simpl; [|eauto].
  destruct topology as [| | | | |d]; simpl; eauto.
  destruct (dict_lookup (KStr "devices") d) as [v|] eqn:Hl; simpl.
  2:{ eauto. }
  destruct v as [| | | | |devices]; eauto.
  destruct (key_mem source (dict_keys devices)) eqn:Hs; simpl; [|eauto].
  destruct (key_mem target (dict_keys devices)) eqn:Ht; simpl; [|eauto].
  destruct (key_eqb source target) eqn:Hst; [eauto|].
  apply bfs_loop_terminates with (devices := devices) (popped := []);
    simpl; auto.
  - repeat constructor. simpl. tauto.
  - intros k [<-|[]]. assumption.
Qed.

(** C10. [verify_connectivity_path] terminates on every loaded topology,
    cycles and self-loops included: a device enters the visited set when it
    enters the queue and never enters twice, so the queue is empty, or the
    call has returned, after at most as many pops as [devices] has entries;
    any larger bound on the pops gives the same outcome. *)
Theorem verify_connectivity_path_terminates (topology : pyval)
    (source target : pykey) :
  exists r,
    verify_connectivity_path set_order topology source target = Some r /\
    forall extra,
      verify_connectivity_path_fuel set_order (device_count topology + extra)
        topology source target = Some r.
Proof.
  destruct (search_returns topology source target) as [r Hr].
  exists r. split; [exact Hr|].
  intros extra. revert Hr.
  unfold verify_connectivity_path, verify_connectivity_path_fuel.
  destruct (truthy topology); simpl; [|auto].
  destruct (py_get topology "devices" (PDict [])) as [v|e]; [|auto].
  destruct v as [| | | | |devices]; auto.
  destruct (negb (key_mem source (dict_keys devices))); [auto|].
  destruct (negb (key_mem target (dict_keys devices))); [auto|].
  destruct (key_eqb source target); [auto|].
  apply bfs_loop_more_fuel.
Qed.

End Search.

(** ** The neighbours of a device *)

Lemma to_key_of_key (v : pyval) (k : pykey) : to_key v = Some k -> v = of_key k.
Proof. destruct v; simpl; intros H; inversion H; reflexivity. Qed.

Lemma endpoint_ok_inv (names : list pykey) (e : pyval) :
  endpoint_ok names e = true ->
  exists d k,
    e = PDict d /\ dict_lookup (KStr "device") d = Some (of_key k) /\
    endpoint_device e = [k] /\ key_mem k names = true.
Proof.
  unfold endpoint_ok, endpoint_device. intros H.
  destruct (field "device" e) as [v|] eqn:Hf; [|discriminate].
  destruct (to_key v) as [k|] eqn:Hk; [|discriminate].
  apply to_key_of_key in Hk. subst v.
  apply field_dict in Hf. destruct Hf as (d & -> & Hl). eauto 6.
Qed.

Lemma connection_ok_inv (names : list pykey) (c : pyval) :
  connection_ok names c = true ->
  exists d es,
    c = PDict d /\ dict_lookup (KStr "endpoints") d = Some (PList es) /\
    endpoint_devices c = flat_map endpoint_device es /\
    forallb (endpoint_ok names) es = true.
Proof.
  unfold connection_ok, endpoint_devices. intros H.
  destruct (field "endpoints" c) as [v|] eqn:Hf; [|discriminate].
  destruct v as [| | | |es|]; try discriminate.
  apply field_dict in Hf. destruct Hf as (d & -> & Hl). eauto 6.
Qed.

Lemma endpoint_shaped_inv (e : pyval) :
  endpoint_shaped e = true ->
  exists d k,
    e = PDict d /\ dict_lookup (KStr "device") d = Some (of_key k) /\
    endpoint_device e = [k].
Proof.
  unfold endpoint_shaped, endpoint_device. intros H.
  destruct (field "device" e) as [v|] eqn:Hf; [|discriminate].
  destruct (to_key v) as [k|] eqn:Hk; [|discriminate].
  apply to_key_of_key in Hk. subst v.
  apply field_dict in Hf. destruct Hf as (d & -> & Hl). eauto 6.
Qed.

Lemma connection_shaped_inv (c : pyval) :
  connection_shaped c = true ->
  exists d es,
    c = PDict d /\ dict_lookup (KStr "endpoints") d = Some (PList es) /\
    endpoint_devices c = flat_map endpoint_device es /\
    forallb endpoint_shaped es = true.
Proof.
  unfold connection_shaped, endpoint_devices. intros H.
  destruct (field "endpoints" c) as [v|] eqn:Hf; [|discriminate].
  destruct v as [| | | |es|]; try discriminate.
  apply field_dict in Hf. destruct Hf as (d & -> & Hl). eauto 6.
Qed.

Lemma endpoint_ok_shaped (names : list pykey) (e : pyval) :
  endpoint_ok names e = true -> endpoint_shaped e = true.
Proof.
  unfold endpoint_ok, endpoint_shaped.
  destruct (field "device" e) as [v|]; [|discriminate].
  destruct (to_key v); [reflexivity | discriminate].
Qed.

Lemma connection_ok_shaped (names : list pykey) (c : pyval) :
  connection_ok names c = true -> connection_shaped c = true.
Proof.
  unfold connection_ok, connection_shaped.
  destruct (field "endpoints" c) as [v|]; [|discriminate].
  destruct v as [| | | |es|]; try discriminate.
  rewrite !forallb_forall. intros H e He.
  eapply endpoint_ok_shaped; eauto.
Qed.

Lemma truthy_of_key (k : pykey) : truthy (of_key k) = key_truthy k.
Proof. reflexivity. Qed.

Lemma val_eq_of_key (k x : pykey) : val_eq_key (of_key k) x = key_eqb k x.
Proof. destruct k; reflexivity. Qed.

Lemma add_keys_cons (x k : pykey) (ks acc : list pykey) :
  add_keys x (k :: ks) acc
  = add_keys x ks (if key_truthy k && negb (key_eqb k x)
                   then set_add k acc else acc).
Proof. reflexivity. Qed.

Lemma add_keys_app (x : pykey) (ks ks' acc : list pykey) :
  add_keys x (ks ++ ks') acc = add_keys x ks' (add_keys x ks acc).
Proof. unfold add_keys. apply fold_left_app. Qed.

Lemma add_endpoints_ok (x : pykey) (es : list pyval) :
  forallb endpoint_shaped es = true ->
  forall acc,
    add_endpoints x es acc = Ok (add_keys x (flat_map endpoint_device es) acc).
Proof.
  induction es as [|e es IH]; simpl; intros H acc; [reflexivity|].
  apply andb_prop in H. destruct H as [He Hes].
  destruct (endpoint_shaped_inv _ He) as (d & k & -> & Hl & Hd).
  rewrite Hd. cbn [app py_get]. rewrite Hl. cbn [bind].
  rewrite truthy_of_key, val_eq_of_key, add_keys_cons.
  destruct (key_truthy k && negb (key_eqb k x)).
  - assert (to_key (of_key k) = Some k) as -> by (destruct k; reflexivity).
    apply IH. assumption.
  - apply IH. assumption.
Qed.

Lemma add_connections_ok (x : pykey) (cs : list pyval) :
  forallb connection_shaped cs = true ->
  forall acc,
    add_connections x cs acc
    = Ok (add_keys x (flat_map endpoint_devices cs) acc).
Proof.
  induction cs as [|c cs IH]; simpl; intros H acc; [reflexivity|].
  apply andb_prop in H. destruct H as [Hc Hcs].
  destruct (connection_shaped_inv _ Hc) as (d & es & -> & Hl & Hd & Hes).
  rewrite Hd. cbn [py_get]. rewrite Hl. cbn [bind py_iter].
  rewrite (add_endpoints_ok _ _ Hes). cbn [bind].
  rewrite add_keys_app. apply IH. assumption.
Qed.

Lemma any_endpoint_is_ok (x : pykey) (es : list pyval) :
  forallb endpoint_shaped es = true ->
  any_endpoint_is x es = Ok (key_mem x (flat_map endpoint_device es)).
Proof.
  induction es as [|e es IH]; simpl; intros H; [reflexivity|].
  apply andb_prop in H. destruct H as [He Hes].
  destruct (endpoint_shaped_inv _ He) as (d & k & -> & Hl & Hd).
  rewrite Hd. cbn [app py_get]. rewrite Hl. cbn [bind].
  unfold key_mem. cbn [existsb]. fold (key_mem x (flat_map endpoint_device es)).
  rewrite val_eq_of_key, (key_eqb_sym x k).
  destruct (key_eqb k x); [reflexivity | apply IH; assumption].
Qed.

Lemma connection_has_ok (x : pykey) (c : pyval) :
  connection_shaped c = true -> connection_has x c = Ok (lists x c).
Proof.
  intros Hc. unfold lists.
  destruct (connection_shaped_inv _ Hc) as (d & es & -> & Hl & Hd & Hes).
  rewrite Hd. unfold connection_has. simpl. rewrite Hl. simpl.
  eapply any_endpoint_is_ok; eauto.
Qed.

Lemma select_connections_ok (x : pykey) (cs : list pyval) :
  forallb connection_shaped cs = true ->
  select_connections x cs = Ok (filter (lists x) cs).
Proof.
  induction cs as [|c cs IH]; simpl; intros H; [reflexivity|].
  apply andb_prop in H. destruct H as [Hc Hcs].
  rewrite (connection_has_ok _ _ Hc), (IH Hcs). simpl.
  destruct (lists x c); reflexivity.
Qed.

Lemma invariants_connections_valid (topology : pyval) :
  satisfies_invariants topology = true -> connections_valid topology = true.
Proof.
  unfold satisfies_invariants, connections_valid. intros H.
  apply andb_prop in H. destruct H as [_ H].
  destruct (field "devices" topology) as [dv|]; [|discriminate].
  destruct dv as [| | | | |devices]; try discriminate.
  destruct (field "connections" topology) as [cv|]; [|discriminate].
  destruct cv as [| | | |connections|]; try discriminate.
  apply andb_prop in H. tauto.
Qed.

(** The parts of a document with valid connections. *)
Lemma connections_valid_inv (topology : pyval) :
  connections_valid topology = true ->
  exists d devices,
    topology = PDict d /\
    dict_lookup (KStr "devices") d = Some (PDict devices) /\
    py_get topology "connections" (PList [])
      = Ok (PList (connections_of topology)) /\
    forallb (connection_ok (dict_keys devices)) (connections_of topology)
      = true.
Proof.
  unfold connections_valid, connections_of. intros H.
  destruct (field "devices" topology) as [dv|] eqn:Hdev; [|discriminate].
  destruct dv as [| | | | |devices]; try discriminate.
  apply field_dict in Hdev. destruct Hdev as (d & -> & Hld).
  exists d, devices. simpl in *.
  destruct (dict_lookup (KStr "connections") d) as [cv|]; [|auto].
  destruct cv as [| | | |connections|]; try discriminate. auto.
Qed.

Lemma connections_valid_shaped (topology : pyval) :
  connections_valid topology = true -> connections_shaped topology = true.
Proof.
  unfold connections_valid, connections_shaped.
  destruct (field "devices" topology) as [dv|]; [|discriminate].
  destruct dv as [| | | | |devices]; try discriminate.
  destruct (field "connections" topology) as [cv|]; [|reflexivity].
  destruct cv as [| | | |connections|]; try discriminate.
  rewrite !forallb_forall. intros H c Hc.
  eapply connection_ok_shaped; eauto.
Qed.

(** The parts of a document with well-shaped connections. *)
Lemma connections_shaped_inv (d : list (pykey * pyval)) :
  connections_shaped (PDict d) = true ->
  py_get (PDict d) "connections" (PList [])
    = Ok (PList (connections_of (PDict d))) /\
  forallb connection_shaped (connections_of (PDict d)) = true.
Proof.
  unfold connections_shaped, connections_of. simpl.
  destruct (dict_lookup (KStr "connections") d) as [cv|]; [|auto].
  destruct cv as [| | | |connections|]; try discriminate. auto.
Qed.

Lemma key_mem_flat_map {X : Type} (n : pykey) (f : X -> list pykey)
    (xs : list X) :
  key_mem n (flat_map f xs) = existsb (fun x => key_mem n (f x)) xs.
Proof.
  induction xs as [|x xs IH]; simpl; [reflexivity|].
  rewrite key_mem_app, IH. reflexivity.
Qed.

Lemma existsb_filter {X : Type} (p g : X -> bool) (xs : list X) :
  existsb g (filter p xs) = existsb (fun x => p x && g x) xs.
Proof.
  induction xs as [|x xs IH]; simpl; [reflexivity|].
  destruct (p x); simpl; rewrite IH; reflexivity.
Qed.

Lemma key_truthy_eqb (a b : pykey) :
  key_eqb a b = true -> key_truthy a = key_truthy b.
Proof.
  intros H. apply key_eqb_true in H.
  destruct a as [|[]| |], b as [|[]| |]; simpl in H; inversion H;
    reflexivity.
Qed.

Lemma key_mem_add_keys (x n : pykey) (ks : list pykey) :
  forall acc,
    key_mem n (add_keys x ks acc)
    = key_mem n acc || (key_mem n ks && key_truthy n && negb (key_eqb n x)).
Proof.
  induction ks as [|k ks IH]; intros acc.
  - simpl. rewrite orb_false_r. reflexivity.
  - rewrite add_keys_cons, IH. simpl.
    destruct (key_eqb n k) eqn:He.
    + rewrite (key_truthy_eqb _ _ He), (key_eqb_trans _ _ x He).
      destruct (key_truthy k && negb (key_eqb n x)) eqn:Hc.
      * rewrite key_mem_set_add, He.
        destruct (key_truthy k), (key_eqb n x); try discriminate.
        simpl. rewrite !orb_true_r. reflexivity.
      * destruct (key_truthy k), (key_eqb n x); try discriminate;
          simpl; rewrite ?andb_false_r, ?orb_false_r; reflexivity.
    + simpl. destruct (key_truthy k && negb (key_eqb k x)).
      * rewrite key_mem_set_add, He, orb_false_r. reflexivity.
      * reflexivity.
Qed.

Lemma add_keys_nodup (x : pykey) (ks : list pykey) :
  forall acc, NoDup (map norm acc) -> NoDup (map norm (add_keys x ks acc)).
Proof.
  induction ks as [|k ks IH]; intros acc H; [assumption|].
  rewrite add_keys_cons. apply IH.
  destruct (key_truthy k && negb (key_eqb k x)); [|assumption].
  apply set_add_nodup. assumption.
Qed.

Lemma get_connected_devices_valid (set_order : list pykey -> list pykey)
    (topology : pyval) (x : pykey) :
  connections_shaped topology = true ->
  declared topology x = true ->
  get_connected_devices set_order topology x
  = Ok (set_order
          (add_keys x
             (flat_map endpoint_devices
                (filter (lists x) (connections_of topology))) [])).
Proof.
  intros Hshape Hx.
  apply declared_inv in Hx. destruct Hx as (d & devices & -> & Hld & Hm).
  destruct (connections_shaped_inv _ Hshape) as [Hlc Hcs].
  remember (connections_of (PDict d)) as conns.
  unfold get_connected_devices, get_device_connections.
  rewrite Hlc.
  rewrite (lookup_truthy _ _ _ Hld). cbn [negb py_get]. rewrite Hld.
  cbn [bind py_in]. rewrite Hm. cbn [negb bind py_iter].
  rewrite (select_connections_ok _ _ Hcs). cbn [bind].
  rewrite add_connections_ok; [reflexivity|].
  rewrite forallb_forall in *. intros c Hc. apply Hcs.
  apply filter_In in Hc. tauto.
Qed.

(** The collected set holds the devices adjacent to [x] whose name is
    truthy. *)
Lemma collected_neighbours (topology : pyval) (x n : pykey) :
  key_mem n (add_keys x
               (flat_map endpoint_devices
                  (filter (lists x) (connections_of topology))) [])
  = key_truthy n && adjacent topology x n.
Proof.
  rewrite key_mem_add_keys, key_mem_flat_map, existsb_filter. simpl.
  unfold adjacent, lists. rewrite (key_eqb_sym x n).
  destruct (key_truthy n), (key_eqb n x); simpl;
    rewrite ?andb_true_r, ?andb_false_r; reflexivity.
Qed.

(** ** Paths of the induced graph *)

Lemma connected_snoc (topology : pyval) (a b c : pykey) :
  connected topology a b -> adjacent topology b c = true ->
  connected topology a c.
Proof.
  induction 1 as [a|a b' b Hadj _ IH]; intros H.
  - eapply connected_step; [eassumption | constructor].
  - eapply connected_step; eauto.
Qed.

(** A set of devices closed under adjacency holds everything its members
    reach. *)
Lemma connected_closed (topology : pyval) (inside : pykey -> bool) :
  (forall a b, adjacent topology a b = true ->
               inside a = true -> inside b = true) ->
  forall a b, connected topology a b -> inside a = true -> inside b = true.
Proof. intros Hc a b H. induction H; eauto. Qed.

Lemma adjacent_eqb (topology : pyval) (x a b : pykey) :
  key_eqb a b = true -> adjacent topology x a = adjacent topology x b.
Proof.
  intros H. unfold adjacent, lists.
  rewrite (key_eqb_sym x a), (key_eqb_sym x b), (key_eqb_trans _ _ x H).
  f_equal. induction (connections_of topology) as [|c cs IH]; simpl;
    [reflexivity|].
  rewrite IH, (key_mem_eqb _ _ _ H). reflexivity.
Qed.

Lemma key_mem_in (k : pykey) (ks : list pykey) :
  In k ks -> key_mem k ks = true.
Proof. intros H. apply key_mem_true. apply in_map. assumption. Qed.

Lemma key_mem_exists (k : pykey) (ks : list pykey) :
  key_mem k ks = true -> exists k', In k' ks /\ key_eqb k k' = true.
Proof. unfold key_mem. apply existsb_exists. Qed.

Lemma listed_declared (names : list pykey) (c : pyval) (n : pykey) :
  connection_ok names c = true -> lists n c = true ->
  key_mem n names = true.
Proof.
  intros Hc Hn. unfold lists in Hn.
  destruct (connection_ok_inv _ _ Hc) as (d & es & -> & _ & Hd & Hes).
  rewrite Hd, key_mem_flat_map in Hn.
  apply existsb_exists in Hn. destruct Hn as (e & He & Hn).
  rewrite forallb_forall in Hes.
  destruct (endpoint_ok_inv _ _ (Hes e He)) as (de & k & -> & _ & Hk & Hm).
  rewrite Hk in Hn. unfold key_mem in Hn. simpl in Hn.
  rewrite orb_false_r in Hn. rewrite (key_mem_eqb _ _ _ Hn). assumption.
Qed.

Lemma adjacent_declared (topology : pyval) (x n : pykey) :
  connections_valid topology = true ->
  adjacent topology x n = true -> declared topology n = true.
Proof.
  intros Hinv Hadj.
  destruct (connections_valid_inv _ Hinv)
    as (d & devices & Ht & Hld & _ & Hcs).
  unfold adjacent in Hadj. apply andb_prop in Hadj. destruct Hadj as [_ H].
  apply existsb_exists in H. destruct H as (c & Hc & H).
  apply andb_prop in H. destruct H as [_ Hn].
  rewrite forallb_forall in Hcs.
  unfold declared. rewrite Ht. simpl. rewrite Hld.
  eapply listed_declared; eauto.
Qed.

Lemma scan_found (target : pykey) (path : list pykey) (nbrs : list pykey) :
  forall (queue : bfs_queue) (visited : list pykey) full,
  scan_neighbours target path nbrs queue visited = Found full ->
  exists n, In n nbrs /\ key_eqb n target = true.
Proof.
  induction nbrs as [|n nbrs IH]; simpl; intros queue visited full H;
    [discriminate|].
  destruct (key_eqb n target) eqn:Ht; [eauto|].
  destruct (negb (key_mem n visited));
    apply IH in H; destruct H as (m & Hm & He); eauto.
Qed.

Lemma scan_continue_queue (P : pykey -> Prop) (target : pykey)
    (path : list pykey) (nbrs : list pykey) :
  forall (queue : bfs_queue) (visited : list pykey) queue' visited',
  scan_neighbours target path nbrs queue visited = Continue queue' visited' ->
  (forall entry, In entry queue -> P (fst entry)) ->
  (forall k, In k nbrs -> P k) ->
  forall entry, In entry queue' -> P (fst entry).
Proof.
  induction nbrs as [|n nbrs IH]; simpl; intros queue visited queue' visited'
    Hscan Hq Hn.
  - inversion Hscan; subst. assumption.
  - destruct (key_eqb n target); [discriminate|].
    destruct (negb (key_mem n visited)).
    + eapply IH; eauto. intros entry He. apply in_app_iff in He.
      destruct He as [He|[<-|[]]]; simpl; auto.
    + eapply IH; eauto.
Qed.

Section Ordered.

Variable set_order : list pykey -> list pykey.

(** Going through a set yields its elements, each once, in some order. *)
Hypothesis set_order_perm : forall s, Permutation s (set_order s).

Lemma in_set_order (k : pykey) (s : list pykey) :
  In k (set_order s) -> In k s.
Proof.
  apply Permutation_in. apply Permutation_sym. apply set_order_perm.
Qed.

(** The neighbours the search sees, when the connections are valid, are
    adjacent and declared. *)
Lemma neighbours_adjacent (topology : pyval) (x : pykey) :
  connections_valid topology = true ->
  declared topology x = true ->
  exists nbrs,
    get_connected_devices set_order topology x = Ok nbrs /\
    forall n, In n nbrs ->
      adjacent topology x n = true /\ declared topology n = true.
Proof.
  intros Hinv Hx. eexists. split.
  - apply get_connected_devices_valid;
      [apply connections_valid_shaped|]; assumption.
  - intros n Hn. apply in_set_order in Hn. apply key_mem_in in Hn.
    rewrite collected_neighbours in Hn. apply andb_prop in Hn.
    destruct Hn as [_ Hadj]. split; [assumption|].
    eapply adjacent_declared; eauto.
Qed.

Lemma bfs_loop_unreachable (topology : pyval) (source target : pykey) :
  connections_valid topology = true ->
  ~ connected topology source target ->
  forall fuel queue visited,
    (forall entry, In entry queue ->
       declared topology (fst entry) = true /\
       connected topology source (fst entry)) ->
    bfs_loop set_order fuel topology target queue visited = None \/
    bfs_loop set_order fuel topology target queue visited
      = Some (Ok (false, [])).
Proof.
  intros Hinv Hno. induction fuel as [|fuel IH]; intros queue visited Hq.
  - destruct queue as [|[x path] queue]; simpl; auto.
  - destruct queue as [|[x path] queue]; simpl; [auto|].
    destruct (Hq (x, path) (or_introl eq_refl)) as [Hx Hsx]. simpl in Hx, Hsx.
    destruct (neighbours_adjacent _ _ Hinv Hx) as (nbrs & -> & Hn).
    destruct (scan_neighbours target path nbrs queue visited)
      as [full|queue' visited'] eqn:Hscan.
    + exfalso. apply scan_found in Hscan. destruct Hscan as (n & Hin & Ht).
      apply Hno. apply connected_snoc with (b := x); [assumption|].
      rewrite <- (adjacent_eqb _ _ _ _ Ht). apply Hn. assumption.
    + apply IH.
      apply (scan_continue_queue
               (fun k => declared topology k = true /\
                         connected topology source k)
               _ _ _ _ _ _ _ Hscan).
      * intros entry He. apply Hq. right. assumption.
      * intros n Hin. destruct (Hn n Hin) as [Hadj Hd]. split; [assumption|].
        eapply connected_snoc; eauto.
Qed.

(** C6, amended. In a loaded topology whose connections satisfy the
    structural invariants (each an object with an [endpoints] sequence, every
    endpoint naming a declared device), for every pair of distinct declared
    devices with no path between them in the induced adjacency graph,
    [verify_connectivity_path] returns [(False, [])] and raises nothing. *)
Theorem unreachable_not_found (topology : pyval) (source target : pykey) :
  connections_valid topology = true ->
  declared topology source = true ->
  declared topology target = true ->
  key_eqb source target = false ->
  ~ connected topology source target ->
  verify_connectivity_path set_order topology source target
  = Some (Ok (false, [])).
Proof.
  intros Hinv Hs Ht Hst Hno.
  destruct (search_returns set_order topology source target) as [r Hr].
  rewrite Hr. f_equal.
  unfold verify_connectivity_path, verify_connectivity_path_fuel in Hr.
  apply declared_inv in Hs. destruct Hs as (d & devices & -> & Hl & Hms).
  apply declared_inv in Ht. destruct Ht as (d' & devices' & Hd & Hl' & Hmt).
  inversion Hd; subst d'. rewrite Hl in Hl'. inversion Hl'; subst devices'.
  rewrite (lookup_truthy _ _ _ Hl) in Hr. simpl in Hr.
  rewrite Hl, Hms, Hmt, Hst in Hr. simpl in Hr.
  destruct (bfs_loop_unreachable _ _ _ Hinv Hno (device_count (PDict d))
              [(source, [source])] [source]) as [H|H].
  - intros entry [<-|[]]. simpl. split; [|constructor].
    unfold declared. simpl. rewrite Hl. assumption.
  - congruence.
  - congruence.
Qed.

(** ** The chain A-B-C *)

Lemma bfs_loop_step (fuel : nat) (topology : pyval) (target x : pykey)
    (path : list pykey) (queue : bfs_queue) (visited : list pykey) :
  bfs_loop set_order (S fuel) topology target ((x, path) :: queue) visited
  = match get_connected_devices set_order topology x with
    | Raise e => Some (Raise e)
    | Ok connected_devices =>
        match scan_neighbours target path connected_devices queue visited with
        | Found full_path => Some (Ok (true, full_path))
        | Continue queue' visited' =>
            bfs_loop set_order fuel topology target queue' visited'
        end
    end.
Proof. reflexivity. Qed.

(** C1. In the topology with devices A, B, C and connections A-B and B-C,
    [verify_connectivity_path(A, C)] returns [(True, [A, B, C])]: the
    breadth-first search finds the path, both ends included, in whatever
    order the sets of neighbours are gone through. *)
Theorem chain_path_found :
  verify_connectivity_path set_order chain_abc A C
  = Some (Ok (true, [A; B; C])).
Proof.
  assert (HA : get_connected_devices set_order chain_abc A
               = Ok (set_order [B])) by reflexivity.
  assert (HB : get_connected_devices set_order chain_abc B
               = Ok (set_order [A; C])) by reflexivity.
  pose proof (Permutation_length_1_inv (set_order_perm [B])) as H1.
  pose proof (Permutation_length_2_inv (set_order_perm [A; C])) as H2.
  change (verify_connectivity_path set_order chain_abc A C)
    with (bfs_loop set_order 3 chain_abc C [(A, [A])] [A]).
  rewrite bfs_loop_step, HA, H1.
  change (scan_neighbours C [A] [B] [] [A])
    with (Continue [(B, [A; B])] [A; B]).
  cbv iota beta. rewrite bfs_loop_step, HB.
  destruct H2 as [-> | ->]; reflexivity.
Qed.

End Ordered.

(** ** Instances *)

Lemma chain_path_found_witness :
  (forall s : list pykey, Permutation s (rev s)) /\
  verify_connectivity_path (@rev pykey) chain_abc A C
  = Some (Ok (true, [A; B; C])).
Proof.
  split; [apply Permutation_rev|].
  apply chain_path_found. apply Permutation_rev.
Defined.

Lemma path_to_self_witness :
  declared chain_abc B = true /\
  verify_connectivity_path (fun s => s) chain_abc B B = Some (Ok (true, [B])).
Proof.
  split; [reflexivity|].
  apply (path_to_self (fun s => s) chain_abc B). reflexivity.
Defined.

Lemma single_link_closed (devices : list string) (a b : string)
    (x y : pykey) :
  adjacent (sample devices [[a; b]]) x y = true ->
  key_mem y [KStr a; KStr b] = true.
Proof.
  unfold adjacent. intros H. apply andb_prop in H. destruct H as [_ H].
  change (connections_of (sample devices [[a; b]])) with [link [a; b]] in H.
  simpl in H. rewrite orb_false_r in H. apply andb_prop in H.
  destruct H as [_ H]. exact H.
Qed.

Lemma split_abcd_not_connected : ~ connected split_abcd A D.
Proof.
  intros H.
  assert (Hin : key_mem D [A; B] = true).
  { apply (connected_closed split_abcd (fun k => key_mem k [A; B]) )
      with (a := A); [|assumption|reflexivity].
    intros a b Hadj _.
    apply (single_link_closed ["A"; "B"; "C"; "D"] "A" "B" a b Hadj). }
  discriminate.
Qed.

Lemma dangling_not_connected : ~ connected dangling A D.
Proof.
  intros H.
  assert (Hin : key_mem D [A; KStr "Z"] = true).
  { apply (connected_closed dangling (fun k => key_mem k [A; KStr "Z"]))
      with (a := A); [|assumption|reflexivity].
    intros a b Hadj _.
    apply (single_link_closed ["A"; "D"] "A" "Z" a b Hadj). }
  discriminate.
Qed.

Lemma unreachable_not_found_witness :
  verify_connectivity_path (fun s => s) split_abcd A D
  = Some (Ok (false, [])).
Proof.
  apply unreachable_not_found.
  - intros s. apply Permutation_refl.
  - reflexivity.
  - reflexivity.
  - reflexivity.
  - reflexivity.
  - apply split_abcd_not_connected.
Defined.

(** C6, as stated, fails on a topology that was loaded and not validated. In
    [dangling] the declared devices A and D are distinct and no path joins
    them, and the search, which reaches the undeclared Z from A, raises the
    [ValueError] of an unknown device when it asks for the neighbours of Z. *)
Lemma unreachable_raises :
  ~ (forall set_order : list pykey -> list pykey,
       (forall s, Permutation s (set_order s)) ->
       forall topology source target,
         declared topology source = true ->
         declared topology target = true ->
         key_eqb source target = false ->
         ~ connected topology source target ->
         verify_connectivity_path set_order topology source target
         = Some (Ok (false, []))).
Proof.
  intros H.
  specialize (H (fun s => s) (fun s => Permutation_refl s) dangling A D
                eq_refl eq_refl eq_refl dangling_not_connected).
  vm_compute in H. discriminate.
Qed.

Lemma dangling_search_raises :
  verify_connectivity_path (fun s => s) dangling A D
  = Some (Raise (ValueError "Device 'Z' not found in the topology")).
Proof. reflexivity. Qed.

(** ** Directly connected devices *)

Lemma key_mem_perm (k : pykey) (s s' : list pykey) :
  Permutation s s' -> key_mem k s = key_mem k s'.
Proof.
  intros H. apply (Permutation_map norm) in H.
  destruct (key_mem k s) eqn:H1, (key_mem k s') eqn:H2; try reflexivity.
  - apply key_mem_true in H1. apply key_mem_false_norm in H2.
    exfalso. apply H2. eapply Permutation_in; eauto.
  - apply key_mem_true in H2. apply key_mem_false_norm in H1.
    exfalso. apply H1.
    eapply Permutation_in; [apply Permutation_sym; eassumption | assumption].
Qed.

(** What [get_connected_devices] returns when the connections are well
    shaped: each once, the devices adjacent to the given one whose name is
    truthy. *)
Lemma get_connected_devices_exact (set_order : list pykey -> list pykey)
    (topology : pyval) (x : pykey) :
  (forall s, Permutation s (set_order s)) ->
  connections_shaped topology = true ->
  declared topology x = true ->
  exists connected_devices,
    get_connected_devices set_order topology x = Ok connected_devices /\
    NoDup (map norm connected_devices) /\
    forall n, key_mem n connected_devices
              = key_truthy n && adjacent topology x n.
Proof.
  intros Hperm Hshape Hx. eexists. split; [|split].
  - apply get_connected_devices_valid; assumption.
  - eapply Permutation_NoDup.
    + apply Permutation_map. apply Hperm.
    + apply add_keys_nodup. constructor.
  - intros n. rewrite <- (key_mem_perm _ _ _ (Hperm _)).
    apply collected_neighbours.
Qed.

(** The device with the empty name is declared in [empty_name], which
    [validate_topology] accepts, and the one connection lists it with A.
    [get_connected_devices] finds A from it, and does not find it from A. *)
Lemma empty_name_one_way (set_order : list pykey -> list pykey) :
  (forall s, Permutation s (set_order s)) ->
  validate_topology empty_name = Ok true /\
  declared empty_name (KStr "") = true /\
  adjacent empty_name A (KStr "") = true /\
  get_connected_devices set_order empty_name (KStr "") = Ok [A] /\
  get_connected_devices set_order empty_name A = Ok [].
Proof.
  intros Hperm.
  pose proof (Permutation_length_1_inv (Hperm [A])) as H1.
  pose proof (Permutation_nil (Hperm [])) as H0.
  repeat split; try reflexivity.
  - change (get_connected_devices set_order empty_name (KStr ""))
      with (Ok (set_order [A])).
    rewrite H1. reflexivity.
  - change (get_connected_devices set_order empty_name A)
      with (Ok (set_order [])).
    rewrite H0. reflexivity.
Qed.

(** C7, as stated, fails on a device name that is falsy. In [empty_name] the
    connection lists A and the declared device with the empty name, and
    [get_connected_devices] of A returns nothing: the test
    [endpoint_device and ...] keeps a name only when it is truthy. *)
Lemma empty_name_not_returned :
  ~ (forall set_order : list pykey -> list pykey,
       (forall s, Permutation s (set_order s)) ->
       forall topology device_name,
         declared topology device_name = true ->
         exists connected_devices,
           get_connected_devices set_order topology device_name
             = Ok connected_devices /\
           NoDup (map norm connected_devices) /\
           forall n, key_mem n connected_devices
                     = adjacent topology device_name n).
Proof.
  intros H.
  destruct (H (fun s => s) (fun s => Permutation_refl s) empty_name A
              eq_refl) as (l & Hl & _ & Hn).
  vm_compute in Hl. inversion Hl; subst l.
  specialize (Hn (KStr "")). vm_compute in Hn. discriminate.
Qed.

(** C7, amended. For every declared device D of a topology whose
    connections are well shaped, [get_connected_devices(D)] returns, with no
    duplicates, device names other than D that appear as endpoints in some
    connection that also lists D (D itself never, even when a connection
    lists it twice), and it returns every such name that is truthy. *)
Theorem get_connected_devices_spec (set_order : list pykey -> list pykey)
    (topology : pyval) (x : pykey) :
  (forall s, Permutation s (set_order s)) ->
  connections_shaped topology = true ->
  declared topology x = true ->
  exists connected_devices,
    get_connected_devices set_order topology x = Ok connected_devices /\
    NoDup (map norm connected_devices) /\
    key_mem x connected_devices = false /\
    (forall n, key_mem n connected_devices = true ->
               adjacent topology x n = true) /\
    (forall n, adjacent topology x n = true -> key_truthy n = true ->
               key_mem n connected_devices = true).
Proof.
  intros Hperm Hshape Hx.
  destruct (get_connected_devices_exact _ _ _ Hperm Hshape Hx)
    as (l & Hl & Hnd & Hmem).
  exists l. repeat split; try assumption.
  - rewrite Hmem. unfold adjacent. rewrite key_eqb_refl.
    apply andb_false_r.
  - intros n Hn. rewrite Hmem in Hn. apply andb_prop in Hn. tauto.
  - intros n Hadj Ht. rewrite Hmem, Hadj, Ht. reflexivity.
Qed.

Lemma get_connected_devices_spec_witness :
  exists connected_devices,
    get_connected_devices (@rev pykey) shared_abc A = Ok connected_devices /\
    NoDup (map norm connected_devices) /\
    key_mem A connected_devices = false /\
    (forall n, key_mem n connected_devices = true ->
               adjacent shared_abc A n = true) /\
    (forall n, adjacent shared_abc A n = true -> key_truthy n = true ->
               key_mem n connected_devices = true).
Proof.
  apply (get_connected_devices_spec (@rev pykey) shared_abc A).
  - apply Permutation_rev.
  - reflexivity.
  - reflexivity.
Defined.

(** ** Failed loads *)

Section Loading.

Variable isfile : string -> bool.
Variable read_text : string -> string.
Variable yaml_safe_load : string -> result pyval.
Variable json_load : string -> result pyval.


Lemma load_parsed (held : pyval) (topology_file : string) (r : result pyval) :
  isfile topology_file = true ->
  parser_gives read_text yaml_safe_load json_load topology_file r ->
  load_topology isfile read_text yaml_safe_load json_load held
    topology_file
  = match r with
    | Raise e => (held, Raise e)
    | Ok topology =>
        match devices <- py_get topology "devices" (PList []) ;;
              py_len devices with
        | Raise e => (topology, Raise e)
        | Ok _ => (topology, Ok topology)
        end
    end.
Proof.
  intros Hf H. unfold load_topology. rewrite Hf. simpl.
  destruct H as [[[He|He] Hr]|[He Hr]]; rewrite He, Hr; reflexivity.
Qed.

(** X9. The failures the specification lists leave the held topology as it
    was: no file, an extension that is not recognised, a parse error. *)
Lemma load_failure_keeps_topology (held : pyval) (topology_file : string) :
  (isfile topology_file = false ->
   load_topology isfile read_text yaml_safe_load json_load held
    topology_file
   = (held, Raise (FileNotFoundError (file_not_found topology_file)))) /\
  (isfile topology_file = true ->
   let file_extension := lower (splitext_ext topology_file) in
   file_extension <> ".yaml" -> file_extension <> ".yml" ->
   file_extension <> ".json" ->
   load_topology isfile read_text yaml_safe_load json_load held
    topology_file
   = (held, Raise (ValueError (unsupported_format file_extension)))) /\
  (forall e,
     isfile topology_file = true ->
     parser_gives read_text yaml_safe_load json_load topology_file (Raise e) ->
     load_topology isfile read_text yaml_safe_load json_load held
    topology_file = (held, Raise e)).
Proof.
  split; [|split].
  - intros Hf. unfold load_topology. rewrite Hf. reflexivity.
  - intros Hf ext H1 H2 H3. unfold load_topology. rewrite Hf. simpl.
    fold ext. apply String.eqb_neq in H1, H2, H3. rewrite H1, H2, H3.
    reflexivity.
  - intros e Hf H. rewrite (load_parsed _ _ _ Hf H). reflexivity.
Qed.

(** C9. A load also fails after the parser has returned: the document is
    assigned to [self.topology] first, and the line that logs the number of
    devices raises [AttributeError] on a document that is not a mapping (an
    empty YAML file parses to [None]). The topology held before is then
    lost, where the claim has it unchanged. *)
Theorem load_failure_replaces_topology (held : pyval)
    (topology_file : string) (document : pyval) :
  isfile topology_file = true ->
  parser_gives read_text yaml_safe_load json_load topology_file (Ok document) ->
  is_dict document = false ->
  load_topology isfile read_text yaml_safe_load json_load held
    topology_file = (document, Raise (Builtin AttributeError)).
Proof.
  intros Hf H Hd. rewrite (load_parsed _ _ _ Hf H).
  destruct document; try discriminate; reflexivity.
Qed.

End Loading.

Lemma load_failure_replaces_topology_witness :
  load_topology (fun _ => true) (fun _ => "") yaml_load_empty yaml_load_empty
                chain_abc "labs/empty.yaml"
  = (PNone, Raise (Builtin AttributeError)).
Proof.
  apply load_failure_replaces_topology.
  - reflexivity.
  - left. split; [left; reflexivity | reflexivity].
  - reflexivity.
Defined.

(** ** Loaded topologies *)

(** A call of [load_topology] that returns leaves a mapping. *)
Lemma loaded_mapping (topology : pyval) :
  loaded topology -> exists d, topology = PDict d.
Proof.
  intros (isfile & read_text & yaml & json & held & file & H).
  unfold load_topology in H.
  destruct (negb (isfile file)); [inversion H|].
  destruct (if _ : bool then _ else _) as [t|e]; [|inversion H].
  destruct t as [| | | | |d]; simpl in H; try (inversion H; fail).
  destruct (_ <- _ ;; _) in H; inversion H. eauto.
Qed.

(** Every mapping whose [devices], if any, has a length can be loaded. *)
Lemma loaded_intro (topology : pyval) (n : nat) :
  (devices <- py_get topology "devices" (PList []) ;; py_len devices) = Ok n ->
  loaded topology.
Proof.
  intros H.
  exists (fun _ => true), (fun _ => ""), (fun _ => Ok topology),
    (fun _ => Ok topology), PNone, "lab.yaml".
  unfold load_topology. simpl. rewrite H. reflexivity.
Qed.

(** ** Missing top-level keys *)

Lemma missing_from_dict (xs : list string) (d : list (pykey * pyval)) :
  missing_from xs (PDict d)
  = Ok (filter (fun x => negb (has_key x (PDict d))) xs).
Proof.
  induction xs as [|x xs IH]; simpl; [reflexivity|].
  rewrite IH. simpl. destruct (key_mem (KStr x) (dict_keys d)); reflexivity.
Qed.

Lemma empty_mapping_taken_unloaded :
  validate_topology (PDict []) = Raise (ValueError no_topology_loaded).
Proof. reflexivity. Qed.

(** C3, as stated, fails on the empty mapping, which loads (from a file that
    holds the empty object) and has none of the three keys:
    [validate_topology] takes it for no topology at all, by the test
    [not self.topology], and raises the [ValueError] of that case. *)
Lemma validate_empty_mapping_unloaded :
  ~ (forall topology key,
       loaded topology ->
       In key required_keys ->
       has_key key topology = false ->
       exists m,
         validate_topology topology = Raise (TopologyValidationError m) /\
         message_names m key = true).
Proof.
  intros H.
  destruct (H (PDict []) "name") as (m & Hm & _).
  - apply (loaded_intro (PDict []) 0). reflexivity.
  - left. reflexivity.
  - reflexivity.
  - rewrite empty_mapping_taken_unloaded in Hm. discriminate.
Qed.

(** C3, amended. For any loaded topology other than the empty mapping that
    misses at least one of the top-level keys [name], [devices],
    [connections], [validate_topology] fails with a
    [TopologyValidationError] whose message lists the keys that are missing,
    and so names each of them; this includes a topology with none of the
    three keys. *)
Theorem validate_reports_missing_keys (topology : pyval) (key : string) :
  loaded topology ->
  truthy topology = true ->
  In key required_keys ->
  has_key key topology = false ->
  exists missing,
    validate_topology topology
      = Raise (TopologyValidationError (MissingKeys missing)) /\
    (forall k, In k missing <->
               In k required_keys /\ has_key k topology = false) /\
    message_names (MissingKeys missing) key = true.
Proof.
  intros Hl Ht Hin Hmiss.
  destruct (loaded_mapping _ Hl) as [d ->].
  remember (filter (fun x => negb (has_key x (PDict d))) required_keys)
    as missing eqn:Hf.
  exists missing.
  assert (Hmem : forall k,
    In k missing <-> In k required_keys /\ has_key k (PDict d) = false).
  { intros k. rewrite Hf, filter_In, negb_true_iff. reflexivity. }
  split; [|split].
  - unfold validate_topology. rewrite Ht.
    cbn [negb]. unfold validate_checks.
    rewrite missing_from_dict, <- Hf. cbn [bind].
    destruct missing as [|m ms]; [|reflexivity].
    exfalso. apply (proj2 (Hmem key)). auto.
  - exact Hmem.
  - unfold message_names, message_text. apply is_substring_occurs.
    apply occurs_app_r. unfold repr_list.
    apply (occurs_app_r key "["), occurs_app_l, occurs_repr_items.
    apply Hmem. auto.
Qed.

Lemma validate_reports_missing_keys_witness :
  exists missing,
    validate_topology (obj [("devices", obj []); ("extra", PInt 1)])
      = Raise (TopologyValidationError (MissingKeys missing)) /\
    (forall k, In k missing <->
       In k required_keys /\
       has_key k (obj [("devices", obj []); ("extra", PInt 1)]) = false) /\
    message_names (MissingKeys missing) "name" = true.
Proof.
  apply (validate_reports_missing_keys
           (obj [("devices", obj []); ("extra", PInt 1)]) "name").
  - apply (loaded_intro _ 0). reflexivity.
  - reflexivity.
  - left. reflexivity.
  - reflexivity.
Defined.

(** ** Replacement of a placeholder *)

Lemma replace_from_skip (old new : string) (dropped rest : string) :
  replace_from old new (String.length dropped) (dropped ++ rest)
  = replace_from old new 0 rest.
Proof.
  induction dropped as [|c dropped IH]; simpl; [|assumption].
  destruct rest; reflexivity.
Qed.

Lemma occurs_nil (old : string) : old <> "" -> ~ occurs old "".
Proof.
  intros Hne (before & after & H). apply Hne.
  assert (Hl : String.length (before ++ old ++ after) = 0) by (rewrite <- H; reflexivity).
  rewrite !string_length_app in Hl. apply string_length_zero. lia.
Qed.

Lemma occurs_cons (old : string) (c : ascii) (s : string) :
  occurs old (String c s) ->
  String.prefix old (String c s) = true \/ occurs old s.
Proof.
  intros (before & after & H). destruct before as [|c' before]; simpl in H.
  - left. apply prefix_app. eauto.
  - right. exists before, after. congruence.
Qed.

Section Replace.

Variables old new : string.
Hypothesis old_not_empty : old <> "".

Lemma replace_from_at_match (s after : string) :
  s = old ++ after ->
  replace_from old new 0 s = new ++ replace_from old new 0 after.
Proof.
  intros ->. destruct old as [|c old'] eqn:Ho; [congruence|].
  assert (Hp : String.prefix (String c old') (String c old' ++ after) = true).
  { apply prefix_app. eauto. }
  cbn [append replace_from]. cbn [append] in Hp. rewrite Hp.
  f_equal.
  replace (String.length (String c old') - 1) with (String.length old')
    by (simpl; lia).
  apply replace_from_skip.
Qed.

Lemma replace_from_spec :
  forall n s, String.length s <= n ->
    Replaced old new s (replace_from old new 0 s).
Proof.
  induction n as [|n IH]; intros s Hlen.
  - destruct s; [|simpl in Hlen; lia].
    apply Replaced_none. apply occurs_nil. assumption.
  - destruct s as [|c s].
    + apply Replaced_none. apply occurs_nil. assumption.
    + destruct (String.prefix old (String c s)) eqn:Hp.
      * apply prefix_app in Hp. destruct Hp as [after Hs].
        rewrite (replace_from_at_match _ _ Hs), Hs.
        apply (Replaced_first old new "" after).
        -- intros b a H. simpl in H.
           assert (Hl : String.length old
                        = String.length (b ++ old ++ a)) by congruence.
           rewrite !string_length_app in Hl.
           apply string_length_zero. lia.
        -- apply IH.
           assert (Hl : String.length (String c s)
                        = String.length (old ++ after)) by congruence.
           rewrite string_length_app in Hl. simpl in Hl, Hlen.
           destruct old; [congruence|]. simpl in Hl. lia.
      * cbn [replace_from]. rewrite Hp.
        assert (Hrec : Replaced old new s (replace_from old new 0 s)).
        { apply IH. simpl in Hlen. lia. }
        remember (replace_from old new 0 s) as r eqn:Hr.
        destruct Hrec as [s Hno | before after out Hfirst Hafter].
        -- apply Replaced_none.
           intros Hocc. apply occurs_cons in Hocc.
           destruct Hocc; [congruence | auto].
        -- apply (Replaced_first old new (String c before) after out);
             [|assumption].
           intros b a H. destruct b as [|c' b]; simpl in H.
           ++ exfalso.
              assert (Hpre : String.prefix old
                               (String c (before ++ old ++ after)) = true).
              { apply prefix_app. exists (a ++ after).
                rewrite <- (string_app_assoc old a after), <- H.
                simpl. rewrite string_app_assoc. reflexivity. }
              congruence.
           ++ apply (Hfirst b a). congruence.
Qed.

End Replace.

(** The relation fixes the outcome: replacing every occurrence from the left
    has one result. *)

Lemma string_app_inv_head (a x y : string) : a ++ x = a ++ y -> x = y.
Proof. induction a as [|c a IH]; simpl; intros H; [assumption|]. inversion H. auto. Qed.

Lemma prefix_comparable (a b x y : string) :
  a ++ x = b ++ y -> String.length a <= String.length b ->
  exists z, b = a ++ z.
Proof.
  revert b. induction a as [|c a IH]; intros b H Hlen.
  - exists b. reflexivity.
  - destruct b as [|c' b]; simpl in Hlen; [lia|].
    simpl in H. inversion H; subst c'.
    destruct (IH b) as [z Hz]; [assumption | lia |].
    exists z. simpl. congruence.
Qed.

Lemma first_occurrence_leftmost (old before after before' after' : string) :
  old <> "" ->
  (forall b a, before ++ old = b ++ old ++ a -> a = "") ->
  before ++ old ++ after = before' ++ old ++ after' ->
  String.length before <= String.length before'.
Proof.
  intros Hne Hfirst H.
  destruct (Nat.le_gt_cases (String.length before) (String.length before'))
    as [Hle|Hgt]; [assumption|]. exfalso.
  rewrite <- !string_app_assoc in H.
  destruct (prefix_comparable (before' ++ old) (before ++ old) after' after)
    as [z Hz].
  - congruence.
  - rewrite !string_length_app. lia.
  - rewrite string_app_assoc in Hz. pose proof (Hfirst _ _ Hz) as Hnil.
    subst z. rewrite string_app_nil in Hz.
    assert (Hl : String.length (before ++ old)
                 = String.length (before' ++ old)) by congruence.
    rewrite !string_length_app in Hl. lia.
Qed.

Lemma Replaced_functional (old new s out1 out2 : string) :
  old <> "" ->
  Replaced old new s out1 -> Replaced old new s out2 -> out1 = out2.
Proof.
  intros Hne H1. revert out2.
  induction H1 as [s Hno | before after out Hfirst Hafter IH]; intros out2 H2.
  - inversion H2 as [s0 Hno2 | before2 after2 o2 Hfirst2 Hafter2 Hs];
      subst; [reflexivity|].
    exfalso. apply Hno. exists before2, after2. reflexivity.
  - inversion H2 as [s0 Hno2 | before2 after2 o2 Hfirst2 Hafter2 Hs].
    + exfalso. apply Hno2. exists before, after. reflexivity.
    + assert (Hlen : String.length before = String.length before2).
      { apply Nat.le_antisymm.
        - eapply first_occurrence_leftmost; eauto.
        - eapply first_occurrence_leftmost; eauto. }
      destruct (prefix_comparable before before2 (old ++ after)
                  (old ++ after2)) as [z Hz]; [congruence | lia |].
      assert (z = "").
      { apply string_length_zero.
        assert (Hl : String.length before2 = String.length (before ++ z))
          by congruence.
        rewrite string_length_app in Hl. lia. }
      subst z. rewrite string_app_nil in Hz. subst before2.
      apply string_app_inv_head in Hs. apply string_app_inv_head in Hs.
      subst after2. f_equal. f_equal. apply IH. assumption.
Qed.

Lemma py_replace_placeholder (s key new : string) :
  py_replace s (placeholder key) new = replace_from (placeholder key) new 0 s.
Proof. reflexivity. Qed.

Section Render.

Variable repr_compound : pyval -> string.

Lemma replace_variables_renders (variables : list (pykey * pyval)) :
  string_keys variables = true ->
  forall s, exists out,
    replace_variables repr_compound variables s = Ok out /\
    Rendered (py_str_value repr_compound) s variables out.
Proof.
  induction variables as [|[k value] rest IH]; intros Hk s.
  - exists s. split; [reflexivity | constructor].
  - simpl in Hk. apply andb_prop in Hk. destruct Hk as [Hkey Hrest].
    destruct k as [| | |key]; try discriminate.
    destruct (IH Hrest (py_replace s (placeholder key)
                          (py_str_value repr_compound value)))
      as (out & Hout & Hr).
    exists out. split; [exact Hout|].
    eapply Rendered_pair; [|exact Hr].
    rewrite py_replace_placeholder.
    apply (replace_from_spec _ _) with (n := String.length s);
      [discriminate | lia].
Qed.

(** C8. [render_template] returns the template in which, for every pair of
    the variables in turn, every occurrence of the placeholder of the key
    has been replaced by the text of the value; it raises nothing. What is
    left in braces is kept and reported in a warning:
    [render_template("{x}-{y}", {x: "foo"})] returns ["foo-{y}"] and warns
    about [y]. *)
Theorem render_template_replaces (template_content : string)
    (variables : list (pykey * pyval)) :
  string_keys variables = true ->
  (exists rendered,
     fst (render_template repr_compound template_content variables)
       = Ok rendered /\
     Rendered (py_str_value repr_compound) template_content variables
       rendered) /\
  render_template repr_compound "{x}-{y}" [(KStr "x", PStr "foo")]
  = (Ok "foo-{y}", [UnreplacedVariables ["y"]]).
Proof.
  intros Hk. split; [|reflexivity].
  destruct (replace_variables_renders variables Hk template_content)
    as (out & Hout & Hr).
  exists out. split; [|exact Hr].
  unfold render_template. rewrite Hout.
  destruct (unreplaced_vars out); reflexivity.
Qed.

End Render.

Lemma render_template_replaces_witness :
  (exists rendered,
     fst (render_template (fun _ => "[]")
            "hostname {name} {name}/{id} {y}"
            [(KStr "name", PStr "r1"); (KStr "id", PInt 7)])
       = Ok rendered /\
     Rendered (py_str_value (fun _ => "[]"))
       "hostname {name} {name}/{id} {y}"
       [(KStr "name", PStr "r1"); (KStr "id", PInt 7)] rendered) /\
  render_template (fun _ => "[]") "{x}-{y}" [(KStr "x", PStr "foo")]
  = (Ok "foo-{y}", [UnreplacedVariables ["y"]]).
Proof.
  apply (render_template_replaces (fun _ => "[]")
           "hostname {name} {name}/{id} {y}"
           [(KStr "name", PStr "r1"); (KStr "id", PInt 7)]).
  reflexivity.
Defined.

(** ** What the search finds *)

Lemma adjacent_sym (topology : pyval) (a b : pykey) :
  adjacent topology a b = adjacent topology b a.
Proof.
  unfold adjacent. rewrite (key_eqb_sym a b). f_equal.
  induction (connections_of topology) as [|c cs IH]; simpl; [reflexivity|].
  rewrite IH, (andb_comm (lists a c)). reflexivity.
Qed.

Lemma linked_eqb_l (topology : pyval) (a b n : pykey) :
  key_eqb a b = true -> linked topology a n = linked topology b n.
Proof.
  intros H. unfold linked.
  rewrite (adjacent_sym _ a n), (adjacent_sym _ b n), (adjacent_eqb _ _ _ _ H).
  reflexivity.
Qed.

Lemma walk_snoc (topology : pyval) (path : list pykey) (s x n : pykey) :
  walk topology path -> last path s = x -> linked topology x n = true ->
  walk topology (path ++ [n]).
Proof.
  induction 1 as [a|a b rest Hl Hw IH]; intros Hlast Hn.
  - simpl in Hlast. subst. simpl. constructor; [assumption | constructor].
  - simpl. constructor; [assumption|]. apply IH; assumption.
Qed.

Lemma last_snoc (path : list pykey) (s n : pykey) : last (path ++ [n]) s = n.
Proof. apply last_last. Qed.

Lemma hd_error_snoc (path : list pykey) (s n : pykey) :
  hd_error path = Some s -> hd_error (path ++ [n]) = Some s.
Proof. destruct path; simpl; [discriminate | auto]. Qed.

Lemma scan_found_path (target : pykey) (path : list pykey)
    (nbrs : list pykey) :
  forall (queue : bfs_queue) (visited : list pykey) full,
  scan_neighbours target path nbrs queue visited = Found full ->
  exists n, In n nbrs /\ key_eqb n target = true /\ full = (path ++ [n])%list.
Proof.
  induction nbrs as [|n nbrs IH]; simpl; intros queue visited full H;
    [discriminate|].
  destruct (key_eqb n target) eqn:Ht.
  - inversion H. eauto.
  - destruct (negb (key_mem n visited));
      apply IH in H; destruct H as (m & Hm & He & Hf); eauto.
Qed.

Lemma scan_continue_entries (Q : pykey * list pykey -> Prop) (target : pykey)
    (path : list pykey) (nbrs : list pykey) :
  forall (queue : bfs_queue) (visited : list pykey) queue' visited',
  scan_neighbours target path nbrs queue visited = Continue queue' visited' ->
  (forall entry, In entry queue -> Q entry) ->
  (forall n, In n nbrs -> Q (n, (path ++ [n])%list)) ->
  forall entry, In entry queue' -> Q entry.
Proof.
  induction nbrs as [|n nbrs IH]; simpl; intros queue visited queue' visited'
    Hscan Hq Hn.
  - inversion Hscan; subst. assumption.
  - destruct (key_eqb n target); [discriminate|].
    destruct (negb (key_mem n visited)).
    + eapply IH; eauto. intros entry He. apply in_app_iff in He.
      destruct He as [He|[<-|[]]]; auto.
    + eapply IH; eauto.
Qed.

(** What one pass over the neighbours does to the visited set and to the
    queue. *)
Lemma scan_continue_visited (target : pykey) (path : list pykey)
    (nbrs : list pykey) :
  forall (queue : bfs_queue) (visited : list pykey) queue' visited',
  scan_neighbours target path nbrs queue visited = Continue queue' visited' ->
  (forall n, In n nbrs ->
     key_eqb n target = false /\ key_mem n visited' = true) /\
  (forall k, key_mem k visited = true -> key_mem k visited' = true) /\
  (forall k, key_mem k visited' = true ->
     key_mem k visited = true \/ key_mem k (map fst queue') = true) /\
  (forall k, key_mem k (map fst queue) = true ->
     key_mem k (map fst queue') = true).
Proof.
  induction nbrs as [|n nbrs IH]; simpl; intros queue visited queue' visited'
    Hscan.
  - inversion Hscan; subst. split; [intros m []|]. auto.
  - destruct (key_eqb n target) eqn:Ht; [discriminate|].
    destruct (key_mem n visited) eqn:Hm; simpl in Hscan.
    + destruct (IH _ _ _ _ Hscan) as (H1 & H2 & H3 & H4).
      split; [|split; [|split]]; auto.
      intros m [<-|Hin]; auto.
    + destruct (IH _ _ _ _ Hscan) as (H1 & H2 & H3 & H4).
      assert (Hadd : forall k, key_mem k (set_add n visited)
                               = key_mem k visited || key_eqb k n)
        by (intros k; apply key_mem_set_add).
      assert (Hq : forall k,
                key_mem k (map fst (queue ++ [(n, (path ++ [n])%list)]))
                = key_mem k (map fst queue) || key_eqb k n).
      { intros k. rewrite map_app, key_mem_app. simpl.
        rewrite orb_false_r. reflexivity. }
      split; [|split; [|split]].
      * intros m [<-|Hin]; [|auto]. split; [assumption|].
        apply H2. rewrite Hadd, key_eqb_refl. apply orb_true_r.
      * intros k Hk. apply H2. rewrite Hadd, Hk. reflexivity.
      * intros k Hk. destruct (H3 k Hk) as [Hv|Hv]; [|auto].
        rewrite Hadd in Hv. apply orb_prop in Hv. destruct Hv as [Hv|Hv];
          [auto|]. right. apply H4. rewrite Hq, Hv. apply orb_true_r.
      * intros k Hk. apply H4. rewrite Hq, Hk. reflexivity.
Qed.

Lemma linked_eqb_r (topology : pyval) (x a b : pykey) :
  key_eqb a b = true -> linked topology x a = linked topology x b.
Proof.
  intros H. unfold linked.
  rewrite (key_truthy_eqb _ _ H), (adjacent_eqb _ _ _ _ H). reflexivity.
Qed.

Lemma dist_le_eqb (topology : pyval) (source : pykey) (k : nat)
    (y y' : pykey) :
  dist_le topology source k y -> key_eqb y y' = true ->
  dist_le topology source k y'.
Proof.
  intros H He. destruct H as [k y Hs | k z y Hz Hl].
  - apply dist_le_source. rewrite key_eqb_sym in He.
    rewrite (key_eqb_trans _ _ source He) in Hs. assumption.
  - eapply dist_le_step; [eassumption|].
    rewrite <- (linked_eqb_r _ _ _ _ He). assumption.
Qed.

Lemma key_mem_map_fst (k : pykey) (queue : bfs_queue) :
  key_mem k (map fst queue) = true ->
  exists entry, In entry queue /\ key_eqb k (fst entry) = true.
Proof.
  intros H. apply key_mem_exists in H. destruct H as (k' & Hin & He).
  apply in_map_iff in Hin. destruct Hin as (entry & <- & Hin). eauto.
Qed.

(** The entries one pass over the neighbours adds to the queue. *)
Lemma scan_continue_new (target : pykey) (path : list pykey)
    (nbrs : list pykey) :
  forall (queue : bfs_queue) (visited : list pykey) queue' visited',
  scan_neighbours target path nbrs queue visited = Continue queue' visited' ->
  exists new,
    queue' = (queue ++ new)%list /\
    forall entry, In entry new ->
      exists n, In n nbrs /\ entry = (n, (path ++ [n])%list) /\
                key_mem n visited = false.
Proof.
  induction nbrs as [|n nbrs IH]; simpl; intros queue visited queue' visited'
    Hscan.
  - inversion Hscan; subst. exists []. rewrite app_nil_r.
    split; [reflexivity | intros entry []].
  - destruct (key_eqb n target) eqn:Ht; [discriminate|].
    destruct (key_mem n visited) eqn:Hm; simpl in Hscan.
    + destruct (IH _ _ _ _ Hscan) as (new & Hq & Hnew).
      exists new. split; [assumption|].
      intros entry He. destruct (Hnew entry He) as (m & Hin & Hm' & Hv).
      eauto.
    + destruct (IH _ _ _ _ Hscan) as (new & Hq & Hnew).
      exists ((n, (path ++ [n])%list) :: new). split.
      * rewrite Hq, <- app_assoc. reflexivity.
      * intros entry [<-|He]; [eauto|].
        destruct (Hnew entry He) as (m & Hin & Hm' & Hv).
        exists m. repeat split; auto.
        rewrite key_mem_set_add in Hv. apply orb_false_elim in Hv. tauto.
Qed.

Lemma search_unfolds (set_order : list pykey -> list pykey)
    (topology : pyval) (source target : pykey) :
  declared topology source = true ->
  declared topology target = true ->
  verify_connectivity_path set_order topology source target
  = if key_eqb source target then Some (Ok (true, [source]))
    else bfs_loop set_order (device_count topology) topology target
           [(source, [source])] [source].
Proof.
  intros Hs Ht.
  apply declared_inv in Hs. destruct Hs as (d & devices & -> & Hl & Hms).
  apply declared_inv in Ht. destruct Ht as (d' & devices' & Hd' & Hl' & Hmt).
  inversion Hd'; subst d'. rewrite Hl in Hl'. inversion Hl'; subst devices'.
  unfold verify_connectivity_path, verify_connectivity_path_fuel.
  rewrite (lookup_truthy _ _ _ Hl). simpl.
  rewrite Hl, Hms, Hmt. reflexivity.
Qed.

(** ** Connections as [validate_topology] accepts them *)

Lemma endpoints_ok_shaped (names : list pykey) (es : list pyval) :
  forallb (endpoint_ok names) es = true -> forallb endpoint_shaped es = true.
Proof.
  rewrite !forallb_forall. intros H e He.
  eapply endpoint_ok_shaped; eauto.
Qed.

Lemma connection_accepted_inv (names : list pykey) (c : pyval) :
  connection_accepted names c = true ->
  exists d ev es,
    c = PDict d /\ dict_lookup (KStr "endpoints") d = Some ev /\
    py_iter ev = Ok es /\
    endpoint_devices c = flat_map endpoint_device es /\
    forallb (endpoint_ok names) es = true.
Proof.
  unfold connection_accepted, endpoint_devices. intros H.
  destruct (field "endpoints" c) as [ev|] eqn:Hf; [|discriminate].
  destruct (py_iter ev) as [es|e] eqn:Hi; [|discriminate].
  apply field_dict in Hf. destruct Hf as (d & -> & Hl).
  exists d, ev, es.
  split; [reflexivity|]. split; [assumption|]. split; [assumption|].
  split; [|assumption].
  destruct ev as [| | |s|l|l]; simpl in Hi; try discriminate;
    inversion Hi; subst es.
  - destruct s; [reflexivity | discriminate].
  - reflexivity.
  - destruct l as [|[k v] l]; [reflexivity|].
    simpl in H. destruct k; discriminate.
Qed.

Lemma connection_ok_accepted (names : list pykey) (c : pyval) :
  connection_ok names c = true -> connection_accepted names c = true.
Proof.
  unfold connection_ok, connection_accepted.
  destruct (field "endpoints" c) as [v|]; [|discriminate].
  destruct v; try discriminate. simpl. tauto.
Qed.

Lemma connections_valid_accepted (topology : pyval) :
  connections_valid topology = true -> connections_accepted topology = true.
Proof.
  unfold connections_valid, connections_accepted.
  destruct (field "devices" topology) as [dv|]; [|discriminate].
  destruct dv as [| | | | |devices]; try discriminate.
  destruct (field "connections" topology) as [cv|]; [|reflexivity].
  destruct cv as [| | | |connections|]; try discriminate.
  rewrite !forallb_forall. intros H c Hc.
  apply connection_ok_accepted. auto.
Qed.

Lemma accepted_connections (topology : pyval) :
  accepted topology = true -> connections_accepted topology = true.
Proof.
  unfold accepted, connections_accepted. intros H.
  apply andb_prop in H. destruct H as [_ H].
  destruct (field "devices" topology) as [dv|]; [|discriminate].
  destruct dv as [| | | | |devices]; try discriminate.
  destruct (field "connections" topology) as [cv|]; [|discriminate].
  destruct cv as [| | | |connections|]; try discriminate.
  apply andb_prop in H. tauto.
Qed.

(** The parts of a document whose connections are accepted. *)
Lemma connections_accepted_inv (topology : pyval) :
  connections_accepted topology = true ->
  exists d devices,
    topology = PDict d /\
    dict_lookup (KStr "devices") d = Some (PDict devices) /\
    py_get topology "connections" (PList [])
      = Ok (PList (connections_of topology)) /\
    forallb (connection_accepted (dict_keys devices)) (connections_of topology)
      = true.
Proof.
  unfold connections_accepted, connections_of. intros H.
  destruct (field "devices" topology) as [dv|] eqn:Hdev; [|discriminate].
  destruct dv as [| | | | |devices]; try discriminate.
  apply field_dict in Hdev. destruct Hdev as (d & -> & Hld).
  exists d, devices. simpl in *.
  destruct (dict_lookup (KStr "connections") d) as [cv|]; [|auto].
  destruct cv as [| | | |connections|]; try discriminate. auto.
Qed.

Lemma add_connections_accepted (names : list pykey) (x : pykey)
    (cs : list pyval) :
  forallb (connection_accepted names) cs = true ->
  forall acc,
    add_connections x cs acc
    = Ok (add_keys x (flat_map endpoint_devices cs) acc).
Proof.
  induction cs as [|c cs IH]; simpl; intros H acc; [reflexivity|].
  apply andb_prop in H. destruct H as [Hc Hcs].
  destruct (connection_accepted_inv _ _ Hc)
    as (d & ev & es & -> & Hl & Hi & Hd & Hes).
  rewrite Hd. cbn [py_get]. rewrite Hl. cbn [bind]. rewrite Hi. cbn [bind].
  rewrite (add_endpoints_ok _ _ (endpoints_ok_shaped _ _ Hes)). cbn [bind].
  rewrite add_keys_app. apply IH. assumption.
Qed.

Lemma connection_has_accepted (names : list pykey) (x : pykey) (c : pyval) :
  connection_accepted names c = true -> connection_has x c = Ok (lists x c).
Proof.
  intros Hc. unfold lists.
  destruct (connection_accepted_inv _ _ Hc)
    as (d & ev & es & -> & Hl & Hi & Hd & Hes).
  rewrite Hd. unfold connection_has. cbn [py_get]. rewrite Hl. cbn [bind].
  rewrite Hi. cbn [bind].
  apply any_endpoint_is_ok. eapply endpoints_ok_shaped; eauto.
Qed.

Lemma select_connections_accepted (names : list pykey) (x : pykey)
    (cs : list pyval) :
  forallb (connection_accepted names) cs = true ->
  select_connections x cs = Ok (filter (lists x) cs).
Proof.
  induction cs as [|c cs IH]; simpl; intros H; [reflexivity|].
  apply andb_prop in H. destruct H as [Hc Hcs].
  rewrite (connection_has_accepted _ _ _ Hc), (IH Hcs). simpl.
  destruct (lists x c); reflexivity.
Qed.

Lemma get_device_connections_accepted (topology : pyval) (x : pykey) :
  connections_accepted topology = true ->
  declared topology x = true ->
  get_device_connections topology x
  = Ok (filter (lists x) (connections_of topology)).
Proof.
  intros Hacc Hx.
  destruct (connections_accepted_inv _ Hacc)
    as (d & devices & -> & Hld & Hlc & Hcs).
  apply declared_inv in Hx. destruct Hx as (d' & devices' & Hd' & Hld' & Hm).
  inversion Hd'; subst d'. rewrite Hld in Hld'. inversion Hld'; subst devices'.
  remember (connections_of (PDict d)) as conns.
  unfold get_device_connections.
  rewrite Hlc.
  rewrite (lookup_truthy _ _ _ Hld). cbn [negb py_get]. rewrite Hld.
  cbn [bind py_in]. rewrite Hm. cbn [negb bind py_iter].
  eapply select_connections_accepted; eauto.
Qed.

Lemma get_connected_devices_accepted (set_order : list pykey -> list pykey)
    (topology : pyval) (x : pykey) :
  connections_accepted topology = true ->
  declared topology x = true ->
  get_connected_devices set_order topology x
  = Ok (set_order
          (add_keys x
             (flat_map endpoint_devices
                (filter (lists x) (connections_of topology))) [])).
Proof.
  intros Hacc Hx. unfold get_connected_devices.
  rewrite (get_device_connections_accepted _ _ Hacc Hx). cbn [bind].
  destruct (connections_accepted_inv _ Hacc)
    as (d & devices & _ & _ & _ & Hcs).
  rewrite (add_connections_accepted (dict_keys devices)); [reflexivity|].
  rewrite forallb_forall in *. intros c Hc. apply Hcs.
  apply filter_In in Hc. tauto.
Qed.

Lemma listed_declared_accepted (names : list pykey) (c : pyval) (n : pykey) :
  connection_accepted names c = true -> lists n c = true ->
  key_mem n names = true.
Proof.
  intros Hc Hn. unfold lists in Hn.
  destruct (connection_accepted_inv _ _ Hc)
    as (d & ev & es & -> & _ & _ & Hd & Hes).
  rewrite Hd, key_mem_flat_map in Hn.
  apply existsb_exists in Hn. destruct Hn as (e & He & Hn).
  rewrite forallb_forall in Hes.
  destruct (endpoint_ok_inv _ _ (Hes e He)) as (de & k & -> & _ & Hk & Hm).
  rewrite Hk in Hn. unfold key_mem in Hn. simpl in Hn.
  rewrite orb_false_r in Hn. rewrite (key_mem_eqb _ _ _ Hn). assumption.
Qed.

Lemma adjacent_declared_accepted (topology : pyval) (x n : pykey) :
  connections_accepted topology = true ->
  adjacent topology x n = true -> declared topology n = true.
Proof.
  intros Hacc Hadj.
  destruct (connections_accepted_inv _ Hacc)
    as (d & devices & Ht & Hld & _ & Hcs).
  unfold adjacent in Hadj. apply andb_prop in Hadj. destruct Hadj as [_ H].
  apply existsb_exists in H. destruct H as (c & Hc & H).
  apply andb_prop in H. destruct H as [_ Hn].
  rewrite forallb_forall in Hcs.
  unfold declared. rewrite Ht. simpl. rewrite Hld.
  eapply listed_declared_accepted; eauto.
Qed.

(** The neighbours [get_connected_devices] returns for a declared device:
    each once, the devices it is linked to, all declared. *)
Lemma neighbours_accepted (set_order : list pykey -> list pykey)
    (topology : pyval) (x : pykey) :
  (forall s, Permutation s (set_order s)) ->
  connections_accepted topology = true ->
  declared topology x = true ->
  exists nbrs,
    get_connected_devices set_order topology x = Ok nbrs /\
    NoDup (map norm nbrs) /\
    (forall n, key_mem n nbrs = linked topology x n) /\
    (forall n, In n nbrs -> declared topology n = true).
Proof.
  intros Hperm Hacc Hx. eexists.
  split; [apply get_connected_devices_accepted; assumption|].
  assert (Hmem : forall n,
            key_mem n
              (set_order
                 (add_keys x
                    (flat_map endpoint_devices
                       (filter (lists x) (connections_of topology))) []))
            = linked topology x n).
  { intros n. rewrite <- (key_mem_perm _ _ _ (Hperm _)).
    apply collected_neighbours. }
  split; [|split].
  - eapply Permutation_NoDup.
    + apply Permutation_map. apply Hperm.
    + apply add_keys_nodup. constructor.
  - exact Hmem.
  - intros n Hn. apply key_mem_in in Hn. rewrite Hmem in Hn.
    apply andb_prop in Hn. destruct Hn as [_ Hadj].
    eapply adjacent_declared_accepted; eauto.
Qed.

Section Correct.

Variable set_order : list pykey -> list pykey.
Hypothesis set_order_perm : forall s, Permutation s (set_order s).

Variable topology : pyval.
Hypothesis topology_accepted : connections_accepted topology = true.

(** The neighbours the search gets for a declared device: the devices it is
    linked to, all declared. *)
Lemma neighbours_linked (x : pykey) :
  declared topology x = true ->
  exists nbrs,
    get_connected_devices set_order topology x = Ok nbrs /\
    (forall n, key_mem n nbrs = linked topology x n) /\
    (forall n, In n nbrs -> declared topology n = true).
Proof.
  intros Hx.
  destruct (neighbours_accepted set_order topology x set_order_perm
              topology_accepted Hx)
    as (nbrs & Hg & _ & Hmem & Hdecl).
  exists nbrs. auto.
Qed.

Variables source target : pykey.

Lemma bfs_loop_sound :
  forall fuel queue visited full,
    (forall entry, In entry queue -> good_entry topology source entry) ->
    bfs_loop set_order fuel topology target queue visited
      = Some (Ok (true, full)) ->
    walk topology full /\ hd_error full = Some source /\
    key_eqb (last full source) target = true.
Proof.
  induction fuel as [|fuel IH]; intros queue visited full Hq H.
  - destruct queue as [|[x path] queue]; simpl in H; discriminate.
  - destruct queue as [|[x path] queue]; simpl in H; [discriminate|].
    destruct (Hq (x, path) (or_introl eq_refl)) as (Hx & Hw & Hhd & Hlast).
    simpl in Hx, Hw, Hhd, Hlast.
    destruct (neighbours_linked x Hx) as (nbrs & Hg & Hmem & Hdecl).
    rewrite Hg in H.
    assert (Hnew : forall n, In n nbrs -> good_entry topology source (n, (path ++ [n])%list)).
    { intros n Hn. repeat split; simpl.
      - apply Hdecl. assumption.
      - eapply walk_snoc; eauto. rewrite <- Hmem. apply key_mem_in.
        assumption.
      - apply hd_error_snoc. assumption.
      - apply last_snoc. }
    destruct (scan_neighbours target path nbrs queue visited)
      as [found|queue' visited'] eqn:Hscan.
    + inversion H; subst found.
      apply scan_found_path in Hscan.
      destruct Hscan as (n & Hn & Ht & ->).
      destruct (Hnew n Hn) as (_ & Hw' & Hhd' & Hlast'). simpl in *.
      rewrite Hlast'. auto.
    + apply (IH queue' visited' full); [|assumption].
      apply (scan_continue_entries (good_entry topology source) _ _ _ _ _ _ _ Hscan);
        [|assumption].
      intros entry He. apply Hq. right. assumption.
Qed.

(** Whatever the search returns as found is a walk of the graph from the
    source to the target. *)
Lemma found_path_is_walk (full : list pykey) :
  verify_connectivity_path set_order topology source target
    = Some (Ok (true, full)) ->
  walk topology full /\ hd_error full = Some source /\
  key_eqb (last full source) target = true.
Proof.
  unfold verify_connectivity_path, verify_connectivity_path_fuel.
  destruct (truthy topology); simpl; [|discriminate].
  destruct (py_get topology "devices" (PDict [])) as [v|e] eqn:Hget;
    [|discriminate].
  destruct v as [| | | | |devices]; try discriminate.
  destruct (key_mem source (dict_keys devices)) eqn:Hs; simpl;
    [|discriminate].
  destruct (key_mem target (dict_keys devices)) eqn:Ht; simpl;
    [|discriminate].
  destruct (key_eqb source target) eqn:Hst.
  - intros H. inversion H; subst full. simpl.
    repeat split; [constructor | assumption].
  - apply bfs_loop_sound.
    intros entry [<-|[]]. repeat split; simpl; try constructor.
    destruct (connections_accepted_inv _ topology_accepted)
      as (d & devices' & Hd & Hl & _).
    unfold declared. rewrite Hd in *. simpl in *. rewrite Hl in *.
    inversion Hget; subst devices'. assumption.
Qed.

Lemma sealed_reaches (inside : list pykey) (a c : pykey) :
  sealed topology target inside -> reaches topology a c ->
  key_mem a inside = true -> key_eqb a target = false ->
  key_eqb c target = false.
Proof.
  intros Hs H. induction H as [a|a b c Hl _ IH]; intros Ha Hat;
    [assumption|].
  destruct (Hs a b Ha Hl) as [Hbt Hb]. auto.
Qed.

Lemma bfs_loop_complete :
  forall fuel popped queue visited r,
    (forall entry, In entry queue -> declared topology (fst entry) = true) ->
    (forall x n, key_mem x popped = true -> linked topology x n = true ->
       key_eqb n target = false /\ key_mem n visited = true) ->
    (forall k, key_mem k visited = true ->
       key_mem k popped = true \/ key_mem k (map fst queue) = true) ->
    bfs_loop set_order fuel topology target queue visited = Some r ->
    (exists full, r = Ok (true, full)) \/
    (r = Ok (false, []) /\
     exists inside, sealed topology target inside /\
       forall k, key_mem k visited = true -> key_mem k inside = true).
Proof.
  induction fuel as [|fuel IH]; intros popped queue visited r Hq Hp Hv H.
  - destruct queue as [|[x path] queue]; simpl in H; [|discriminate].
    inversion H; subst r. right. split; [reflexivity|].
    exists popped. split.
    + intros x n Hx Hl. destruct (Hp x n Hx Hl) as [Ht Hn].
      split; [assumption|]. destruct (Hv n Hn) as [|Hn']; [assumption|].
      discriminate.
    + intros k Hk. destruct (Hv k Hk) as [|Hk']; [assumption|discriminate].
  - destruct queue as [|[x path] queue]; simpl in H.
    { inversion H; subst r. right. split; [reflexivity|].
      exists popped. split.
      + intros x n Hx Hl. destruct (Hp x n Hx Hl) as [Ht Hn].
        split; [assumption|]. destruct (Hv n Hn) as [|Hn']; [assumption|].
        discriminate.
      + intros k Hk. destruct (Hv k Hk) as [|Hk']; [assumption|discriminate]. }
    pose proof (Hq (x, path) (or_introl eq_refl)) as Hx. simpl in Hx.
    destruct (neighbours_linked x Hx) as (nbrs & Hg & Hmem & Hdecl).
    rewrite Hg in H.
    destruct (scan_neighbours target path nbrs queue visited)
      as [found|queue' visited'] eqn:Hscan.
    + inversion H. eauto.
    + destruct (scan_continue_visited _ _ _ _ _ _ _ Hscan)
        as (H1 & H2 & H3 & H4).
      destruct (IH (popped ++ [x])%list queue' visited' r) as [Hf|(Hr & S & HS & Hin)];
        [| | |assumption|auto|].
      * apply (scan_continue_queue
                 (fun k => declared topology k = true) _ _ _ _ _ _ _ Hscan).
        -- intros entry He. apply Hq. right. assumption.
        -- assumption.
      * intros x0 n Hx0 Hl. rewrite key_mem_app in Hx0.
        apply orb_prop in Hx0. destruct Hx0 as [Hx0|Hx0].
        -- destruct (Hp x0 n Hx0 Hl) as [Ht Hn]. auto.
        -- simpl in Hx0. rewrite orb_false_r in Hx0.
           rewrite (linked_eqb_l _ _ _ _ Hx0), <- Hmem in Hl.
           apply key_mem_exists in Hl. destruct Hl as (n' & Hn' & He).
           destruct (H1 n' Hn') as [Ht Hvn].
           rewrite (key_eqb_trans _ _ target He) in Ht.
           rewrite <- (key_mem_eqb _ _ _ He) in Hvn. auto.
      * intros k Hk. rewrite key_mem_app. simpl. rewrite orb_false_r.
        destruct (H3 k Hk) as [Hkv|Hkq]; [|auto].
        destruct (Hv k Hkv) as [Hkp|Hkq].
        -- left. rewrite Hkp. reflexivity.
        -- simpl in Hkq. unfold key_mem in Hkq. simpl in Hkq.
           apply orb_prop in Hkq. destruct Hkq as [Hkx|Hkq].
           ++ left. rewrite Hkx. apply orb_true_r.
           ++ right. apply H4. exact Hkq.
      * right. split; [assumption|]. exists S. split; [assumption|].
        intros k Hk. apply Hin. apply H2. assumption.
Qed.

(** The search finds the target whenever the links lead to it from the
    source. *)
Lemma reachable_is_found :
  declared topology source = true ->
  declared topology target = true ->
  reaches topology source target ->
  exists full,
    verify_connectivity_path set_order topology source target
      = Some (Ok (true, full)).
Proof.
  intros Hs Ht Hreach.
  destruct (search_returns set_order topology source target) as [r Hr].
  rewrite Hr. rewrite (search_unfolds _ _ _ _ Hs Ht) in Hr.
  destruct (key_eqb source target) eqn:Hst.
  - inversion Hr. eauto.
  - destruct (bfs_loop_complete (device_count topology) []
                [(source, [source])] [source] r)
      as [[full ->]|(_ & S & HS & Hin)].
    + intros entry [<-|[]]. exact Hs.
    + intros x n Hx. discriminate.
    + intros k Hk. right. exact Hk.
    + exact Hr.
    + eauto.
    + exfalso.
      assert (Hsrc : key_mem source S = true).
      { apply Hin. simpl. unfold key_mem. simpl.
        rewrite key_eqb_refl. reflexivity. }
      pose proof (sealed_reaches S source target HS Hreach Hsrc Hst) as Hc.
      rewrite key_eqb_refl in Hc. discriminate.
Qed.

(** The devices within fewer links of the source than the shortest path in
    the queue is long have all been popped. *)
Lemma layer_popped (popped : list pykey) (queue : bfs_queue)
    (visited : list pykey) :
  (forall x n, key_mem x popped = true -> linked topology x n = true ->
     key_eqb n target = false /\ key_mem n visited = true) ->
  (forall k, key_mem k visited = true ->
     key_mem k popped = true \/ key_mem k (map fst queue) = true) ->
  key_mem source visited = true ->
  (forall entry k, In entry queue -> dist_le topology source k (fst entry) ->
     List.length (snd entry) <= S k) ->
  forall j z,
    dist_le topology source j z ->
    (forall entry, In entry queue -> S j < List.length (snd entry)) ->
    key_mem z popped = true.
Proof.
  intros Hp Hv Hsrc Hmin j z H.
  assert (Hq : forall j z, dist_le topology source j z ->
            key_mem z visited = true ->
            (forall entry, In entry queue -> S j < List.length (snd entry)) ->
            key_mem z popped = true).
  { intros j0 z0 Hd Hz Hlen. destruct (Hv z0 Hz) as [|Hzq]; [assumption|].
    apply key_mem_map_fst in Hzq. destruct Hzq as (entry & Hin & He).
    pose proof (Hmin entry j0 Hin (dist_le_eqb _ _ _ _ _ Hd He)) as Hle.
    specialize (Hlen entry Hin). lia. }
  induction H as [k y Hs | k z y Hz IH Hl]; intros Hlen.
  - apply (Hq k y); [constructor; assumption | | assumption].
    rewrite (key_mem_eqb _ _ _ Hs). assumption.
  - apply (Hq (S k) y); [econstructor; eassumption | | assumption].
    apply (Hp z y); [|assumption]. apply IH.
    intros entry Hin. specialize (Hlen entry Hin). lia.
Qed.

Lemma bfs_loop_shortest :
  key_eqb source target = false ->
  forall fuel popped queue visited len lows highs full,
    (forall entry, In entry queue -> declared topology (fst entry) = true) ->
    (forall x n, key_mem x popped = true -> linked topology x n = true ->
       key_eqb n target = false /\ key_mem n visited = true) ->
    (forall k, key_mem k visited = true ->
       key_mem k popped = true \/ key_mem k (map fst queue) = true) ->
    key_mem source visited = true ->
    (forall entry k, In entry queue -> dist_le topology source k (fst entry) ->
       List.length (snd entry) <= S k) ->
    queue = (lows ++ highs)%list ->
    (forall entry, In entry lows -> List.length (snd entry) = len) ->
    (forall entry, In entry highs -> List.length (snd entry) = S len) ->
    bfs_loop set_order fuel topology target queue visited
      = Some (Ok (true, full)) ->
    forall k c, dist_le topology source k c -> key_eqb c target = true ->
      List.length full <= S k.
Proof.
  intros Hst. induction fuel as [|fuel IH];
    intros popped queue visited len lows highs full
           Hq Hp Hv Hsrc Hmin Hlayers Hlow Hhigh H.
  - destruct queue as [|[x path] queue]; simpl in H; discriminate.
  - destruct queue as [|[x path] queue]; simpl in H; [discriminate|].
    pose proof (Hq (x, path) (or_introl eq_refl)) as Hx. simpl in Hx.
    destruct (neighbours_linked x Hx) as (nbrs & Hg & Hmem & Hdecl).
    rewrite Hg in H.
    (* the head holds a shortest path of the queue *)
    assert (Hhead : forall entry, In entry ((x, path) :: queue) ->
              List.length path <= List.length (snd entry)).
    { intros entry Hin. rewrite Hlayers in Hin.
      destruct lows as [|low lows'].
      - simpl in Hlayers, Hin. rewrite <- Hlayers in Hhigh.
        pose proof (Hhigh (x, path) (or_introl eq_refl)) as Hxl.
        pose proof (Hhigh entry) as Hel. rewrite Hlayers in Hel.
        specialize (Hel Hin). simpl in Hxl. lia.
      - simpl in Hlayers. inversion Hlayers; subst low.
        pose proof (Hlow (x, path) (or_introl eq_refl)) as Hxl.
        simpl in Hxl.
        apply in_app_iff in Hin. destruct Hin as [Hin|Hin].
        + rewrite (Hlow entry Hin). lia.
        + rewrite (Hhigh entry Hin). lia. }
    (* what is within fewer links than the head path is long is popped *)
    assert (Hnear : forall j z, dist_le topology source j z ->
              S j < List.length path -> key_mem z popped = true).
    { intros j z Hd Hj.
      apply (layer_popped popped ((x, path) :: queue) visited Hp Hv Hsrc Hmin
               j z Hd).
      intros entry Hin. specialize (Hhead entry Hin). lia. }
    (* no neighbour outside the visited set is nearer than the head path *)
    assert (Hfar : forall n k, linked topology x n = true ->
              dist_le topology source k n ->
              key_mem n visited = false \/ key_eqb n target = true ->
              List.length path <= k).
    { intros n k Hl Hd Hout.
      destruct (Nat.le_gt_cases (List.length path) k) as [|Hlt];
        [assumption|]. exfalso.
      destruct Hd as [k n Hs | k z n Hz Hzl].
      - destruct Hout as [Hout|Hout].
        + rewrite (key_mem_eqb _ _ _ Hs), Hsrc in Hout. discriminate.
        + rewrite key_eqb_sym in Hs.
          rewrite (key_eqb_trans _ _ target Hs) in Hout. congruence.
      - assert (Hzp : key_mem z popped = true) by (apply (Hnear k z Hz); lia).
        destruct (Hp z n Hzp Hzl) as [Hnt Hnv].
        destruct Hout as [Hout|Hout]; congruence. }
    destruct (scan_neighbours target path nbrs queue visited)
      as [found|queue' visited'] eqn:Hscan.
    + inversion H; subst found. intros k c Hd Hc.
      apply scan_found_path in Hscan.
      destruct Hscan as (n & Hn & Ht & ->).
      rewrite length_app. simpl.
      assert (Hl : linked topology x n = true)
        by (rewrite <- Hmem; apply key_mem_in; assumption).
      assert (Hnc : key_eqb c n = true).
      { rewrite key_eqb_sym in Ht. rewrite key_eqb_sym.
        rewrite (key_eqb_trans _ _ c Ht). rewrite key_eqb_sym. assumption. }
      pose proof (Hfar n k Hl (dist_le_eqb _ _ _ _ _ Hd Hnc)
                    (or_intror Ht)). lia.
    + destruct (scan_continue_visited _ _ _ _ _ _ _ Hscan)
        as (H1 & H2 & H3 & H4).
      destruct (scan_continue_new _ _ _ _ _ _ _ Hscan) as (new & Hq' & Hnew).
      assert (Hnewlen : forall entry, In entry new ->
                List.length (snd entry) = S (List.length path)).
      { intros entry He. destruct (Hnew entry He) as (n & _ & -> & _).
        simpl. rewrite length_app. simpl. lia. }
      assert (Hq2 : forall entry, In entry queue' ->
                declared topology (fst entry) = true).
      { apply (scan_continue_queue
                 (fun k => declared topology k = true) _ _ _ _ _ _ _ Hscan).
        - intros entry He. apply Hq. right. assumption.
        - assumption. }
      assert (Hp2 : forall x0 n, key_mem x0 (popped ++ [x]) = true ->
                linked topology x0 n = true ->
                key_eqb n target = false /\ key_mem n visited' = true).
      { intros x0 n Hx0 Hl. rewrite key_mem_app in Hx0.
        apply orb_prop in Hx0. destruct Hx0 as [Hx0|Hx0].
        - destruct (Hp x0 n Hx0 Hl) as [Ht Hn]. auto.
        - simpl in Hx0. rewrite orb_false_r in Hx0.
          rewrite (linked_eqb_l _ _ _ _ Hx0), <- Hmem in Hl.
          apply key_mem_exists in Hl. destruct Hl as (n' & Hn' & He).
          destruct (H1 n' Hn') as [Ht Hvn].
          rewrite (key_eqb_trans _ _ target He) in Ht.
          rewrite <- (key_mem_eqb _ _ _ He) in Hvn. auto. }
      assert (Hv2 : forall k, key_mem k visited' = true ->
                key_mem k (popped ++ [x]) = true \/
                key_mem k (map fst queue') = true).
      { intros k Hk. rewrite key_mem_app. simpl. rewrite orb_false_r.
        destruct (H3 k Hk) as [Hkv|Hkq]; [|auto].
        destruct (Hv k Hkv) as [Hkp|Hkq].
        - left. rewrite Hkp. reflexivity.
        - simpl in Hkq. unfold key_mem in Hkq. simpl in Hkq.
          apply orb_prop in Hkq. destruct Hkq as [Hkx|Hkq].
          + left. rewrite Hkx. apply orb_true_r.
          + right. apply H4. exact Hkq. }
      assert (Hmin2 : forall entry k, In entry queue' ->
                dist_le topology source k (fst entry) ->
                List.length (snd entry) <= S k).
      { intros entry k Hin Hd. rewrite Hq' in Hin.
        apply in_app_iff in Hin. destruct Hin as [Hin|Hin].
        - apply Hmin; [right|]; assumption.
        - destruct (Hnew entry Hin) as (n & Hn & -> & Hnv).
          simpl in *. rewrite length_app. simpl.
          assert (Hl : linked topology x n = true)
            by (rewrite <- Hmem; apply key_mem_in; assumption).
          pose proof (Hfar n k Hl Hd (or_introl Hnv)). lia. }
      destruct lows as [|low lows'].
      * (* the head was the first of the longer paths *)
        simpl in Hlayers.
        apply (IH (popped ++ [x])%list queue' visited' (S len) queue new full);
          auto.
        -- intros entry Hin. apply Hhigh. rewrite <- Hlayers. right.
           assumption.
        -- intros entry Hin. rewrite (Hnewlen entry Hin).
           assert (Hxl : List.length (snd (x, path)) = S len).
           { apply Hhigh. rewrite <- Hlayers. left. reflexivity. }
           simpl in Hxl. rewrite Hxl. reflexivity.
      * simpl in Hlayers. inversion Hlayers; subst low.
        apply (IH (popped ++ [x])%list queue' visited' len lows'
                 (highs ++ new)%list full); auto.
        -- rewrite Hq'. subst queue. rewrite app_assoc. reflexivity.
        -- intros entry Hin. apply Hlow. right. assumption.
        -- intros entry Hin. apply in_app_iff in Hin.
           destruct Hin as [Hin|Hin]; [auto|].
           rewrite (Hnewlen entry Hin).
           pose proof (Hlow (x, path) (or_introl eq_refl)) as Hxl.
           simpl in Hxl. rewrite Hxl. reflexivity.
Qed.

(** No walk from the source to the target has fewer links than the path the
    search returns. *)
Lemma found_path_is_shortest (full : list pykey) (k : nat) (c : pykey) :
  declared topology source = true ->
  declared topology target = true ->
  verify_connectivity_path set_order topology source target
    = Some (Ok (true, full)) ->
  dist_le topology source k c -> key_eqb c target = true ->
  List.length full <= S k.
Proof.
  intros Hs Ht H Hd Hc. rewrite (search_unfolds _ _ _ _ Hs Ht) in H.
  destruct (key_eqb source target) eqn:Hst.
  - inversion H; subst full. simpl. lia.
  - apply (bfs_loop_shortest Hst (device_count topology) []
             [(source, [source])] [source] 1 [(source, [source])] [] full)
      with (c := c); auto.
    + intros entry [<-|[]]. exact Hs.
    + intros x n Hx. discriminate.
    + simpl. unfold key_mem. simpl. rewrite key_eqb_refl. reflexivity.
    + intros entry j [<-|[]] _. simpl. lia.
    + intros entry [<-|[]]. reflexivity.
    + intros entry [].
Qed.

(** The search ends with a path, or with [(False, [])] when nothing the
    source reaches equals the target. *)
Lemma search_decides :
  declared topology source = true ->
  declared topology target = true ->
  (exists full,
     verify_connectivity_path set_order topology source target
       = Some (Ok (true, full))) \/
  (verify_connectivity_path set_order topology source target
     = Some (Ok (false, [])) /\
   key_eqb source target = false /\
   forall c, reaches topology source c -> key_eqb c target = false).
Proof.
  intros Hs Ht.
  destruct (search_returns set_order topology source target) as [r Hr].
  rewrite Hr. rewrite (search_unfolds _ _ _ _ Hs Ht) in Hr.
  destruct (key_eqb source target) eqn:Hst.
  - inversion Hr. eauto.
  - destruct (bfs_loop_complete (device_count topology) []
                [(source, [source])] [source] r)
      as [[full ->]|(-> & S & HS & Hin)].
    + intros entry [<-|[]]. exact Hs.
    + intros x n Hx. discriminate.
    + intros k Hk. right. exact Hk.
    + exact Hr.
    + eauto.
    + right. split; [reflexivity|]. split; [reflexivity|].
      intros c Hc.
      assert (Hsrc : key_mem source S = true).
      { apply Hin. simpl. unfold key_mem. simpl.
        rewrite key_eqb_refl. reflexivity. }
      exact (sealed_reaches S source c HS Hc Hsrc Hst).
Qed.

End Correct.

(** ** What [validate_topology] accepts and what it raises *)

Lemma missing_from_none (xs : list string) (c : pyval) :
  missing_from xs c = Ok [] <-> forallb (fun x => contains x c) xs = true.
Proof.
  unfold contains. induction xs as [|x xs IH]; simpl; [tauto|].
  destruct (py_in (KStr x) c) as [b|e]; simpl.
  - destruct (missing_from xs c) as [ms|e']; simpl.
    + destruct b; simpl.
      * rewrite <- IH. reflexivity.
      * split; discriminate.
    + destruct b; simpl; [|split; discriminate].
      rewrite <- IH. split; discriminate.
  - split; discriminate.
Qed.

Lemma check_device_accepted (item : pykey * pyval) :
  check_device item = Ok tt <-> device_accepted (snd item) = true.
Proof.
  destruct item as [n cfg]. unfold check_device, device_accepted.
  cbn [snd].
  pose proof (missing_from_none required_device_props cfg) as H.
  simpl forallb in H. rewrite andb_true_r in H. rewrite <- H.
  destruct (missing_from required_device_props cfg) as [[|m ms]|e]; simpl;
    split; intros H'; try reflexivity; discriminate.
Qed.

Lemma check_endpoint_accepted (names : list pykey) (i : nat) (e : pyval) :
  check_endpoint names i e = Ok tt <-> endpoint_ok names e = true.
Proof.
  split; [|apply check_endpoint_ok].
  unfold check_endpoint, endpoint_ok. intros H.
  apply bind_ok in H. destruct H as (b & Hin & H).
  destruct b; simpl in H; [|discriminate].
  apply bind_ok in H. destruct H as (v & Hget & H).
  destruct e as [| | | | |d]; try discriminate.
  simpl in Hget. simpl.
  destruct (dict_lookup (KStr "device") d) as [w|]; [|discriminate].
  inversion Hget; subst w.
  destruct (to_key v) as [k|]; [|discriminate].
  destruct (key_mem k names); [reflexivity | discriminate].
Qed.

Lemma for_each_forallb {X : Type} (body : X -> result unit) (ok : X -> bool)
    (xs : list X) :
  (forall x, body x = Ok tt <-> ok x = true) ->
  for_each body xs = Ok tt <-> forallb ok xs = true.
Proof.
  intros H. induction xs as [|x xs IH]; simpl; [tauto|].
  rewrite andb_true_iff, <- IH, <- H.
  destruct (body x) as [[]|e]; simpl; intuition congruence.
Qed.

Lemma check_connection_accepted (names : list pykey) (i : nat) (c : pyval) :
  check_connection names (i, c) = Ok tt <-> connection_accepted names c = true.
Proof.
  unfold check_connection, connection_accepted.
  destruct c as [| | | | |d]; simpl; try (split; discriminate).
  destruct (dict_lookup (KStr "endpoints") d) as [ev|] eqn:Hl.
  - assert (Hk : key_mem (KStr "endpoints") (dict_keys d) = true)
      by (apply dict_lookup_mem; eauto).
    rewrite Hk. simpl.
    destruct (py_iter ev) as [es|e]; simpl; [|split; discriminate].
    apply for_each_forallb. intros x. apply check_endpoint_accepted.
  - assert (Hk : key_mem (KStr "endpoints") (dict_keys d) = false).
    { destruct (key_mem (KStr "endpoints") (dict_keys d)) eqn:Hm;
        [|reflexivity].
      apply dict_lookup_mem in Hm. destruct Hm as [v Hv]. congruence. }
    rewrite Hk. simpl. split; discriminate.
Qed.

Lemma for_each_enumerate_from (names : list pykey) (cs : list pyval) :
  forall i,
    for_each (check_connection names) (enumerate_from i cs) = Ok tt <->
    forallb (connection_accepted names) cs = true.
Proof.
  induction cs as [|c cs IH]; intros i; [simpl; tauto|].
  cbn [enumerate_from for_each forallb].
  rewrite andb_true_iff, <- (IH (S i)), <- (check_connection_accepted names i c).
  destruct (check_connection names (i, c)) as [[]|e]; cbn [bind];
    intuition congruence.
Qed.

Lemma validate_checks_true (topology : pyval) (b : bool) :
  validate_checks topology = Ok b -> b = true.
Proof.
  unfold validate_checks. intros H.
  apply bind_ok in H. destruct H as (missing & _ & H).
  destruct missing; [|discriminate].
  apply bind_ok in H. destruct H as (dv & _ & H).
  destruct dv; try discriminate.
  apply bind_ok in H. destruct H as ([] & _ & H).
  apply bind_ok in H. destruct H as (cv & _ & H).
  destruct cv; try discriminate.
  apply bind_ok in H. destruct H as ([] & _ & H).
  inversion H. reflexivity.
Qed.

Lemma validate_checks_accepted (topology : pyval) :
  validate_checks topology = Ok true <-> accepted topology = true.
Proof.
  unfold accepted. split.
  - intros H. unfold validate_checks in H.
    apply bind_ok in H. destruct H as (missing & Hmiss & H).
    destruct missing; [|discriminate].
    apply bind_ok in H. destruct H as (dv & Hdv & H).
    destruct topology as [| | | | |d]; try discriminate.
    apply missing_from_none in Hmiss. unfold contains in Hmiss.
    simpl in Hmiss. rewrite !andb_true_iff in Hmiss.
    destruct Hmiss as (Hn & Hd & Hc & _).
    simpl in Hdv. simpl. rewrite Hn. simpl.
    destruct (dict_lookup (KStr "devices") d) as [dv'|]; [|discriminate].
    inversion Hdv; subst dv'.
    destruct dv as [| | | | |devices]; try discriminate.
    apply bind_ok in H. destruct H as ([] & Hdevs & H).
    apply bind_ok in H. destruct H as (cv & Hcv & H).
    simpl in Hcv.
    destruct (dict_lookup (KStr "connections") d) as [cv'|]; [|discriminate].
    inversion Hcv; subst cv'.
    destruct cv as [| | | |connections|]; try discriminate.
    apply bind_ok in H. destruct H as ([] & Hconns & _).
    apply andb_true_iff. split.
    + apply (for_each_forallb check_device); [|assumption].
      intros x. apply check_device_accepted.
    + apply (for_each_enumerate_from _ _ 0). assumption.
  - intros H. apply andb_prop in H. destruct H as [Hname H].
    destruct (field "devices" topology) as [dv|] eqn:Hdev; [|discriminate].
    destruct dv as [| | | | |devices]; try discriminate.
    destruct (field "connections" topology) as [cv|] eqn:Hconn;
      [|discriminate].
    destruct cv as [| | | |connections|]; try discriminate.
    apply andb_prop in H. destruct H as [Hds Hcs].
    pose proof (field_has_key _ _ _ Hdev) as Hkd.
    pose proof (field_has_key _ _ _ Hconn) as Hkc.
    apply field_dict in Hdev. destruct Hdev as (d & -> & Hld).
    simpl in Hname, Hkd, Hkc, Hconn.
    unfold validate_checks. simpl.
    rewrite Hname, Hkd, Hkc. simpl. rewrite Hld. simpl.
    assert (Hloop : for_each check_device devices = Ok tt).
    { apply (for_each_forallb check_device
               (fun item => device_accepted (snd item))); [|assumption].
      intros x. apply check_device_accepted. }
    rewrite Hloop. simpl. rewrite Hconn. simpl.
    assert (Hloop' : for_each (check_connection (dict_keys devices))
                       (enumerate connections) = Ok tt)
      by (apply (for_each_enumerate_from _ _ 0); assumption).
    rewrite Hloop'. reflexivity.
Qed.

Lemma accepted_truthy (topology : pyval) :
  accepted topology = true -> truthy topology = true.
Proof.
  unfold accepted. intros H. apply andb_prop in H. destruct H as [H _].
  apply has_key_dict in H. destruct H as (d & -> & H).
  destruct d; [discriminate | reflexivity].
Qed.


(** X2. [validate_topology] returns [True] exactly on the documents that are
    a mapping with the keys [name], [devices] and [connections], whose
    [devices] is a mapping of configurations that contain [type] and
    [management], and whose [connections] is a list of mappings with an
    [endpoints] value that yields mappings naming declared devices. *)
Theorem validate_topology_accepts_iff (topology : pyval) :
  validate_topology topology = Ok true <-> accepted topology = true.
Proof.
  split.
  - unfold validate_topology. destruct (truthy topology); simpl;
      [|discriminate].
    destruct (validate_checks topology) as [b|e] eqn:H.
    + intros Hb. inversion Hb; subst b.
      apply validate_checks_accepted. assumption.
    + destruct e; discriminate.
  - intros H. unfold validate_topology.
    rewrite (accepted_truthy _ H). simpl.
    apply validate_checks_accepted in H. rewrite H. reflexivity.
Qed.

Lemma validate_topology_accepts_iff_witness :
  accepted loose_lab = true /\ validate_topology loose_lab = Ok true.
Proof.
  split; [reflexivity|].
  apply (proj2 (validate_topology_accepts_iff loose_lab)). reflexivity.
Defined.

(** ** The queries on a validated topology *)

Lemma validated_connections (topology : pyval) :
  validate_topology topology = Ok true ->
  connections_accepted topology = true.
Proof.
  unfold validate_topology. destruct (truthy topology); simpl;
    [|discriminate].
  destruct (validate_checks topology) as [b|e] eqn:H.
  - intros Hb. inversion Hb; subst b.
    apply accepted_connections. apply validate_checks_accepted. assumption.
  - destruct e; discriminate.
Qed.

(** The search answers only for declared devices. *)
Lemma search_ok_declared (set_order : list pykey -> list pykey)
    (topology : pyval) (source target : pykey) (r : bool * list pykey) :
  verify_connectivity_path set_order topology source target = Some (Ok r) ->
  declared topology source = true /\ declared topology target = true.
Proof.
  unfold verify_connectivity_path, verify_connectivity_path_fuel, declared.
  destruct (truthy topology); simpl; [|discriminate].
  destruct topology as [| | | | |d]; simpl; try discriminate.
  destruct (dict_lookup (KStr "devices") d) as [v|]; simpl; [|discriminate].
  destruct v as [| | | | |devices]; try discriminate.
  destruct (key_mem source (dict_keys devices)); simpl; [|discriminate].
  destruct (key_mem target (dict_keys devices)); simpl; [|discriminate].
  auto.
Qed.

Lemma last_cons_default (b : pykey) (rest : list pykey) (a a' : pykey) :
  last (b :: rest) a = last (b :: rest) a'.
Proof.
  revert b. induction rest as [|c rest IH]; intros b; [reflexivity|].
  change (last (c :: rest) a = last (c :: rest) a'). apply IH.
Qed.

Lemma walk_reaches (topology : pyval) (w : list pykey) :
  walk topology w ->
  forall a, hd_error w = Some a -> reaches topology a (last w a).
Proof.
  induction 1 as [a|a b rest Hl Hw IH]; intros a' Ha; inversion Ha; subst a'.
  - constructor.
  - econstructor; [eassumption|].
    change (last (a :: b :: rest) a) with (last (b :: rest) a).
    rewrite (last_cons_default b rest a b).
    apply IH. reflexivity.
Qed.

Lemma reaches_eqb (topology : pyval) (a c c' : pykey) :
  reaches topology a c -> key_eqb c c' = true ->
  key_eqb a c' = true \/ reaches topology a c'.
Proof.
  induction 1 as [a|a b c Hl Hr IH]; intros Hc; [auto|].
  right. destruct (IH Hc) as [Hb|Hb].
  - econstructor; [|constructor].
    rewrite <- (linked_eqb_r _ _ _ _ Hb). assumption.
  - econstructor; eassumption.
Qed.

Lemma walk_dist (topology : pyval) (source : pykey) (rest : list pykey) :
  forall k a,
    dist_le topology source k a -> walk topology (a :: rest) ->
    dist_le topology source (k + List.length rest) (last (a :: rest) a).
Proof.
  induction rest as [|b rest IH]; intros k a Hd Hw.
  - simpl. rewrite Nat.add_0_r. assumption.
  - inversion Hw as [|a' b' rest' Hl Hw']; subst.
    change (last (a :: b :: rest) a) with (last (b :: rest) a).
    rewrite (last_cons_default b rest a b).
    simpl List.length. rewrite Nat.add_succ_r.
    apply (IH (S k) b); [|assumption].
    econstructor; eassumption.
Qed.

Lemma walk_declared (topology : pyval) (w : list pykey) :
  connections_accepted topology = true ->
  walk topology w ->
  forall a, hd_error w = Some a -> declared topology a = true ->
  forall k, In k w -> declared topology k = true.
Proof.
  intros Hacc. induction 1 as [a|a b rest Hl Hw IH]; intros a' Ha Hd k Hk;
    inversion Ha; subst a'.
  - destruct Hk as [<-|[]]. assumption.
  - destruct Hk as [<-|Hk]; [assumption|].
    apply (IH b eq_refl); [|assumption].
    unfold linked in Hl. apply andb_prop in Hl. destruct Hl as [_ Hl].
    eapply adjacent_declared_accepted; eauto.
Qed.



(** X4. A path [verify_connectivity_path] returns on a validated topology
    starts at the source, ends at the target, joins each device to the next
    by a connection that lists both, and holds declared devices only. *)
Theorem validated_path_is_walk (set_order : list pykey -> list pykey)
    (topology : pyval) (source target : pykey) (full : list pykey) :
  (forall s, Permutation s (set_order s)) ->
  validate_topology topology = Ok true ->
  verify_connectivity_path set_order topology source target
    = Some (Ok (true, full)) ->
  walk topology full /\ hd_error full = Some source /\
  key_eqb (last full source) target = true /\
  forall k, In k full -> declared topology k = true.
Proof.
  intros Hperm Hv H.
  pose proof (validated_connections _ Hv) as Hacc.
  destruct (search_ok_declared _ _ _ _ _ H) as [Hs _].
  destruct (found_path_is_walk set_order Hperm topology Hacc source target
              full H) as (Hw & Hhd & Hlast).
  split; [assumption|]. split; [assumption|]. split; [assumption|].
  eapply walk_declared; eauto.
Qed.

Lemma validated_path_is_walk_witness :
  walk chain_abc [A; B; C] /\ hd_error [A; B; C] = Some A /\
  key_eqb (last [A; B; C] A) C = true /\
  forall k, In k [A; B; C] -> declared chain_abc k = true.
Proof.
  apply (validated_path_is_walk (fun s => s) chain_abc A C [A; B; C]);
    [intros s; apply Permutation_refl | reflexivity | reflexivity].
Defined.

(** X5. The path [verify_connectivity_path] returns on a validated topology
    is a shortest one: no sequence of linked devices from the source to the
    target has fewer devices. *)
Theorem validated_path_is_shortest (set_order : list pykey -> list pykey)
    (topology : pyval) (source target : pykey) (full w : list pykey) :
  (forall s, Permutation s (set_order s)) ->
  validate_topology topology = Ok true ->
  verify_connectivity_path set_order topology source target
    = Some (Ok (true, full)) ->
  walk topology w -> hd_error w = Some source ->
  key_eqb (last w source) target = true ->
  List.length full <= List.length w.
Proof.
  intros Hperm Hv H Hw Hhd Hlast.
  pose proof (validated_connections _ Hv) as Hacc.
  destruct (search_ok_declared _ _ _ _ _ H) as [Hs Ht].
  destruct w as [|a rest]; [discriminate|].
  inversion Hhd; subst a.
  assert (Hd : dist_le topology source (0 + List.length rest)
                 (last (source :: rest) source)).
  { apply walk_dist; [|assumption].
    apply dist_le_source. apply key_eqb_refl. }
  exact (found_path_is_shortest set_order Hperm topology Hacc source target
           full _ _ Hs Ht H Hd Hlast).
Qed.

Lemma validated_path_is_shortest_witness :
  List.length [A; B; C] <= List.length [A; B; A; B; C].
Proof.
  apply (validated_path_is_shortest (fun s => s) chain_abc A C
           [A; B; C] [A; B; A; B; C]);
    [intros s; apply Permutation_refl | reflexivity | reflexivity | | reflexivity
    | reflexivity].
  repeat (constructor; [reflexivity|]). constructor.
Defined.

Lemma validated_truthy (topology : pyval) :
  validate_topology topology = Ok true -> truthy topology = true.
Proof.
  unfold validate_topology. destruct (truthy topology);
    [reflexivity | discriminate].
Qed.

(** X6. On a validated topology [verify_connectivity_path] raises the
    [ValueError] that names the source when the source is not declared,
    whatever the target is, and the one that names the target when only the
    target is not declared. *)
Theorem verify_undeclared_device (set_order : list pykey -> list pykey)
    (topology : pyval) (source target : pykey) :
  validate_topology topology = Ok true ->
  (declared topology source = false ->
   verify_connectivity_path set_order topology source target
   = Some (Raise (ValueError (source_not_found source)))) /\
  (declared topology source = true -> declared topology target = false ->
   verify_connectivity_path set_order topology source target
   = Some (Raise (ValueError (target_not_found target)))).
Proof.
  intros Hv.
  pose proof (validated_truthy _ Hv) as Htruthy.
  destruct (connections_accepted_inv _ (validated_connections _ Hv))
    as (d & devices & -> & Hld & _).
  unfold verify_connectivity_path, verify_connectivity_path_fuel, declared.
  rewrite Htruthy. simpl. rewrite Hld.
  split.
  - intros ->. reflexivity.
  - intros -> ->. reflexivity.
Qed.

Lemma verify_undeclared_device_witness :
  verify_connectivity_path (fun s => s) chain_abc D A
  = Some (Raise (ValueError "Source device 'D' not found in the topology")) /\
  verify_connectivity_path (fun s => s) chain_abc A D
  = Some (Raise (ValueError "Target device 'D' not found in the topology")).
Proof.
  destruct (verify_undeclared_device (fun s => s) chain_abc D A eq_refl)
    as [Hs _].
  destruct (verify_undeclared_device (fun s => s) chain_abc A D eq_refl)
    as [_ Ht].
  split; [apply Hs | apply Ht]; reflexivity.
Defined.

(** X7. On a validated topology [get_device_connections] returns, for a
    declared device, exactly the connections that list it among their
    endpoints, in the order of the document, and raises the [ValueError]
    that names the device when it is not declared. *)
Theorem get_device_connections_selects (topology : pyval) (x : pykey) :
  validate_topology topology = Ok true ->
  get_device_connections topology x
  = if declared topology x
    then Ok (filter (lists x) (connections_of topology))
    else Raise (ValueError (device_not_found x)).
Proof.
  intros Hv.
  pose proof (validated_connections _ Hv) as Hacc.
  destruct (declared topology x) eqn:Hx.
  - apply get_device_connections_accepted; assumption.
  - pose proof (validated_truthy _ Hv) as Htruthy.
    destruct (connections_accepted_inv _ Hacc)
      as (d & devices & -> & Hld & _).
    unfold get_device_connections. unfold declared in Hx. simpl in Hx.
    rewrite Hld in Hx.
    rewrite Htruthy. cbn [negb py_get]. rewrite Hld.
    cbn [bind py_in]. rewrite Hx. reflexivity.
Qed.

Lemma get_device_connections_selects_witness :
  get_device_connections chain_abc B = Ok [link ["A"; "B"]; link ["B"; "C"]] /\
  get_device_connections chain_abc D
  = Raise (ValueError "Device 'D' not found in the topology").
Proof.
  split.
  - apply (get_device_connections_selects chain_abc B). reflexivity.
  - apply (get_device_connections_selects chain_abc D). reflexivity.
Defined.

(** X8. On a validated topology being directly connected is mutual between
    devices with truthy names: a device that [get_connected_devices] returns
    for [x] has [x] among the devices returned for it. *)
Theorem get_connected_devices_mutual (set_order : list pykey -> list pykey)
    (topology : pyval) (x n : pykey) (connected_devices : list pykey) :
  (forall s, Permutation s (set_order s)) ->
  validate_topology topology = Ok true ->
  key_truthy x = true ->
  get_connected_devices set_order topology x = Ok connected_devices ->
  In n connected_devices ->
  exists back,
    get_connected_devices set_order topology n = Ok back /\
    key_mem x back = true.
Proof.
  intros Hperm Hv Hx Hg Hn.
  pose proof (validated_connections _ Hv) as Hacc.
  destruct (connections_accepted_inv _ Hacc) as (d & devices & Ht & Hld & _).
  assert (Hdx : declared topology x = true).
  { unfold declared. rewrite Ht. simpl. rewrite Hld.
    eapply get_connected_devices_declared; [|eassumption].
    rewrite Ht. simpl. exact Hld. }
  destruct (neighbours_accepted set_order topology x Hperm Hacc Hdx)
    as (nbrs & Hg' & _ & Hmem & Hdecl).
  rewrite Hg in Hg'. inversion Hg'; subst nbrs.
  pose proof (Hdecl n Hn) as Hdn.
  apply key_mem_in in Hn. rewrite Hmem in Hn.
  destruct (neighbours_accepted set_order topology n Hperm Hacc Hdn)
    as (back & Hb & _ & Hmemb & _).
  exists back. split; [assumption|].
  rewrite Hmemb. unfold linked in *.
  apply andb_prop in Hn. destruct Hn as [_ Hadj].
  rewrite Hx, adjacent_sym. assumption.
Qed.

Lemma get_connected_devices_mutual_witness :
  exists back,
    get_connected_devices (fun s => s) chain_abc A = Ok back /\
    key_mem B back = true.
Proof.
  apply (get_connected_devices_mutual (fun s => s) chain_abc B A [A; C]);
    [intros s; apply Permutation_refl | reflexivity | reflexivity
    | reflexivity | left; reflexivity].
Defined.

(** ** What [load_topology] returns *)

Lemma load_failure_keeps_topology_witness :
  load_topology (fun _ => false) (fun _ => "") yaml_load_empty yaml_load_empty
                chain_abc "labs/missing.yaml"
  = (chain_abc,
     Raise (FileNotFoundError "Topology file not found: labs/missing.yaml")).
Proof.
  apply (proj1 (load_failure_keeps_topology (fun _ => false) (fun _ => "")
                  yaml_load_empty yaml_load_empty chain_abc
                  "labs/missing.yaml")).
  reflexivity.
Defined.

Lemma devices_counted_len (document : pyval) :
  devices_counted document = true <->
  exists n,
    (devices <- py_get document "devices" (PList []) ;; py_len devices) = Ok n.
Proof.
  unfold devices_counted.
  destruct document as [| | | | |d]; simpl;
    try (split; [discriminate | intros [n H]; discriminate]).
  destruct (dict_lookup (KStr "devices") d) as [v|]; simpl.
  - destruct (py_len v) as [n|e].
    + split; eauto.
    + split; [discriminate | intros [n H]; discriminate].
  - split; eauto.
Qed.

(** X10. [load_topology] returns a document exactly when the file exists,
    the parser that the lower-cased extension selects produced the document,
    and the document is a mapping whose [devices] value, if any, has a
    length; the manager then holds the document it returned, whatever it
    held before. *)
Theorem load_topology_returns_iff (isfile : string -> bool)
    (read_text : string -> string)
    (yaml_safe_load json_load : string -> result pyval)
    (held held' document : pyval) (topology_file : string) :
  load_topology isfile read_text yaml_safe_load json_load held topology_file
  = (held', Ok document) <->
  held' = document /\
  isfile topology_file = true /\
  parser_gives read_text yaml_safe_load json_load topology_file (Ok document) /\
  devices_counted document = true.
Proof.
  split.
  - unfold load_topology, parser_gives.
    destruct (isfile topology_file); simpl; [|discriminate].
    set (ext := lower (splitext_ext topology_file)).
    set (len_of := fun t : pyval =>
                     devices <- py_get t "devices" (PList []) ;;
                     py_len devices).
    assert (Hfin : forall r,
              match r with
              | Raise e => (held, Raise e)
              | Ok topology =>
                  match len_of topology with
                  | Raise e => (topology, Raise e)
                  | Ok _ => (topology, Ok topology)
                  end
              end = (held', Ok document) ->
              r = Ok document /\ held' = document /\
              devices_counted document = true).
    { intros [t|e] H; [|discriminate].
      destruct (len_of t) as [n|e] eqn:Hn; [|discriminate].
      inversion H; subst. split; [reflexivity|]. split; [reflexivity|].
      apply devices_counted_len. eauto. }
    destruct (String.eqb ext ".yaml") eqn:H1; simpl.
    + intros H. apply Hfin in H. destruct H as (Hr & Hh & Hc).
      apply String.eqb_eq in H1. tauto.
    + destruct (String.eqb ext ".yml") eqn:H2; simpl.
      * intros H. apply Hfin in H. destruct H as (Hr & Hh & Hc).
        apply String.eqb_eq in H2. tauto.
      * destruct (String.eqb ext ".json") eqn:H3; simpl.
        -- intros H. apply Hfin in H. destruct H as (Hr & Hh & Hc).
           apply String.eqb_eq in H3. tauto.
        -- discriminate.
  - intros (-> & Hf & Hp & Hc).
    rewrite (load_parsed _ _ _ _ _ _ _ Hf Hp).
    apply devices_counted_len in Hc. destruct Hc as [n Hn].
    rewrite Hn. reflexivity.
Qed.

Lemma load_topology_returns_iff_witness :
  load_topology (fun _ => true) (fun _ => "") (fun _ => Ok chain_abc)
                yaml_load_empty PNone "labs/chain.YML"
  = (chain_abc, Ok chain_abc).
Proof.
  apply (proj2 (load_topology_returns_iff (fun _ => true) (fun _ => "")
                  (fun _ => Ok chain_abc) yaml_load_empty PNone chain_abc
                  chain_abc "labs/chain.YML")).
  split; [reflexivity|]. split; [reflexivity|]. split; [|reflexivity].
  left. split; [right; reflexivity | reflexivity].
Defined.

(** ** Rendering: errors, plain text and the warning *)

Lemma replace_from_plain (old' new s : string) :
  mentions "{"%char s = false ->
  replace_from (String "{"%char old') new 0 s = s.
Proof.
  induction s as [|c s IH]; intros H; [reflexivity|].
  simpl in H. apply orb_false_iff in H. destruct H as [Hc Hs].
  cbn [replace_from String.prefix].
  destruct (ascii_dec "{"%char c) as [<-|Hne]; [discriminate|].
  rewrite (IH Hs). reflexivity.
Qed.

Lemma find_unreplaced_plain (s : string) :
  mentions "{"%char s = false -> find_unreplaced None s = [].
Proof.
  induction s as [|c s IH]; intros H; [reflexivity|].
  simpl in H. apply orb_false_iff in H. destruct H as [Hc Hs].
  simpl. rewrite Hc. destruct (Ascii.eqb c "}"%char); auto.
Qed.

Section RenderEdges.

Variable repr_compound : pyval -> string.

Lemma replace_variables_plain (variables : list (pykey * pyval))
    (s : string) :
  string_keys variables = true ->
  mentions "{"%char s = false ->
  replace_variables repr_compound variables s = Ok s.
Proof.
  induction variables as [|[k value] rest IH]; intros Hk Hs; [reflexivity|].
  simpl in Hk. apply andb_prop in Hk. destruct Hk as [Hkey Hrest].
  destruct k as [| | |key]; try discriminate.
  cbn [replace_variables]. rewrite py_replace_placeholder.
  unfold placeholder. cbn [append].
  rewrite (replace_from_plain _ _ _ Hs). auto.
Qed.

Lemma replace_variables_app (v1 v2 : list (pykey * pyval)) (s : string) :
  replace_variables repr_compound (v1 ++ v2) s
  = (mid <- replace_variables repr_compound v1 s ;;
     replace_variables repr_compound v2 mid).
Proof.
  revert s. induction v1 as [|[k value] rest IH]; intros s; [reflexivity|].
  destruct k as [| | |key]; try reflexivity.
  cbn [app replace_variables]. apply IH.
Qed.

Lemma replace_variables_raises (variables : list (pykey * pyval))
    (s : string) :
  string_keys variables = false ->
  replace_variables repr_compound variables s = Raise (Builtin TypeError).
Proof.
  revert s. induction variables as [|[k value] rest IH]; intros s Hk;
    [discriminate|].
  destruct k as [| | |key]; try reflexivity.
  simpl in Hk. cbn [replace_variables]. auto.
Qed.

(** X11. [render_template] raises [TypeError], and logs no warning, as soon
    as one key of the variables is not a string, wherever it stands among
    them and whether or not its placeholder could occur. *)
Theorem render_template_key_error (template_content : string)
    (variables : list (pykey * pyval)) :
  string_keys variables = false ->
  render_template repr_compound template_content variables
  = (Raise (Builtin TypeError), []).
Proof.
  intros Hk. unfold render_template.
  rewrite (replace_variables_raises _ _ Hk). reflexivity.
Qed.

(** X12. A template with no opening brace comes back as it is, with no
    warning, whatever the variables are, as long as their keys are
    strings. *)
Theorem render_template_plain_text (template_content : string)
    (variables : list (pykey * pyval)) :
  string_keys variables = true ->
  mentions "{"%char template_content = false ->
  render_template repr_compound template_content variables
  = (Ok template_content, []).
Proof.
  intros Hk Hs. unfold render_template, unreplaced_vars.
  rewrite (replace_variables_plain _ _ Hk Hs).
  rewrite (find_unreplaced_plain _ Hs). reflexivity.
Qed.

(** X13. The variables are applied one after the other to the text the
    earlier ones left: rendering with two groups of variables in a row is
    rendering with the first group and then rendering the result with the
    second, so a value put in by the first group is open to the second. *)
Theorem render_template_in_sequence (template_content : string)
    (v1 v2 : list (pykey * pyval)) :
  render_template repr_compound template_content (v1 ++ v2)
  = match fst (render_template repr_compound template_content v1) with
    | Ok mid => render_template repr_compound mid v2
    | Raise e => (Raise e, [])
    end.
Proof.
  unfold render_template. rewrite replace_variables_app.
  destruct (replace_variables repr_compound v1 template_content)
    as [mid|e]; cbn [bind fst].
  - destruct (unreplaced_vars mid); reflexivity.
  - reflexivity.
Qed.

End RenderEdges.

Lemma render_template_key_error_witness :
  render_template (fun _ => "") "hostname {name}"
    [(KStr "name", PStr "r1"); (KInt 7, PStr "x")]
  = (Raise (Builtin TypeError), []).
Proof.
  apply (render_template_key_error (fun _ => "") "hostname {name}"
           [(KStr "name", PStr "r1"); (KInt 7, PStr "x")]).
  reflexivity.
Defined.

Lemma render_template_plain_text_witness :
  render_template (fun _ => "") "no shutdown}" [(KStr "name", PStr "r1")]
  = (Ok "no shutdown}", []).
Proof.
  apply (render_template_plain_text (fun _ => "") "no shutdown}"
           [(KStr "name", PStr "r1")]); reflexivity.
Defined.

(** ** The names the warning lists *)

Lemma mentions_app (c : ascii) (a b : string) :
  mentions c (a ++ b) = mentions c a || mentions c b.
Proof.
  induction a as [|x a IH]; simpl; [reflexivity|].
  rewrite IH, orb_assoc. reflexivity.
Qed.

Lemma find_unreplaced_closing (mid after : string) :
  mentions "{"%char mid = false -> mentions "}"%char mid = false ->
  forall pre, pre ++ mid <> "" ->
    In (pre ++ mid) (find_unreplaced (Some pre) (mid ++ String "}"%char after)).
Proof.
  induction mid as [|c mid IH]; intros Ho Hc pre Hne.
  - rewrite string_app_nil in *. simpl.
    destruct pre as [|a b]; [congruence|]. left. reflexivity.
  - simpl in Ho, Hc. apply orb_false_iff in Ho, Hc.
    destruct Ho as [Ho Ho'], Hc as [Hc Hc'].
    cbn [append find_unreplaced]. rewrite Ho, Hc.
    assert (E : pre ++ String c mid = (pre ++ String c "") ++ mid)
      by (rewrite string_app_assoc; reflexivity).
    rewrite E in *. apply IH; assumption.
Qed.

Lemma find_unreplaced_occurs (name s : string) :
  variable_name name -> occurs (placeholder name) s ->
  forall cur, In name (find_unreplaced cur s).
Proof.
  intros (Hne & Ho & Hc). induction s as [|c s IH]; intros Hocc cur.
  - exfalso. revert Hocc. apply occurs_nil. discriminate.
  - apply occurs_cons in Hocc. destruct Hocc as [Hp|Hocc].
    + apply prefix_app in Hp. destruct Hp as [after Hs].
      unfold placeholder in Hs. cbn [append] in Hs. inversion Hs; subst c s.
      cbn [find_unreplaced]. cbn [Ascii.eqb Bool.eqb andb].
      rewrite string_app_assoc. cbn [append].
      apply (find_unreplaced_closing name after Ho Hc ""). assumption.
    + specialize (IH Hocc). cbn [find_unreplaced].
      destruct (Ascii.eqb c "{"%char); [apply IH|].
      destruct (Ascii.eqb c "}"%char).
      * destruct cur as [[|a b]|]; try apply IH. right. apply IH.
      * destruct cur; apply IH.
Qed.

Lemma find_unreplaced_sound (name s : string) :
  forall cur,
    (forall pre, cur = Some pre ->
       mentions "{"%char pre = false /\ mentions "}"%char pre = false) ->
    In name (find_unreplaced cur s) ->
    variable_name name /\
    (occurs (placeholder name) s \/
     exists pre mid after,
       cur = Some pre /\ s = mid ++ String "}"%char after /\
       name = pre ++ mid).
Proof.
  induction s as [|c s IH]; intros cur Hcur Hin; [destruct Hin|].
  cbn [find_unreplaced] in Hin.
  destruct (Ascii.eqb c "{"%char) eqn:Hco.
  - apply Ascii.eqb_eq in Hco. subst c.
    destruct (IH (Some "") ) as [Hv [Hocc|(pre & mid & after & Hp & Hs & Hn)]];
      [intros pre Hp; inversion Hp; auto | assumption | | ].
    + split; [assumption|]. left. apply (occurs_app_r _ "{" _ Hocc).
    + split; [assumption|]. left. inversion Hp; subst pre.
      simpl in Hn. subst mid. exists "", after.
      unfold placeholder. cbn [append]. rewrite Hs, string_app_assoc.
      reflexivity.
  - destruct (Ascii.eqb c "}"%char) eqn:Hcc.
    + apply Ascii.eqb_eq in Hcc. subst c.
      assert (Hrest : In name (find_unreplaced None s) ->
                variable_name name /\
                (occurs (placeholder name) (String "}"%char s) \/
                 exists pre mid after,
                   cur = Some pre /\
                   String "}"%char s = mid ++ String "}"%char after /\
                   name = pre ++ mid)).
      { intros H.
        destruct (IH None) as [Hv [Hocc|(pre & mid & after & Hp & _)]];
          [intros pre Hp; discriminate | assumption | | discriminate].
        split; [assumption|]. left. apply (occurs_app_r _ "}" _ Hocc). }
      destruct cur as [[|a b]|]; try (apply Hrest; assumption).
      destruct Hin as [<-|Hin]; [|apply Hrest; assumption].
      destruct (Hcur _ eq_refl) as [Ho Hc].
      split; [split; [discriminate | auto]|].
      right. exists (String a b), "", s.
      rewrite string_app_nil. auto.
    + destruct cur as [pre|].
      * destruct (Hcur _ eq_refl) as [Ho Hc].
        destruct (IH (Some (pre ++ String c "")))
          as [Hv [Hocc|(pre' & mid & after & Hp & Hs & Hn)]];
          [ | assumption | | ].
        -- intros pre' Hp. inversion Hp; subst pre'.
           rewrite !mentions_app. simpl. rewrite Ho, Hc, Hco, Hcc.
           auto.
        -- split; [assumption|]. left.
           apply (occurs_app_r _ (String c "") _ Hocc).
        -- split; [assumption|]. right.
           inversion Hp; subst pre'.
           exists pre, (String c mid), after.
           split; [reflexivity|]. split.
           ++ cbn [append]. rewrite Hs. reflexivity.
           ++ rewrite Hn, string_app_assoc. reflexivity.
      * destruct (IH None) as [Hv [Hocc|(pre & mid & after & Hp & _)]];
          [intros pre Hp; discriminate | assumption | | discriminate].
        split; [assumption|]. left.
        apply (occurs_app_r _ (String c "") _ Hocc).
Qed.

Lemma unreplaced_vars_names (name s : string) :
  In name (unreplaced_vars s) <->
  variable_name name /\ occurs (placeholder name) s.
Proof.
  unfold unreplaced_vars. split.
  - intros H.
    destruct (find_unreplaced_sound name s None) as [Hv [Hocc|Hd]];
      [intros pre Hp; discriminate | assumption | auto |].
    destruct Hd as (pre & mid & after & Hp & _). discriminate.
  - intros [Hv Hocc]. apply find_unreplaced_occurs; assumption.
Qed.

(** X14. The warning of [render_template] lists exactly the names still
    enclosed in braces in the text it returns: a name is in the warning if
    and only if it is not empty, holds no brace, and occurs between an
    opening and a closing brace in the rendered text. *)
Theorem render_template_warns (repr_compound : pyval -> string)
    (template_content rendered : string) (variables : list (pykey * pyval))
    (warnings : list warning) (name : string) :
  render_template repr_compound template_content variables
  = (Ok rendered, warnings) ->
  (warned warnings name <->
   variable_name name /\ occurs (placeholder name) rendered).
Proof.
  unfold render_template, warned.
  destruct (replace_variables repr_compound variables template_content)
    as [out|e]; [|discriminate].
  pose proof (unreplaced_vars_names name out) as Hnames.
  destruct (unreplaced_vars out) as [|u us]; intros H; inversion H; subst.
  - rewrite <- Hnames. split.
    + intros (l & [] & _).
    + intros [].
  - rewrite <- Hnames. split.
    + intros (l & [Hl|[]] & Hn). inversion Hl; subst l. assumption.
    + intros Hn. exists (u :: us). split; [left; reflexivity | assumption].
Qed.

Lemma render_template_warns_witness :
  warned [UnreplacedVariables ["y"]] "y" <->
  variable_name "y" /\ occurs (placeholder "y") "foo-{y}".
Proof.
  apply (render_template_warns (fun _ => "") "{x}-{y}" "foo-{y}"
           [(KStr "x", PStr "foo")] [UnreplacedVariables ["y"]] "y").
  reflexivity.
Defined.

(** ** [validate_config] *)

Lemma is_substring_inv (needle hay : string) :
  is_substring needle hay = true -> occurs needle hay.
Proof.
  induction hay as [|c hay IH]; intros H.
  - destruct needle; [|discriminate]. exists "", "". reflexivity.
  - rewrite is_substring_cons in H.
    destruct (String.prefix needle (String c hay)) eqn:Hp.
    + apply prefix_app in Hp. destruct Hp as [after Hp].
      exists "", after. assumption.
    + apply (occurs_app_r _ (String c "")). auto.
Qed.

Lemma first_error_found (errors : list string) (config : string) :
  (exists error, first_error errors config = Some error) <->
  exists error, In error errors /\ occurs error config.
Proof.
  induction errors as [|e errors IH]; simpl.
  - split; [intros [error H]; discriminate | intros (error & [] & _)].
  - destruct (is_substring e config) eqn:He.
    + split; [|eauto]. intros _. exists e. split; [auto|].
      apply is_substring_inv. assumption.
    + rewrite IH. split.
      * intros (error & Hin & Hocc). eauto.
      * intros (error & [<-|Hin] & Hocc); [|eauto].
        apply is_substring_occurs in Hocc. congruence.
Qed.

Lemma validate_config_rejects (config device_type : string) :
  fst (validate_config config device_type) = false <->
  exists error, In error common_errors /\ occurs error config.
Proof.
  rewrite <- first_error_found. unfold validate_config.
  destruct (first_error common_errors config) as [error|]; simpl.
  - split; eauto.
  - split; [discriminate | intros [error H]; discriminate].
Qed.

(** X15. The verdict of [validate_config] does not depend on the device type
    and is kept by any text around the configuration: a configuration that
    is rejected stays rejected, for every device type, when text is put
    before and after it. *)
Theorem validate_config_rejects_embedding
    (config before after device_type device_type' : string) :
  fst (validate_config config device_type) = false ->
  fst (validate_config (before ++ config ++ after) device_type') = false.
Proof.
  rewrite !validate_config_rejects.
  intros (error & Hin & Hocc). exists error. split; [assumption|].
  apply occurs_app_r, occurs_app_l. assumption.
Qed.

Lemma validate_config_rejects_embedding_witness :
  fst (validate_config
         ("hostname r1" ++ "% Invalid input detected at '^' marker." ++ "end")
         "juniper_junos") = false.
Proof.
  apply (validate_config_rejects_embedding
           "% Invalid input detected at '^' marker." "hostname r1" "end"
           "cisco_ios" "juniper_junos").
  reflexivity.
Defined.

(** ** File names *)

Lemma endswith_cons (c : ascii) (s suffix : string) :
  endswith (String c s) suffix
  = if String.eqb (String c s) suffix then true else endswith s suffix.
Proof. reflexivity. Qed.

Lemma endswith_refl (s : string) : endswith s s = true.
Proof.
  destruct s as [|c s]; [reflexivity|].
  rewrite endswith_cons, String.eqb_refl. reflexivity.
Qed.

Lemma endswith_app (a b : string) : endswith (a ++ b) b = true.
Proof.
  induction a as [|c a IH]; [apply endswith_refl|].
  cbn [append]. rewrite endswith_cons, IH.
  destruct (String.eqb (String c (a ++ b)) b); reflexivity.
Qed.

Lemma endswith_length (s suffix : string) :
  endswith s suffix = true -> String.length suffix <= String.length s.
Proof.
  induction s as [|c s IH]; intros H.
  - destruct suffix; [simpl; lia | discriminate].
  - rewrite endswith_cons in H.
    destruct (String.eqb (String c s) suffix) eqn:He.
    + apply String.eqb_eq in He. subst suffix. lia.
    + specialize (IH H). simpl. lia.
Qed.

(** Two endings of the same text: the shorter one ends the longer one. *)
Lemma endswith_both (s a b : string) :
  endswith s a = true -> endswith s b = true ->
  String.length a <= String.length b -> endswith b a = true.
Proof.
  induction s as [|c s IH]; intros Ha Hb Hlen.
  - destruct b; [assumption | discriminate].
  - rewrite endswith_cons in Hb.
    destruct (String.eqb (String c s) b) eqn:He.
    + apply String.eqb_eq in He. subst b. assumption.
    + rewrite endswith_cons in Ha.
      destruct (String.eqb (String c s) a) eqn:He'.
      * apply String.eqb_eq in He'. subst a.
        apply endswith_length in Hb. simpl in Hlen. lia.
      * auto.
Qed.

Lemma app_txt_longer (s : string) : s ++ ".txt" <> s.
Proof.
  intros H. apply (f_equal String.length) in H.
  rewrite string_length_app in H. simpl in H. lia.
Qed.

Lemma config_file_name_txt (filename : string) :
  endswith (config_file_name filename) ".txt" = true.
Proof.
  unfold config_file_name.
  destruct (endswith filename ".txt") eqn:H; [assumption|].
  apply endswith_app.
Qed.

(** X16. [save_config] and [load_template] give a name the same file name
    exactly when the name does not end in [.j2] or [.jinja2]: such a name is
    read as it is and saved with [.txt] added. *)
Theorem file_names_agree_iff (name : string) :
  config_file_name name = template_file_name name <->
  endswith name ".j2" = false /\ endswith name ".jinja2" = false.
Proof.
  unfold config_file_name, template_file_name. cbn [existsb].
  rewrite orb_false_r.
  destruct (endswith name ".txt") eqn:Htxt.
  - split; [intros _ | reflexivity]. split.
    + destruct (endswith name ".j2") eqn:H; [|reflexivity].
      pose proof (endswith_both name ".j2" ".txt" H Htxt) as Hc.
      simpl in Hc. symmetry. apply Hc. lia.
    + destruct (endswith name ".jinja2") eqn:H; [|reflexivity].
      pose proof (endswith_both name ".txt" ".jinja2" Htxt H) as Hc.
      simpl in Hc. symmetry. apply Hc. lia.
  - cbn [orb]. split.
    + intros H.
      destruct (endswith name ".j2" || endswith name ".jinja2") eqn:Hj.
      * exfalso. exact (app_txt_longer _ H).
      * apply orb_false_iff in Hj. assumption.
    + intros [-> ->]. reflexivity.
Qed.

Lemma mentions_substring (c : ascii) (s : string) :
  forall n, mentions c (substring 0 n s) = true -> mentions c s = true.
Proof.
  induction s as [|x s IH]; intros n H.
  - destruct n; discriminate.
  - destruct n as [|n]; [discriminate|].
    simpl in H. simpl. apply orb_true_iff in H.
    destruct H as [H|H]; [rewrite H; reflexivity|].
    rewrite (IH n H). apply orb_true_r.
Qed.

Lemma after_last_no_sep (p : string) :
  match after_last "/"%char p with
  | Some tail => mentions "/"%char tail = false
  | None => mentions "/"%char p = false
  end.
Proof.
  induction p as [|c p IH]; [reflexivity|].
  simpl. destruct (after_last "/"%char p) as [tail|]; [assumption|].
  destruct (Ascii.eqb c "/"%char); [assumption|]. simpl. assumption.
Qed.

Lemma basename_no_sep (p : string) : mentions "/"%char (basename p) = false.
Proof.
  unfold basename. pose proof (after_last_no_sep p) as H.
  destruct (after_last "/"%char p); assumption.
Qed.

Lemma rendered_file_name_txt (template_name : string) :
  config_file_name (rendered_file_name template_name)
  = rendered_file_name template_name.
Proof.
  unfold config_file_name, rendered_file_name.
  change "_rendered.txt" with ("_rendered" ++ ".txt").
  rewrite <- string_app_assoc, endswith_app. reflexivity.
Qed.

Lemma rendered_file_name_no_sep (template_name : string) :
  mentions "/"%char (rendered_file_name template_name) = false.
Proof.
  unfold rendered_file_name, splitext_root. rewrite mentions_app.
  apply orb_false_iff. split; [|reflexivity].
  destruct (mentions "/"%char
              (substring 0
                 (String.length (basename template_name) -
                  String.length (splitext_ext (basename template_name)))
                 (basename template_name))) eqn:H; [|reflexivity].
  apply mentions_substring in H. rewrite basename_no_sep in H.
  discriminate.
Qed.

Section FileSystemFacts.

Variable fs : Type.
Variable makedirs : string -> fs -> fs * option os_error.
Variable open_w : string -> string -> fs -> fs * option os_error.
Variable open_r : fs -> string -> os_error + string.
Variable isfile : fs -> string -> bool.
Variable read_text : fs -> string -> string.

Lemma save_config_written (cwd config filename : string)
    (output_dir : option string) (files files' : fs) (path : string) :
  save_config makedirs open_w cwd config filename output_dir files
  = (files', Returned path) ->
  path = path_join (match output_dir with None => cwd | Some d => d end)
           (config_file_name filename) /\
  exists made, open_w path config made = (files', None).
Proof.
  unfold save_config.
  destruct (makedirs (match output_dir with None => cwd | Some d => d end)
              files) as [made [e|]]; [discriminate|].
  destruct (open_w
              (path_join (match output_dir with None => cwd | Some d => d end)
                 (config_file_name filename)) config made)
    as [files'' [e|]] eqn:Hw; [discriminate|].
  intros H. inversion H; subst. eauto.
Qed.


Variable template_dir cwd : string.
Variable repr_compound : pyval -> string.

(** X18. [generate_config_from_template] does not stop at a configuration
    that [validate_config] rejects: once the template is loaded and
    rendered, and nothing is to be saved, it returns the rendered text and
    leaves the files alone; the rejection only shows in the log. *)
Theorem generate_returns_rejected (template_name content rendered : string)
    (variables : list (pykey * pyval)) (filename : option string)
    (files : fs) :
  load_template open_r template_dir template_name files = Returned content ->
  fst (render_template repr_compound content variables) = Ok rendered ->
  fst (validate_config rendered "cisco_ios") = false ->
  exists error,
    In error common_errors /\ occurs error rendered /\
    generate_config_from_template makedirs open_w open_r template_dir cwd
      repr_compound template_name variables false filename files
    = (files, Returned rendered, [ValidationFailed error; MayContainErrors]).
Proof.
  intros Hload Hrender Hrej.
  unfold generate_config_from_template. rewrite Hload, Hrender.
  unfold validate_config in *.
  destruct (first_error common_errors rendered) as [error|] eqn:He;
    [|discriminate].
  exists error.
  assert (Herr : In error common_errors /\ occurs error rendered).
  { revert He. generalize common_errors as errors.
    induction errors as [|e errors IH]; simpl; intros H; [discriminate|].
    destruct (is_substring e rendered) eqn:Hs.
    - inversion H; subst e. split; [auto|].
      apply is_substring_inv. assumption.
    - destruct (IH H). auto. }
  destruct Herr. split; [assumption|]. split; [assumption|]. reflexivity.
Qed.

(** X19. When [generate_config_from_template] is asked to save and is given
    no file name, a call that returns has written the text it returns to the
    file named after the template, without its directories and extension
    and with [_rendered.txt] added, directly in the current directory: the
    file read back holds the returned text. *)
Theorem generate_saves_rendering (template_name rendered : string)
    (variables : list (pykey * pyval)) (files files' : fs)
    (logged : list config_log) :
  (forall p text s s', open_w p text s = (s', None) ->
                       open_r s' p = inr text) ->
  generate_config_from_template makedirs open_w open_r template_dir cwd
    repr_compound template_name variables true None files
  = (files', Returned rendered, logged) ->
  mentions "/"%char (rendered_file_name template_name) = false /\
  open_r files' (path_join cwd (rendered_file_name template_name))
  = inr rendered.
Proof.
  intros Hlaw. unfold generate_config_from_template.
  destruct (load_template open_r template_dir template_name files)
    as [content|e]; [|discriminate].
  destruct (fst (render_template repr_compound content variables))
    as [out|e]; [|discriminate].
  destruct (save_config makedirs open_w cwd out
              (rendered_file_name template_name) None files)
    as [files'' [path|e]] eqn:Hsave; [|discriminate].
  intros H. inversion H; subst.
  destruct (save_config_written _ _ _ _ _ _ _ Hsave) as [Hpath [made Hw]].
  rewrite rendered_file_name_txt in Hpath.
  split; [apply rendered_file_name_no_sep|].
  rewrite <- Hpath. eapply Hlaw; eauto.
Qed.

Variable yaml_dump json_dump : pyval -> string.
Variable yaml_safe_load json_load : string -> result pyval.


End FileSystemFacts.

Lemma texts_read_after_write (p text : string) (s s' : texts) :
  texts_open_w p text s = (s', None) -> texts_open_r s' p = inr text.
Proof.
  unfold texts_open_w, texts_open_r. intros H. inversion H; subst s'.
  simpl. rewrite String.eqb_refl. reflexivity.
Qed.

Lemma texts_written_file (p text : string) (s s' : texts) :
  texts_open_w p text s = (s', None) ->
  texts_isfile s' p = true /\ texts_read s' p = text.
Proof.
  unfold texts_open_w, texts_isfile, texts_read. intros H.
  inversion H; subst s'. simpl. rewrite String.eqb_refl. auto.
Qed.


Lemma generate_returns_rejected_witness :
  exists error,
    In error common_errors /\ occurs error "% Invalid command for r1" /\
    generate_config_from_template texts_makedirs texts_open_w texts_open_r
      "templates" "/home/lab" (fun _ => "") "bad"
      [(KStr "name", PStr "r1")] false None
      [("templates/bad.txt", "% Invalid command for {name}")]
    = ([("templates/bad.txt", "% Invalid command for {name}")],
       Returned "% Invalid command for r1",
       [ValidationFailed error; MayContainErrors]).
Proof.
  apply (generate_returns_rejected texts texts_makedirs texts_open_w
           texts_open_r "templates" "/home/lab" (fun _ => "") "bad"
           "% Invalid command for {name}" "% Invalid command for r1"
           [(KStr "name", PStr "r1")] None
           [("templates/bad.txt", "% Invalid command for {name}")]);
    reflexivity.
Defined.

Lemma generate_saves_rendering_witness :
  mentions "/"%char (rendered_file_name "ios/base.j2") = false /\
  texts_open_r
    [("/home/lab/base_rendered.txt", "hostname r1");
     ("templates/ios/base.j2", "hostname {name}")]
    (path_join "/home/lab" (rendered_file_name "ios/base.j2"))
  = inr "hostname r1".
Proof.
  apply (generate_saves_rendering texts texts_makedirs texts_open_w
           texts_open_r "templates" "/home/lab" (fun _ => "") "ios/base.j2"
           "hostname r1" [(KStr "name", PStr "r1")]
           [("templates/ios/base.j2", "hostname {name}")]
           [("/home/lab/base_rendered.txt", "hostname r1");
            ("templates/ios/base.j2", "hostname {name}")]
           []);
    [exact texts_read_after_write | reflexivity].
Defined.


(** ** The device [validate_topology] names *)

Lemma missing_from_raises (xs : list string) (c : pyval) (e : exn) :
  missing_from xs c = Raise e -> e = Builtin TypeError.
Proof.
  induction xs as [|x xs IH]; simpl; [discriminate|].
  destruct (py_in (KStr x) c) as [b|e'] eqn:Hin; simpl.
  - destruct (missing_from xs c) as [ms|e'']; simpl; [discriminate|].
    intros H. inversion H; subst e''. auto.
  - intros H. inversion H; subst e'.
    destruct c; simpl in Hin; try discriminate; inversion Hin; reflexivity.
Qed.

(** X21. Devices are checked in the order of the document and before any
    connection: when the device configurations before some device pass and
    that device's does not, [validate_topology] raises the error that names
    this device and the properties it lacks, or, when the configuration is
    not a container at all (an empty YAML value), the [TypeError] of the
    membership test wrapped as an unexpected error. *)
Theorem validate_first_incomplete_device (topology : pyval)
    (good rest : list (pykey * pyval)) (name : pykey)
    (device_config : pyval) :
  has_key "name" topology = true ->
  has_key "connections" topology = true ->
  field "devices" topology
  = Some (PDict (good ++ (name, device_config) :: rest)) ->
  forallb (fun item => device_accepted (snd item)) good = true ->
  device_accepted device_config = false ->
  validate_topology topology
  = Raise (TopologyValidationError
             match missing_from required_device_props device_config with
             | Ok missing => DeviceMissingProps name missing
             | Raise e => Unexpected e
             end).
Proof.
  intros Hname Hkc Hdev Hgood Hbad.
  pose proof (field_has_key _ _ _ Hdev) as Hkd.
  apply field_dict in Hdev. destruct Hdev as (d & -> & Hld).
  simpl in Hname, Hkd, Hkc.
  assert (Hloop : for_each check_device good = Ok tt).
  { apply (for_each_forallb check_device
             (fun item => device_accepted (snd item))); [|assumption].
    intros x. apply check_device_accepted. }
  assert (Hchecks : validate_checks (PDict d)
                    = check_device (name, device_config) ;;;
                      for_each check_device rest ;;;
                      connections_value <- py_getitem (PDict d) "connections" ;;
                      match connections_value with
                      | PList connections =>
                          for_each
                            (check_connection
                               (dict_keys
                                  (good ++ (name, device_config) :: rest)))
                            (enumerate connections) ;;;
                          Ok true
                      | _ => invalid ConnectionsNotList
                      end).
  { unfold validate_checks. simpl missing_from.
    rewrite Hname, Hkd, Hkc. cbn [bind py_getitem]. rewrite Hld. cbn [bind].
    rewrite (for_each_app _ _ _ Hloop). cbn [for_each].
    destruct (check_device (name, device_config)) as [[]|e]; reflexivity. }
  unfold validate_topology.
  rewrite (lookup_truthy _ _ _ Hld). cbn [negb]. rewrite Hchecks.
  unfold check_device.
  destruct (missing_from required_device_props device_config)
    as [[|m ms]|e] eqn:Hm.
  - exfalso.
    pose proof (proj1 (check_device_accepted (name, device_config))) as H.
    unfold check_device in H. rewrite Hm in H. cbn [bind snd] in H.
    rewrite (H eq_refl) in Hbad. discriminate.
  - reflexivity.
  - rewrite (missing_from_raises _ _ _ Hm). reflexivity.
Qed.

Lemma validate_first_incomplete_device_witness :
  validate_topology
    (obj [("name", PStr "lab");
          ("devices", obj [("A", device_spec); ("B", PNone)]);
          ("connections", PInt 3)])
  = Raise (TopologyValidationError (Unexpected (Builtin TypeError))).
Proof.
  apply (validate_first_incomplete_device
           (obj [("name", PStr "lab");
                 ("devices", obj [("A", device_spec); ("B", PNone)]);
                 ("connections", PInt 3)])
           [(KStr "A", device_spec)] [] (KStr "B") PNone); reflexivity.
Defined.
